(** * BarSignal catalog validator: a shallow embedding of
      [scripts/validate-catalog.ts] and the properties of its result.

    The validator reads [drinks.json], walks the parsed array once with a
    per-entry rule set, optionally checks that the referenced image files
    exist, type-checks [flags.json], and returns a [ValidationResult].

    Layout of this development:
    - [JS]       the JavaScript values and built-ins the script relies on
                 (typeof, truthiness, ToString, String.prototype.trim, ...);
    - [NodePath] the POSIX [path.extname] and [path.basename] of Node;
    - the validator itself, in a state-and-exception monad, one definition
      per commented block of the script;
    - the conditions under which each message is pushed ([entry_error],
      [catalog_error], ...) and the vocabulary of the statements;
    - the proofs: every reported error has a cause ([errors_sound]), every
      cause is reported when the run returns, and the properties of the
      result that follow;
    - runs on sample catalogs. *)

From Stdlib Require Import String Ascii List Bool Arith ZArith Lia.
From Stdlib Require Import Decimal DecimalString DecimalNat.
From Stdlib Require Import PrimFloat.
Import ListNotations.

Set Warnings "-register-all".
Open Scope string_scope.
Open Scope nat_scope.
Open Scope list_scope.

(** String concatenation, written as the pieces of a template literal. *)
Infix "+++" := String.append (right associativity, at level 60).

(** The double-quote character, which several messages contain. *)
Definition dquote : string := String (ascii_of_nat 34) EmptyString.

(** ** Outcome of a computation that may throw *)

(** The exceptions the script can raise: Node's [ERR_INVALID_ARG_TYPE]
    (a [TypeError] of [path.*] on a non-string argument), the [TypeError] of
    reading a property of [null], and the [TypeError] of converting an object
    without a usable [toString] to a primitive. *)
Inductive exn : Type :=
| ERR_INVALID_ARG_TYPE (argName : string)
| TypeError_null_property (prop : string)
| TypeError_to_primitive.

Inductive outcome (A : Type) : Type :=
| Returned (a : A)
| Thrown (e : exn).
Arguments Returned {A} a.
Arguments Thrown {A} e.

(** ** JavaScript values and built-ins *)
Module JS.

(** A value produced by [JSON.parse].  Strings are sequences of code units;
    one character of a Rocq string stands for one code unit (so the model
    covers the code units below 256).  An object is the list of its own
    properties in enumeration order. *)
Inductive json : Type :=
| JNull
| JBool (b : bool)
| JNum (x : float)
| JStr (s : string)
| JArr (l : list json)
| JObj (o : list (string * json)).

(** The result of a property read: [None] is [undefined]. *)
Definition value : Type := option json.

Definition typeof (v : value) : string :=
  match v with
  | None => "undefined"
  | Some JNull => "object"
  | Some (JBool _) => "boolean"
  | Some (JNum _) => "number"
  | Some (JStr _) => "string"
  | Some (JArr _) => "object"
  | Some (JObj _) => "object"
  end.

(** ToBoolean. *)
Definition truthy (v : value) : bool :=
  match v with
  | None => false
  | Some JNull => false
  | Some (JBool b) => b
  | Some (JNum x) => negb (PrimFloat.is_zero x || PrimFloat.is_nan x)
  | Some (JStr s) => negb (String.eqb s "")
  | Some (JArr _) => true
  | Some (JObj _) => true
  end.

Definition isNull (v : value) : bool :=
  match v with Some JNull => true | _ => false end.

(** [Array.isArray]. *)
Definition isArray (v : value) : bool :=
  match v with Some (JArr _) => true | _ => false end.

(** [x === s] for a string [s]. *)
Definition strictEqStr (v : value) (s : string) : bool :=
  match v with Some (JStr t) => String.eqb t s | _ => false end.

(** Decimal rendering of an array index or a loop counter. *)
Definition string_of_nat (n : nat) : string :=
  NilEmpty.string_of_uint (Nat.to_uint n).

(** *** Property access *)

Fixpoint assoc (o : list (string * json)) (k : string) : value :=
  match o with
  | [] => None
  | (k', v) :: r => if String.eqb k' k then Some v else assoc r k
  end.

(** The element of an array whose index is written [k]. *)
Fixpoint arrayIndex (l : list json) (i : nat) (k : string) : value :=
  match l with
  | [] => None
  | x :: r => if String.eqb (string_of_nat i) k then Some x
              else arrayIndex r (S i) k
  end.

(** [o[k]] for a non-null [o], for the names the script reads (the entry's
    fields and the keys [Object.keys] returned).  None of these names is
    defined by a prototype, so only own properties answer. *)
Definition get (o : json) (k : string) : value :=
  match o with
  | JObj fields => assoc fields k
  | JArr l => arrayIndex l 0 k
  | _ => None
  end.

(** [k in o] for an object or an array. *)
Definition hasProperty (o : json) (k : string) : bool :=
  match get o k with Some _ => true | None => false end.

Fixpoint indexed {A : Type} (l : list A) (i : nat) : list (string * A) :=
  match l with
  | [] => []
  | x :: r => (string_of_nat i, x) :: indexed r (S i)
  end.

Fixpoint codeUnits (s : string) : list json :=
  match s with
  | EmptyString => []
  | String c r => JStr (String c EmptyString) :: codeUnits r
  end.

(** [Object.entries]: own enumerable properties; an array and a string
    enumerate their indices, a number or a boolean has none. *)
Definition entries (o : json) : list (string * json) :=
  match o with
  | JObj fields => fields
  | JArr l => indexed l 0
  | JStr s => indexed (codeUnits s) 0
  | _ => []
  end.

(** [Object.keys]. *)
Definition keys (o : json) : list string := map fst (entries o).

(** [Array.prototype.includes] on a list of strings. *)
Definition includes (l : list string) (k : string) : bool :=
  existsb (String.eqb k) l.

(** [a.every(x => typeof x === 'string')]. *)
Definition everyString (l : list json) : bool :=
  forallb (fun x => String.eqb (typeof (Some x)) "string") l.

(** *** Strings *)

(** WhiteSpace and LineTerminator code units below 256: TAB, LF, VT, FF,
    CR, SP and NBSP. *)
Definition isWhiteSpace (c : ascii) : bool :=
  let n := nat_of_ascii c in
  ((9 <=? n) && (n <=? 13)) || (n =? 32) || (n =? 160).

Fixpoint trimStart (s : string) : string :=
  match s with
  | EmptyString => EmptyString
  | String c r => if isWhiteSpace c then trimStart r else s
  end.

Fixpoint trimEnd (s : string) : string :=
  match s with
  | EmptyString => EmptyString
  | String c r =>
      let r' := trimEnd r in
      if String.eqb r' "" && isWhiteSpace c then EmptyString else String c r'
  end.

(** [String.prototype.trim]. *)
Definition trim (s : string) : string := trimEnd (trimStart s).

(** [String.prototype.startsWith]. *)
Definition startsWith (s p : string) : bool := String.prefix p s.

Fixpoint allChars (p : ascii -> bool) (s : string) : bool :=
  match s with
  | EmptyString => true
  | String c r => p c && allChars p r
  end.

Definition inRange (lo hi : string) (c : ascii) : bool :=
  match lo, hi with
  | String l _, String h _ =>
      (nat_of_ascii l <=? nat_of_ascii c) && (nat_of_ascii c <=? nat_of_ascii h)
  | _, _ => false
  end.

(** The class [[a-z0-9_]]. *)
Definition isSnakeChar (c : ascii) : bool :=
  inRange "a" "z" c || inRange "0" "9" c || Ascii.eqb c "_".

(** [/^[a-z0-9_]+$/.test(s)]. *)
Definition testSnakeCase (s : string) : bool :=
  negb (String.eqb s "") && allChars isSnakeChar s.

(** ASCII lower-casing, the case folding of an [i]-flagged pattern on the
    letters of [png]. *)
Definition lowerAscii (c : ascii) : ascii :=
  if inRange "A" "Z" c then ascii_of_nat (nat_of_ascii c + 32) else c.

Fixpoint lowerString (s : string) : string :=
  match s with
  | EmptyString => EmptyString
  | String c r => String (lowerAscii c) (lowerString r)
  end.

Fixpoint endsWith (s suffix : string) : bool :=
  String.eqb s suffix ||
  match s with
  | EmptyString => false
  | String _ r => endsWith r suffix
  end.

(** [/\.(png)$/i.test(s)]. *)
Definition testPngExtension (s : string) : bool :=
  endsWith (lowerString s) ".png".

(** *** ToString *)
Section ToString.

(** [Number.prototype.toString] is the runtime's; the validator only ever
    prints a number when an entry's [id] is one. *)
Variable numberToString : float -> string.

Fixpoint joinWith (sep : string) (l : list string) : string :=
  match l with
  | [] => EmptyString
  | [x] => x
  | x :: r => x +++ sep +++ joinWith sep r
  end.

(** ToString of a parsed value, as a template literal applies it.  An
    object that carries an own [toString] property (never callable in parsed
    JSON) cannot be converted; an array joins the conversions of its
    elements with commas, [null] giving the empty string. *)
Fixpoint toString (v : json) : outcome string :=
  match v with
  | JNull => Returned "null"
  | JBool true => Returned "true"
  | JBool false => Returned "false"
  | JNum x => Returned (numberToString x)
  | JStr s => Returned s
  | JObj o =>
      match assoc o "toString" with
      | Some _ => Thrown TypeError_to_primitive
      | None => Returned "[object Object]"
      end
  | JArr l =>
      let fix elements (l : list json) : outcome (list string) :=
        match l with
        | [] => Returned []
        | x :: r =>
            match (match x with JNull => Returned EmptyString | _ => toString x end) with
            | Thrown e => Thrown e
            | Returned s =>
                match elements r with
                | Thrown e => Thrown e
                | Returned ss => Returned (s :: ss)
                end
            end
        end in
      match elements l with
      | Thrown e => Thrown e
      | Returned ss => Returned (joinWith "," ss)
      end
  end.

End ToString.

End JS.

(** ** Node's [path] module (POSIX flavour) *)
Module NodePath.

(** JavaScript's [s.slice(start, end)] for indices within the string. *)
Definition slice (s : string) (start stop : Z) : string :=
  String.substring (Z.to_nat start) (Z.to_nat (stop - start)) s.

Definition isSlash (c : ascii) : bool := Ascii.eqb c "/".
Definition isDot (c : ascii) : bool := Ascii.eqb c ".".

(** The local variables of [posix.extname]. *)
Record extname_state : Type := {
  startDot : Z;
  startPart : Z;
  ext_end : Z;
  ext_matchedSlash : bool;
  preDotState : Z
}.

(** The loop of [posix.extname]: [chars] are the characters still to visit,
    last first, and [i] is the index of the first of them. *)
Fixpoint extname_loop (chars : list ascii) (i : Z) (st : extname_state)
  : extname_state :=
  match chars with
  | [] => st
  | code :: rest =>
      if isSlash code then
        if negb (ext_matchedSlash st) then
          (* a separator that is not trailing: stop here *)
          {| startDot := startDot st; startPart := i + 1;
             ext_end := ext_end st; ext_matchedSlash := ext_matchedSlash st;
             preDotState := preDotState st |}
        else extname_loop rest (i - 1) st
      else
        let st1 :=
          if (ext_end st =? -1)%Z then
            {| startDot := startDot st; startPart := startPart st;
               ext_end := i + 1; ext_matchedSlash := false;
               preDotState := preDotState st |}
          else st in
        let st2 :=
          if isDot code then
            if (startDot st1 =? -1)%Z then
              {| startDot := i; startPart := startPart st1;
                 ext_end := ext_end st1;
                 ext_matchedSlash := ext_matchedSlash st1;
                 preDotState := preDotState st1 |}
            else if negb (preDotState st1 =? 1)%Z then
              {| startDot := startDot st1; startPart := startPart st1;
                 ext_end := ext_end st1;
                 ext_matchedSlash := ext_matchedSlash st1;
                 preDotState := 1 |}
            else st1
          else if negb (startDot st1 =? -1)%Z then
            {| startDot := startDot st1; startPart := startPart st1;
               ext_end := ext_end st1;
               ext_matchedSlash := ext_matchedSlash st1;
               preDotState := -1 |}
          else st1 in
        extname_loop rest (i - 1) st2
  end.

(** [path.extname(p)] for a string [p]. *)
Definition extname (p : string) : string :=
  let st := extname_loop (List.rev (list_ascii_of_string p))
              (Z.of_nat (String.length p) - 1)
              {| startDot := -1; startPart := 0; ext_end := -1;
                 ext_matchedSlash := true; preDotState := 0 |} in
  if (startDot st =? -1)%Z || (ext_end st =? -1)%Z
     || (preDotState st =? 0)%Z
     || ((preDotState st =? 1)%Z
         && (startDot st =? ext_end st - 1)%Z
         && (startDot st =? startPart st + 1)%Z)
  then EmptyString
  else slice p (startDot st) (ext_end st).

(** The local variables of [posix.basename]. *)
Record basename_state : Type := {
  start : Z;
  base_end : Z;
  base_matchedSlash : bool;
  extIdx : Z;
  firstNonSlashEnd : Z
}.

Definition charCodeAt (s : string) (i : Z) : option ascii :=
  if (i <? 0)%Z then None else String.get (Z.to_nat i) s.

Definition sameCode (c : ascii) (d : option ascii) : bool :=
  match d with Some d' => Ascii.eqb c d' | None => false end.

(** The loop of [posix.basename] when a suffix is given. *)
Fixpoint basename_suffix_loop (suffix : string) (chars : list ascii) (i : Z)
    (st : basename_state) : basename_state :=
  match chars with
  | [] => st
  | code :: rest =>
      if isSlash code then
        if negb (base_matchedSlash st) then
          {| start := i + 1; base_end := base_end st;
             base_matchedSlash := base_matchedSlash st;
             extIdx := extIdx st; firstNonSlashEnd := firstNonSlashEnd st |}
        else basename_suffix_loop suffix rest (i - 1) st
      else
        let st1 :=
          if (firstNonSlashEnd st =? -1)%Z then
            {| start := start st; base_end := base_end st;
               base_matchedSlash := false;
               extIdx := extIdx st; firstNonSlashEnd := i + 1 |}
          else st in
        let st2 :=
          if (0 <=? extIdx st1)%Z then
            if sameCode code (charCodeAt suffix (extIdx st1)) then
              if (extIdx st1 - 1 =? -1)%Z then
                {| start := start st1; base_end := i;
                   base_matchedSlash := base_matchedSlash st1;
                   extIdx := extIdx st1 - 1;
                   firstNonSlashEnd := firstNonSlashEnd st1 |}
              else
                {| start := start st1; base_end := base_end st1;
                   base_matchedSlash := base_matchedSlash st1;
                   extIdx := extIdx st1 - 1;
                   firstNonSlashEnd := firstNonSlashEnd st1 |}
            else
              {| start := start st1; base_end := firstNonSlashEnd st1;
                 base_matchedSlash := base_matchedSlash st1;
                 extIdx := -1;
                 firstNonSlashEnd := firstNonSlashEnd st1 |}
          else st1 in
        basename_suffix_loop suffix rest (i - 1) st2
  end.

(** The loop of [posix.basename] without a usable suffix. *)
Fixpoint basename_plain_loop (chars : list ascii) (i : Z)
    (st : basename_state) : basename_state :=
  match chars with
  | [] => st
  | code :: rest =>
      if isSlash code then
        if negb (base_matchedSlash st) then
          {| start := i + 1; base_end := base_end st;
             base_matchedSlash := base_matchedSlash st;
             extIdx := extIdx st; firstNonSlashEnd := firstNonSlashEnd st |}
        else basename_plain_loop rest (i - 1) st
      else if (base_end st =? -1)%Z then
        basename_plain_loop rest (i - 1)
          {| start := start st; base_end := i + 1;
             base_matchedSlash := false;
             extIdx := extIdx st; firstNonSlashEnd := firstNonSlashEnd st |}
      else basename_plain_loop rest (i - 1) st
  end.

(** [path.basename(p, suffix)] for strings [p] and [suffix]. *)
Definition basename (p suffix : string) : string :=
  let len := Z.of_nat (String.length p) in
  let slen := Z.of_nat (String.length suffix) in
  let init := {| start := 0; base_end := -1; base_matchedSlash := true;
                 extIdx := slen - 1; firstNonSlashEnd := -1 |} in
  let chars := List.rev (list_ascii_of_string p) in
  if (0 <? slen)%Z && (slen <=? len)%Z then
    if String.eqb suffix p then EmptyString
    else
      let st := basename_suffix_loop suffix chars (len - 1) init in
      let stop :=
        if (start st =? base_end st)%Z then firstNonSlashEnd st
        else if (base_end st =? -1)%Z then len
        else base_end st in
      slice p (start st) stop
  else
    let st := basename_plain_loop chars (len - 1) init in
    if (base_end st =? -1)%Z then EmptyString
    else slice p (start st) (base_end st).

End NodePath.

Import JS.

(** ** The validator *)

(** [ValidationResult], the object the script builds and returns. *)
Record ValidationResult : Type := {
  success : bool;
  errors : list string;
  warnings : list string
}.

(** The mutable variables of one run: the [result] object and the
    [seenIds] set (a JavaScript [Set] keeps its members in insertion
    order). *)
Record vstate : Type := {
  result : ValidationResult;
  seenIds : list string
}.

(** What reading and parsing a JSON file gives: the [try] block either
    yields the parsed value or is left through [catch] with the parser's
    message. *)
Inductive file_content : Type :=
| ParseError (message : string)
| Parsed (v : json).

(** What a run observes of its surroundings: the two files next to the
    script ([None] when [fs.existsSync] answers [false]), the environment
    variable, and [fs.existsSync] on an image path below the catalog root. *)
Record World : Type := {
  catalogFile : option file_content;
  flagsFile : option file_content;
  VALIDATE_IMAGE_FILES : option string;
  existsSync : string -> bool
}.

(** *** State and exceptions *)

Definition M (A : Type) : Type := vstate -> outcome (A * vstate).

Definition ret {A : Type} (a : A) : M A := fun st => Returned (a, st).

Definition bind {A B : Type} (m : M A) (k : A -> M B) : M B :=
  fun st =>
    match m st with
    | Returned (a, st') => k a st'
    | Thrown e => Thrown e
    end.

Definition throw {A : Type} (e : exn) : M A := fun _ => Thrown e.

Definition liftOutcome {A : Type} (o : outcome A) : M A :=
  match o with
  | Returned a => ret a
  | Thrown e => throw e
  end.

Notation "x <- c1 ;; c2" := (bind c1 (fun x => c2))
  (at level 61, c1 at next level, right associativity).
Notation "c1 ;; c2" := (bind c1 (fun _ => c2))
  (at level 61, right associativity).

Definition when (b : bool) (m : M unit) : M unit :=
  if b then m else ret tt.

(** [l.forEach((x, index) => f(x, index))], counting from [index]. *)
Fixpoint forEach {A : Type} (f : A -> nat -> M unit) (l : list A)
    (index : nat) : M unit :=
  match l with
  | [] => ret tt
  | x :: r => f x index ;; forEach f r (S index)
  end.

(** [result.errors.push(msg)]. *)
Definition errors_push (msg : string) : M unit :=
  fun st =>
    Returned (tt, {| result := {| success := success (result st);
                                  errors := errors (result st) ++ [msg];
                                  warnings := warnings (result st) |};
                     seenIds := seenIds st |}).

(** [result.success = b]. *)
Definition set_success (b : bool) : M unit :=
  fun st =>
    Returned (tt, {| result := {| success := b;
                                  errors := errors (result st);
                                  warnings := warnings (result st) |};
                     seenIds := seenIds st |}).

(** [result.warnings?.push(msg)]; the list is always there. *)
Definition warnings_push (msg : string) : M unit :=
  fun st =>
    Returned (tt, {| result := {| success := success (result st);
                                  errors := errors (result st);
                                  warnings := warnings (result st) ++ [msg] |};
                     seenIds := seenIds st |}).

(** [seenIds.has(id)] and [seenIds.add(id)]. *)
Definition seenIds_has (id : string) : M bool :=
  fun st => Returned (includes (seenIds st) id, st).

Definition seenIds_add (id : string) : M unit :=
  fun st =>
    Returned (tt, {| result := result st;
                     seenIds := if includes (seenIds st) id then seenIds st
                                else seenIds st ++ [id] |}).

(** The pair of statements every failing rule runs. *)
Definition reportError (msg : string) : M unit :=
  errors_push msg ;; set_success false.

(** *** Messages *)

Definition drinkPrefix (index : nat) : string :=
  "Drink at index " +++ string_of_nat index.

Definition msg_not_object (index : nat) : string :=
  drinkPrefix index +++ ": must be an object".

Definition msg_id_required (index : nat) : string :=
  drinkPrefix index +++ ": id must be a non-empty string".

Definition msg_duplicate (index : nat) (id : string) : string :=
  drinkPrefix index +++ ": duplicate id " +++ dquote +++ id +++ dquote.

Definition msg_format (index : nat) (id : string) : string :=
  drinkPrefix index +++ ": id " +++ dquote +++ id +++ dquote +++
  " must be in snake_case format (lowercase letters, numbers, and underscores only)".

(** A message of the form [`${drinkPrefix} (${label}): ${text}`]. *)
Definition msg_labelled (index : nat) (label text : string) : string :=
  drinkPrefix index +++ " (" +++ label +++ "): " +++ text.

Definition text_name : string := "name must be a non-empty string".
Definition text_category : string := "category must be a string".
Definition text_popularity : string :=
  "popularity must be a number between 0 and 100".
Definition text_aliases : string :=
  "aliases must be an array of strings if provided".
Definition text_imagePath : string := "imagePath must be a string".
Definition text_imagePath_prefix : string :=
  "imagePath must start with " +++ dquote +++ "drinks/" +++ dquote.
Definition text_imagePath_png : string :=
  "imagePath should be a .png file for consistency".
Definition text_variants_object : string := "imageVariants must be an object".
Definition text_variants_empty : string :=
  "imageVariants must contain at least one variant".
Definition text_variants_keys : string :=
  "imageVariants should include keys {sm, md} (or {512, 1024} for legacy)".
Definition text_variant_string (variantKey : string) : string :=
  "imageVariants." +++ variantKey +++ " must be a non-empty string".
Definition text_variant_prefix (variantKey : string) : string :=
  "imageVariants." +++ variantKey +++ " must start with " +++
  dquote +++ "drinks/_thumbs/" +++ dquote.
Definition text_should_be (variantKey expected : string) : string :=
  variantKey +++ " path should be " +++ expected.
Definition text_modifiers : string :=
  "modifiersSupported must be an array of strings if provided".

Definition msg_image_missing (imagePath id : string) : string :=
  "Image file not found: " +++ imagePath +++ " for drink " +++
  dquote +++ id +++ dquote.

Definition msg_variant_missing (imagePath variant id : string) : string :=
  "Image variant file not found: " +++ imagePath +++ " (" +++ variant +++
  ") for drink " +++ dquote +++ id +++ dquote.

Section Validator.

Variable numberToString : float -> string.

(** [drink.id || 'unknown id'] converted to a string, as the template
    literal of a message does when the message is built. *)
Definition drinkLabel (drink : json) : outcome string :=
  match get drink "id" with
  | Some id => if truthy (Some id) then toString numberToString id
               else Returned "unknown id"
  | None => Returned "unknown id"
  end.

(** [result.errors.push(`${drinkPrefix} (${drink.id || 'unknown id'}): ...`)]
    followed by [result.success = false]. *)
Definition reportLabelled (drink : json) (index : nat) (text : string)
  : M unit :=
  label <- liftOutcome (drinkLabel drink) ;;
  reportError (msg_labelled index label text).

Definition warnLabelled (drink : json) (index : nat) (text : string)
  : M unit :=
  label <- liftOutcome (drinkLabel drink) ;;
  warnings_push (msg_labelled index label text).

(** *** The per-entry rules, in the order of the callback's body *)

(** [!v || typeof v !== 'string' || v.trim() === ''] *)
Definition notNonEmptyString (v : value) : bool :=
  negb (truthy v) || negb (String.eqb (typeof v) "string") ||
  match v with
  | Some (JStr s) => String.eqb (trim s) ""
  | _ => false
  end.

(** Validate id field. *)
Definition validateId (drink : json) (index : nat) : M unit :=
  let id := get drink "id" in
  if notNonEmptyString id then reportError (msg_id_required index)
  else
    match id with
    | Some (JStr id) =>
        (* Check for duplicate ids *)
        (seen <- seenIds_has id ;;
         if seen then reportError (msg_duplicate index id)
         else seenIds_add id) ;;
        (* Validate id format (snake_case) *)
        when (negb (testSnakeCase id)) (reportError (msg_format index id))
    | _ => ret tt
    end.

(** Validate name field. *)
Definition validateName (drink : json) (index : nat) : M unit :=
  when (notNonEmptyString (get drink "name"))
       (reportLabelled drink index text_name).

(** Validate category field. *)
Definition validateCategory (drink : json) (index : nat) : M unit :=
  let category := get drink "category" in
  when (negb (truthy category) || negb (String.eqb (typeof category) "string"))
       (reportLabelled drink index text_category).

(** [typeof v !== 'number' || v < 0 || v > 100] *)
Definition popularityOutOfRange (v : value) : bool :=
  negb (String.eqb (typeof v) "number") ||
  match v with
  | Some (JNum x) => PrimFloat.ltb x 0 || PrimFloat.ltb 100 x
  | _ => false
  end.

(** Validate popularity field. *)
Definition validatePopularity (drink : json) (index : nat) : M unit :=
  when (popularityOutOfRange (get drink "popularity"))
       (reportLabelled drink index text_popularity).

(** [!Array.isArray(v) || !v.every(x => typeof x === 'string')] *)
Definition notArrayOfStrings (v : value) : bool :=
  negb (isArray v) ||
  match v with
  | Some (JArr l) => negb (everyString l)
  | _ => false
  end.

(** Validate aliases (optional). *)
Definition validateAliases (drink : json) (index : nat) : M unit :=
  let aliases := get drink "aliases" in
  when (truthy aliases)
       (when (notArrayOfStrings aliases)
             (reportLabelled drink index text_aliases)).

(** Validate imagePath field. *)
Definition validateImagePath (drink : json) (index : nat) : M unit :=
  let imagePath := get drink "imagePath" in
  if negb (truthy imagePath) || negb (String.eqb (typeof imagePath) "string")
  then reportLabelled drink index text_imagePath
  else
    match imagePath with
    | Some (JStr imagePath) =>
        when (negb (startsWith imagePath "drinks/"))
             (reportLabelled drink index text_imagePath_prefix) ;;
        when (negb (testPngExtension imagePath))
             (warnLabelled drink index text_imagePath_png)
    | _ => ret tt
    end.

(** The body of [variantKeys.forEach(variantKey => ...)]. *)
Definition validateVariant (drink variants : json) (index : nat)
    (variantKey : string) : M unit :=
  let variantPath := get variants variantKey in
  match variantPath with
  | Some (JStr path) =>
      if String.eqb (trim path) "" then
        reportLabelled drink index (text_variant_string variantKey)
      else
        when (negb (startsWith path "drinks/_thumbs/"))
             (reportLabelled drink index (text_variant_prefix variantKey))
  | _ => reportLabelled drink index (text_variant_string variantKey)
  end.

(** [path.extname(v)] and [path.basename(v, ext)]: both validate that the
    path argument is a string and throw otherwise. *)
Definition path_extname (v : value) : M string :=
  match v with
  | Some (JStr p) => ret (NodePath.extname p)
  | _ => throw (ERR_INVALID_ARG_TYPE "path")
  end.

Definition path_basename (v : value) (ext : string) : M string :=
  match v with
  | Some (JStr p) => ret (NodePath.basename p ext)
  | _ => throw (ERR_INVALID_ARG_TYPE "path")
  end.

(** [if (v && v !== expected) result.warnings?.push(...)] *)
Definition checkExpected (drink : json) (index : nat) (variantKey : string)
    (v : value) (expected : string) : M unit :=
  when (truthy v && negb (strictEqStr v expected))
       (warnLabelled drink index (text_should_be variantKey expected)).

(** Validate imageVariants field. *)
Definition validateImageVariants (drink : json) (index : nat) : M unit :=
  let imageVariants := get drink "imageVariants" in
  if negb (truthy imageVariants)
     || negb (String.eqb (typeof imageVariants) "object")
  then reportLabelled drink index text_variants_object
  else
    match imageVariants with
    | Some variants =>
        (* Check if imageVariants has any entries *)
        let variantKeys := keys variants in
        when (length variantKeys =? 0)
             (reportLabelled drink index text_variants_empty) ;;
        (* Accept either sm/md or 512/1024 as keys, prefer sm/md *)
        let hasSmMd := includes variantKeys "sm" && includes variantKeys "md" in
        let hasNumeric :=
          includes variantKeys "512" && includes variantKeys "1024" in
        when (negb hasSmMd && negb hasNumeric)
             (warnLabelled drink index text_variants_keys) ;;
        (* Validate each image variant path and expected locations *)
        forEach (fun variantKey _ => validateVariant drink variants index variantKey)
                variantKeys 0 ;;
        (* If possible, check that variant file names match the base image
           basename with _512/_1024 *)
        ext <- path_extname (get drink "imagePath") ;;
        base <- path_basename (get drink "imagePath") ext ;;
        let expected512 := "drinks/_thumbs/" +++ base +++ "_512.png" in
        let expected1024 := "drinks/_thumbs/" +++ base +++ "_1024.png" in
        let smPath := get variants "sm" in
        let mdPath := get variants "md" in
        let v512 := get variants "512" in
        let v1024 := get variants "1024" in
        checkExpected drink index "sm" smPath expected512 ;;
        checkExpected drink index "md" mdPath expected1024 ;;
        checkExpected drink index "512" v512 expected512 ;;
        checkExpected drink index "1024" v1024 expected1024
    | None => ret tt
    end.

(** Validate modifiersSupported (optional). *)
Definition validateModifiersSupported (drink : json) (index : nat) : M unit :=
  let modifiersSupported := get drink "modifiersSupported" in
  when (truthy modifiersSupported)
       (when (notArrayOfStrings modifiersSupported)
             (reportLabelled drink index text_modifiers)).

(** [typeof drink !== 'object' || drink === null] *)
Definition notAnObject (drink : json) : bool :=
  negb (String.eqb (typeof (Some drink)) "object") || isNull (Some drink).

(** The callback of the first [drinks.forEach]. *)
Definition validateDrink (drink : json) (index : nat) : M unit :=
  (* Check if drink is an object *)
  if notAnObject drink then reportError (msg_not_object index)
  else
    validateId drink index ;;
    validateName drink index ;;
    validateCategory drink index ;;
    validatePopularity drink index ;;
    validateAliases drink index ;;
    validateImagePath drink index ;;
    validateImageVariants drink index ;;
    validateModifiersSupported drink index.

(** *** The image file check *)

Section ImageFiles.

Variable fileExists : string -> bool.

(** [path.join(__dirname, '..', v)]: throws unless [v] is a string; the
    result is named by the path below the catalog root. *)
Definition path_join (v : value) : M string :=
  match v with
  | Some (JStr p) => ret p
  | _ => throw (ERR_INVALID_ARG_TYPE "path")
  end.

(** [drink.k], which throws when [drink] is [null]. *)
Definition member (drink : json) (k : string) : M value :=
  match drink with
  | JNull => throw (TypeError_null_property k)
  | _ => ret (get drink k)
  end.

(** The body of [Object.entries(drink.imageVariants).forEach(...)]. *)
Definition checkVariantFile (id : json) (entry : string * json) : M unit :=
  let (variant, imagePath) := entry in
  variantImagePath <- path_join (Some imagePath) ;;
  when (negb (fileExists variantImagePath))
       (idText <- liftOutcome (toString numberToString id) ;;
        reportError (msg_variant_missing variantImagePath variant idText)).

(** The callback of the second [drinks.forEach]. *)
Definition checkImageFilesOf (drink : json) : M unit :=
  id <- member drink "id" ;;
  if negb (truthy id) then ret tt
  else
    imagePath <- member drink "imagePath" ;;
    if negb (truthy imagePath) then ret tt
    else
      match id with
      | Some id =>
          mainImagePath <- path_join imagePath ;;
          when (negb (fileExists mainImagePath))
               (idText <- liftOutcome (toString numberToString id) ;;
                reportError (msg_image_missing mainImagePath idText)) ;;
          imageVariants <- member drink "imageVariants" ;;
          match imageVariants with
          | Some variants =>
              when (truthy imageVariants)
                   (forEach (fun entry _ => checkVariantFile id entry)
                            (entries variants) 0)
          | None => ret tt
          end
      | None => ret tt
      end.

End ImageFiles.

(** *** flags.json *)

Definition validateFlags (flagsFile : option file_content) : M unit :=
  match flagsFile with
  | None => ret tt
  | Some (ParseError message) =>
      reportError ("Failed to parse flags.json: " +++ message)
  | Some (Parsed flags) =>
      if notAnObject flags then reportError "flags.json must be a JSON object"
      else
        when (hasProperty flags "forceTextOnly"
              && negb (String.eqb (typeof (get flags "forceTextOnly")) "boolean"))
             (reportError "flags.json: forceTextOnly must be a boolean") ;;
        when (hasProperty flags "catalogVersion"
              && negb (String.eqb (typeof (get flags "catalogVersion")) "string"))
             (reportError "flags.json: catalogVersion must be a string")
  end.

(** *** validateCatalog *)

Definition initialState : vstate :=
  {| result := {| success := true; errors := []; warnings := [] |};
     seenIds := [] |}.

(** [process.env.VALIDATE_IMAGE_FILES === 'true'] *)
Definition checkImageFiles (w : World) : bool :=
  match VALIDATE_IMAGE_FILES w with
  | Some v => String.eqb v "true"
  | None => false
  end.

(** The body of [validateCatalog]: the three early exits (file missing,
    not parseable, not an array), then the two loops and the flags check. *)
Definition validateCatalogBody (w : World) : M unit :=
  match catalogFile w with
  | None => reportError "drinks.json file not found"
  | Some (ParseError message) =>
      reportError ("Failed to parse drinks.json: " +++ message)
  | Some (Parsed parsed) =>
      match parsed with
      | JArr drinks =>
          forEach validateDrink drinks 0 ;;
          when (checkImageFiles w)
               (forEach (fun drink _ => checkImageFilesOf (existsSync w) drink)
                        drinks 0) ;;
          validateFlags (flagsFile w)
      | _ => reportError "drinks.json must contain an array of drink entries"
      end
  end.

Definition validateCatalog (w : World) : outcome ValidationResult :=
  match validateCatalogBody w initialState with
  | Returned (_, st) => Returned (result st)
  | Thrown e => Thrown e
  end.

(** ** What can be reported for an entry

    The conditions under which the callback pushes each of its messages,
    read off the rules above.  [seen] is the content of [seenIds] when the
    entry is reached. *)

(** The expected thumbnail paths of an image path:
    [`drinks/_thumbs/${base}_512.png`] and [`drinks/_thumbs/${base}_1024.png`]
    with [base = path.basename(imagePath, path.extname(imagePath))]. *)
Definition expected512 (imagePath : string) : string :=
  "drinks/_thumbs/" +++
  NodePath.basename imagePath (NodePath.extname imagePath) +++ "_512.png".

Definition expected1024 (imagePath : string) : string :=
  "drinks/_thumbs/" +++
  NodePath.basename imagePath (NodePath.extname imagePath) +++ "_1024.png".

(** The rules of the callback that follow the id rule. *)
Definition fieldRules (drink : json) (index : nat) : M unit :=
  validateName drink index ;;
  validateCategory drink index ;;
  validatePopularity drink index ;;
  validateAliases drink index ;;
  validateImagePath drink index ;;
  validateImageVariants drink index ;;
  validateModifiersSupported drink index.

Inductive field_error (drink : json) : string -> Prop :=
| fe_name :
    notNonEmptyString (get drink "name") = true ->
    field_error drink text_name
| fe_category :
    negb (truthy (get drink "category"))
    || negb (String.eqb (typeof (get drink "category")) "string") = true ->
    field_error drink text_category
| fe_popularity :
    popularityOutOfRange (get drink "popularity") = true ->
    field_error drink text_popularity
| fe_aliases :
    truthy (get drink "aliases") = true ->
    notArrayOfStrings (get drink "aliases") = true ->
    field_error drink text_aliases
| fe_imagePath :
    negb (truthy (get drink "imagePath"))
    || negb (String.eqb (typeof (get drink "imagePath")) "string") = true ->
    field_error drink text_imagePath
| fe_imagePath_prefix p :
    get drink "imagePath" = Some (JStr p) ->
    startsWith p "drinks/" = false ->
    field_error drink text_imagePath_prefix
| fe_variants_object :
    negb (truthy (get drink "imageVariants"))
    || negb (String.eqb (typeof (get drink "imageVariants")) "object") = true ->
    field_error drink text_variants_object
| fe_variants_empty variants :
    get drink "imageVariants" = Some variants ->
    keys variants = [] ->
    field_error drink text_variants_empty
| fe_variant_string variants variantKey :
    get drink "imageVariants" = Some variants ->
    In variantKey (keys variants) ->
    (forall p, get variants variantKey = Some (JStr p) ->
               String.eqb (trim p) "" = true) ->
    field_error drink (text_variant_string variantKey)
| fe_variant_prefix variants variantKey p :
    get drink "imageVariants" = Some variants ->
    In variantKey (keys variants) ->
    get variants variantKey = Some (JStr p) ->
    String.eqb (trim p) "" = false ->
    startsWith p "drinks/_thumbs/" = false ->
    field_error drink (text_variant_prefix variantKey)
| fe_modifiers :
    truthy (get drink "modifiersSupported") = true ->
    notArrayOfStrings (get drink "modifiersSupported") = true ->
    field_error drink text_modifiers.

Inductive field_warning (drink : json) : string -> Prop :=
| fw_png p :
    get drink "imagePath" = Some (JStr p) ->
    testPngExtension p = false ->
    field_warning drink text_imagePath_png
| fw_keys variants :
    get drink "imageVariants" = Some variants ->
    negb (includes (keys variants) "sm" && includes (keys variants) "md")
    && negb (includes (keys variants) "512" && includes (keys variants) "1024")
    = true ->
    field_warning drink text_variants_keys
| fw_should_be variants imagePath variantKey expected :
    get drink "imageVariants" = Some variants ->
    get drink "imagePath" = Some (JStr imagePath) ->
    In (variantKey, expected)
       [("sm", expected512 imagePath); ("md", expected1024 imagePath);
        ("512", expected512 imagePath); ("1024", expected1024 imagePath)] ->
    truthy (get variants variantKey) = true ->
    strictEqStr (get variants variantKey) expected = false ->
    field_warning drink (text_should_be variantKey expected).

Inductive entry_error (seen : list string) (drink : json) (index : nat)
  : string -> Prop :=
| ee_not_object :
    notAnObject drink = true ->
    entry_error seen drink index (msg_not_object index)
| ee_id_required :
    notAnObject drink = false ->
    notNonEmptyString (get drink "id") = true ->
    entry_error seen drink index (msg_id_required index)
| ee_duplicate id :
    notAnObject drink = false ->
    get drink "id" = Some (JStr id) ->
    notNonEmptyString (get drink "id") = false ->
    includes seen id = true ->
    entry_error seen drink index (msg_duplicate index id)
| ee_format id :
    notAnObject drink = false ->
    get drink "id" = Some (JStr id) ->
    notNonEmptyString (get drink "id") = false ->
    testSnakeCase id = false ->
    entry_error seen drink index (msg_format index id)
| ee_field label text :
    notAnObject drink = false ->
    drinkLabel drink = Returned label ->
    field_error drink text ->
    entry_error seen drink index (msg_labelled index label text).

Inductive entry_warning (drink : json) (index : nat) : string -> Prop :=
| ew_field label text :
    notAnObject drink = false ->
    drinkLabel drink = Returned label ->
    field_warning drink text ->
    entry_warning drink index (msg_labelled index label text).

(** The id an entry contributes to [seenIds], if any. *)
Definition validId (drink : json) : option string :=
  if notAnObject drink then None
  else if notNonEmptyString (get drink "id") then None
  else match get drink "id" with
       | Some (JStr id) => Some id
       | _ => None
       end.

Definition addSeen (seen : list string) (drink : json) : list string :=
  match validId drink with
  | Some id => if includes seen id then seen else seen ++ [id]
  | None => seen
  end.

(** [seenIds] when the entry at [index] is reached. *)
Definition seenBefore (drinks : list json) (index : nat) : list string :=
  fold_left addSeen (firstn index drinks) [].

(** ** What the image file check and the flags check can report *)

Inductive image_error (fileExists : string -> bool) (drink : json)
  : string -> Prop :=
| ie_main id imagePath idText :
    get drink "id" = Some id -> truthy (Some id) = true ->
    get drink "imagePath" = Some (JStr imagePath) ->
    fileExists imagePath = false ->
    toString numberToString id = Returned idText ->
    image_error fileExists drink (msg_image_missing imagePath idText)
| ie_variant id variants variant imagePath idText :
    get drink "id" = Some id -> truthy (Some id) = true ->
    truthy (get drink "imagePath") = true ->
    get drink "imageVariants" = Some variants ->
    truthy (Some variants) = true ->
    In (variant, JStr imagePath) (entries variants) ->
    fileExists imagePath = false ->
    toString numberToString id = Returned idText ->
    image_error fileExists drink (msg_variant_missing imagePath variant idText).

Inductive flags_error : option file_content -> string -> Prop :=
| fl_parse message :
    flags_error (Some (ParseError message))
                ("Failed to parse flags.json: " +++ message)
| fl_not_object flags :
    notAnObject flags = true ->
    flags_error (Some (Parsed flags)) "flags.json must be a JSON object"
| fl_forceTextOnly flags :
    notAnObject flags = false ->
    hasProperty flags "forceTextOnly" = true ->
    String.eqb (typeof (get flags "forceTextOnly")) "boolean" = false ->
    flags_error (Some (Parsed flags)) "flags.json: forceTextOnly must be a boolean"
| fl_catalogVersion flags :
    notAnObject flags = false ->
    hasProperty flags "catalogVersion" = true ->
    String.eqb (typeof (get flags "catalogVersion")) "string" = false ->
    flags_error (Some (Parsed flags)) "flags.json: catalogVersion must be a string".

(** Every way an error message can enter the result of a run. *)
Inductive catalog_error (w : World) : string -> Prop :=
| ce_missing :
    catalogFile w = None ->
    catalog_error w "drinks.json file not found"
| ce_parse message :
    catalogFile w = Some (ParseError message) ->
    catalog_error w ("Failed to parse drinks.json: " +++ message)
| ce_not_array parsed :
    catalogFile w = Some (Parsed parsed) ->
    isArray (Some parsed) = false ->
    catalog_error w "drinks.json must contain an array of drink entries"
| ce_entry drinks index drink msg :
    catalogFile w = Some (Parsed (JArr drinks)) ->
    nth_error drinks index = Some drink ->
    entry_error (seenBefore drinks index) drink index msg ->
    catalog_error w msg
| ce_image drinks drink msg :
    catalogFile w = Some (Parsed (JArr drinks)) ->
    checkImageFiles w = true ->
    In drink drinks ->
    image_error (existsSync w) drink msg ->
    catalog_error w msg
| ce_flags drinks msg :
    catalogFile w = Some (Parsed (JArr drinks)) ->
    flags_error (flagsFile w) msg ->
    catalog_error w msg.

(** ** The messages of a run, as lists

    What each block of the callback pushes for an entry, in the order of its
    pushes: the condition of every [if] of the block, with the text it
    guards.  The texts of the labelled messages come first, the messages
    of an entry and of a whole run after them. *)

(** The label of an entry, when it can be printed. *)
Definition labelOf (drink : json) : string :=
  match drinkLabel drink with
  | Returned label => label
  | Thrown _ => EmptyString
  end.

Definition printable (drink : json) : Prop :=
  exists label, drinkLabel drink = Returned label.

Definition nameErrors (drink : json) : list string :=
  if notNonEmptyString (get drink "name") then [text_name] else [].

Definition categoryErrors (drink : json) : list string :=
  let category := get drink "category" in
  if negb (truthy category) || negb (String.eqb (typeof category) "string")
  then [text_category] else [].

Definition popularityErrors (drink : json) : list string :=
  if popularityOutOfRange (get drink "popularity") then [text_popularity]
  else [].

Definition aliasesErrors (drink : json) : list string :=
  let aliases := get drink "aliases" in
  if truthy aliases && notArrayOfStrings aliases then [text_aliases] else [].

Definition imagePathErrors (drink : json) : list string :=
  let imagePath := get drink "imagePath" in
  if negb (truthy imagePath) || negb (String.eqb (typeof imagePath) "string")
  then [text_imagePath]
  else
    match imagePath with
    | Some (JStr p) =>
        if startsWith p "drinks/" then [] else [text_imagePath_prefix]
    | _ => []
    end.

Definition imagePathWarnings (drink : json) : list string :=
  let imagePath := get drink "imagePath" in
  if negb (truthy imagePath) || negb (String.eqb (typeof imagePath) "string")
  then []
  else
    match imagePath with
    | Some (JStr p) => if testPngExtension p then [] else [text_imagePath_png]
    | _ => []
    end.

(** The callback of [variantKeys.forEach], for one key. *)
Definition variantErrors (variants : json) (variantKey : string)
  : list string :=
  match get variants variantKey with
  | Some (JStr path) =>
      if String.eqb (trim path) "" then [text_variant_string variantKey]
      else if startsWith path "drinks/_thumbs/" then []
           else [text_variant_prefix variantKey]
  | _ => [text_variant_string variantKey]
  end.

Definition imageVariantsErrors (drink : json) : list string :=
  let imageVariants := get drink "imageVariants" in
  if negb (truthy imageVariants)
     || negb (String.eqb (typeof imageVariants) "object")
  then [text_variants_object]
  else
    match imageVariants with
    | Some variants =>
        (if length (keys variants) =? 0 then [text_variants_empty] else [])
        ++ flat_map (variantErrors variants) (keys variants)
    | None => []
    end.

(** [if (v && v !== expected)], for the variant under [variantKey]. *)
Definition expectedWarning (variants : json) (variantKey expected : string)
  : list string :=
  let v := get variants variantKey in
  if truthy v && negb (strictEqStr v expected)
  then [text_should_be variantKey expected] else [].

Definition imageVariantsWarnings (drink : json) : list string :=
  let imageVariants := get drink "imageVariants" in
  if negb (truthy imageVariants)
     || negb (String.eqb (typeof imageVariants) "object")
  then []
  else
    match imageVariants with
    | Some variants =>
        let variantKeys := keys variants in
        let hasSmMd := includes variantKeys "sm" && includes variantKeys "md" in
        let hasNumeric :=
          includes variantKeys "512" && includes variantKeys "1024" in
        (if negb hasSmMd && negb hasNumeric then [text_variants_keys] else [])
        ++ match get drink "imagePath" with
           | Some (JStr p) =>
               expectedWarning variants "sm" (expected512 p)
               ++ expectedWarning variants "md" (expected1024 p)
               ++ expectedWarning variants "512" (expected512 p)
               ++ expectedWarning variants "1024" (expected1024 p)
           | _ => []
           end
    | None => []
    end.

Definition modifiersErrors (drink : json) : list string :=
  let modifiersSupported := get drink "modifiersSupported" in
  if truthy modifiersSupported && notArrayOfStrings modifiersSupported
  then [text_modifiers] else [].

(** The texts of the rules that follow the id rule. *)
Definition fieldErrors (drink : json) : list string :=
  nameErrors drink ++ categoryErrors drink ++ popularityErrors drink
  ++ aliasesErrors drink ++ imagePathErrors drink
  ++ imageVariantsErrors drink ++ modifiersErrors drink.

Definition fieldWarnings (drink : json) : list string :=
  imagePathWarnings drink ++ imageVariantsWarnings drink.

(** The id rule, against the ids seen so far. *)
Definition idErrors (seen : list string) (drink : json) (index : nat)
  : list string :=
  if notNonEmptyString (get drink "id") then [msg_id_required index]
  else
    match get drink "id" with
    | Some (JStr id) =>
        (if includes seen id then [msg_duplicate index id] else [])
        ++ (if testSnakeCase id then [] else [msg_format index id])
    | _ => []
    end.

(** The callback, for one element. *)
Definition entryErrors (seen : list string) (drink : json) (index : nat)
  : list string :=
  if notAnObject drink then [msg_not_object index]
  else idErrors seen drink index
       ++ map (msg_labelled index (labelOf drink)) (fieldErrors drink).

Definition entryWarnings (drink : json) (index : nat) : list string :=
  if notAnObject drink then []
  else map (msg_labelled index (labelOf drink)) (fieldWarnings drink).

(** The first loop, from [index] on. *)
Fixpoint loopErrors (seen : list string) (drinks : list json) (index : nat)
  : list string :=
  match drinks with
  | [] => []
  | drink :: rest =>
      entryErrors seen drink index
      ++ loopErrors (addSeen seen drink) rest (S index)
  end.

Fixpoint loopWarnings (drinks : list json) (index : nat) : list string :=
  match drinks with
  | [] => []
  | drink :: rest => entryWarnings drink index ++ loopWarnings rest (S index)
  end.

(** The id of an entry as the file messages print it. *)
Definition idTextOf (id : json) : string :=
  match toString numberToString id with
  | Returned text => text
  | Thrown _ => EmptyString
  end.

(** The second loop, for one element: the main image, then the variants
    in enumeration order. *)
Definition variantFileErrors (fileExists : string -> bool) (id : json)
    (entry : string * json) : list string :=
  match snd entry with
  | JStr imagePath =>
      if fileExists imagePath then []
      else [msg_variant_missing imagePath (fst entry) (idTextOf id)]
  | _ => []
  end.

Definition imageFileErrors (fileExists : string -> bool) (drink : json)
  : list string :=
  match get drink "id", get drink "imagePath" with
  | Some id, Some (JStr imagePath) =>
      if truthy (Some id) && truthy (Some (JStr imagePath)) then
        (if fileExists imagePath then []
         else [msg_image_missing imagePath (idTextOf id)])
        ++ match get drink "imageVariants" with
           | Some variants =>
               if truthy (Some variants)
               then flat_map (variantFileErrors fileExists id) (entries variants)
               else []
           | None => []
           end
      else []
  | _, _ => []
  end.

(** The flags check. *)
Definition flagsErrors (flagsFile : option file_content) : list string :=
  match flagsFile with
  | None => []
  | Some (ParseError message) => ["Failed to parse flags.json: " +++ message]
  | Some (Parsed flags) =>
      if notAnObject flags then ["flags.json must be a JSON object"]
      else
        (if hasProperty flags "forceTextOnly"
            && negb (String.eqb (typeof (get flags "forceTextOnly")) "boolean")
         then ["flags.json: forceTextOnly must be a boolean"] else [])
        ++ (if hasProperty flags "catalogVersion"
               && negb (String.eqb (typeof (get flags "catalogVersion")) "string")
            then ["flags.json: catalogVersion must be a string"] else [])
  end.

(** * Vocabulary of the statements *)

(** ** Messages *)

(** [m] ends with [tail]. *)
Definition hasSuffix (m tail : string) : Prop := exists a, m = a +++ tail.

(** A decimal digit. *)
Definition isDigit (c : ascii) : bool := inRange "0" "9" c.

(** The first character of a string, when it has one, is not a digit. *)
Definition startsNonDigit (t : string) : bool :=
  match t with
  | EmptyString => true
  | String c _ => negb (isDigit c)
  end.

(** A message that opens with the prefix of entry [index]. *)
Definition fromIndex (index : nat) (msg : string) : Prop :=
  exists t, startsNonDigit t = true /\ msg = drinkPrefix index +++ t.

(** The fixed endings of the two texts that name a variant key. *)
Definition tail_variant_string : string := " must be a non-empty string".

Definition tail_variant_prefix : string :=
  " must start with " +++ dquote +++ "drinks/_thumbs/" +++ dquote.

(** A file-not-found message of the image file check. *)
Definition isFileNotFound (msg : string) : bool :=
  startsWith msg "Image file not found: "
  || startsWith msg "Image variant file not found: ".

(** Some character of [s] satisfies [p]. *)
Fixpoint anyChar (p : ascii -> bool) (s : string) : bool :=
  match s with
  | EmptyString => false
  | String c r => p c || anyChar p r
  end.

(** An uppercase letter, a space or a hyphen. *)
Definition isUpperSpaceOrHyphen (c : ascii) : bool :=
  inRange "A" "Z" c || Ascii.eqb c " " || Ascii.eqb c "-".

(** ** Relations between the states of a run *)

(** [m] respects the relation [R]: whenever it returns, the states before
    and after are related. *)
Definition respects (R : vstate -> vstate -> Prop) {A : Type} (m : M A)
  : Prop :=
  forall st a st', m st = Returned (a, st') -> R st st'.

(** The labelled messages a text can give rise to, for one entry, all
    satisfy [P]. *)
Definition labelled (drink : json) (index : nat) (P : string -> Prop)
    (text : string) : Prop :=
  forall label, drinkLabel drink = Returned label ->
                P (msg_labelled index label text).

(** [m] returns from every state. *)
Definition returns {A : Type} (m : M A) : Prop :=
  forall st, exists a st', m st = Returned (a, st').

(** The flag and the error list of a result agree. *)
Definition consistent (r : ValidationResult) : Prop :=
  success r = true <-> errors r = [].

(** A step keeps the flag and the error list in agreement. *)
Definition keepsConsistent (st st' : vstate) : Prop :=
  consistent (result st) -> consistent (result st').

(** [st'] has the errors of [st] followed by errors that satisfy [Pe]. *)
Definition pushes (Pe : string -> Prop) (st st' : vstate) : Prop :=
  exists es, errors (result st') = errors (result st) ++ es /\ Forall Pe es.

(** Errors are only ever appended. *)
Definition grows : vstate -> vstate -> Prop := pushes (fun _ => True).

(** [st'] has the warnings of [st] followed by warnings that satisfy [Pw]. *)
Definition pushesW (Pw : string -> Prop) (st st' : vstate) : Prop :=
  exists ws, warnings (result st') = warnings (result st) ++ ws /\ Forall Pw ws.

(** The rules after the id rule leave [seenIds] alone. *)
Definition sameSeen (st st' : vstate) : Prop := seenIds st' = seenIds st.

(** The warnings of [st'] are those of [st]. *)
Definition sameWarnings (st st' : vstate) : Prop :=
  warnings (result st') = warnings (result st).

(** [st'] is [st] with the errors [es] and the warnings [ws] appended. *)
Definition pushed (es ws : list string) (st st' : vstate) : Prop :=
  errors (result st') = errors (result st) ++ es
  /\ warnings (result st') = warnings (result st) ++ ws.

(** A rule pushed, for the entry [drink], the labelled messages of the
    texts [ts] (errors) and [ws] (warnings), and could print the label it
    needed for them. *)
Definition pushedLabelled (drink : json) (index : nat) (ts ws : list string)
    (st st' : vstate) : Prop :=
  pushed (map (msg_labelled index (labelOf drink)) ts)
         (map (msg_labelled index (labelOf drink)) ws) st st'
  /\ Forall (fun _ => printable drink) (ts ++ ws).

(** [st] with another list of warnings. *)
Definition withWarnings (ws : list string) (st : vstate) : vstate :=
  {| result := {| success := success (result st);
                  errors := errors (result st);
                  warnings := ws |};
     seenIds := seenIds st |}.

(** ** Sample entries *)

(** Number formatting used by the examples; none of them prints a number. *)
Definition sampleNumberToString (x : float) : string := "0".

(** The variants of the image [drinks/margarita.png], with the paths the
    script expects ... *)
Definition goodVariants : json :=
  JObj [("sm", JStr "drinks/_thumbs/margarita_512.png");
        ("md", JStr "drinks/_thumbs/margarita_1024.png")].

(** ... and with another path under [sm]. *)
Definition badVariants : json :=
  JObj [("sm", JStr "drinks/_thumbs/marg_512.png");
        ("md", JStr "drinks/_thumbs/margarita_1024.png")].

(** The fields of a well-formed entry, imageVariants apart. *)
Definition margaritaFields : list (string * json) :=
  [("id", JStr "margarita"); ("name", JStr "Margarita");
   ("category", JStr "Classic"); ("popularity", JNum 98);
   ("imagePath", JStr "drinks/margarita.png")].

(** The well-formed entry, and the entry with the other [sm] path. *)
Definition margarita : json :=
  JObj (("imageVariants", goodVariants) :: margaritaFields).

Definition margaritaMismatch : json :=
  JObj (("imageVariants", badVariants) :: margaritaFields).

(** [margarita] with one more field in front. *)
Definition margaritaWith (k : string) (v : json) : json :=
  JObj ((k, v) :: ("imageVariants", goodVariants) :: margaritaFields).

(** [fields] with the value under [k] replaced by [v]; [k] is added last
    when [fields] does not have it. *)
Fixpoint setField (k : string) (v : json) (fields : list (string * json))
  : list (string * json) :=
  match fields with
  | [] => [(k, v)]
  | (k', v') :: rest =>
      if String.eqb k' k then (k, v) :: rest
      else (k', v') :: setField k v rest
  end.

(** The well-formed entry with one field changed. *)
Definition margaritaBut (k : string) (v : json) : json :=
  JObj (setField k v (("imageVariants", goodVariants) :: margaritaFields)).

(** A world with the given catalog and toggle, no flags file and no image
    on disk. *)
Definition worldOf (drinks : list json) (toggle : option string) : World :=
  {| catalogFile := Some (Parsed (JArr drinks));
     flagsFile := None;
     VALIDATE_IMAGE_FILES := toggle;
     existsSync := fun _ => false |}.

(** The modifiersSupported rule of the richer revision of the script, the
    one that declares [modifiersSupported?: boolean | string[]]:
    [typeof ms !== 'undefined'], then
    [typeof ms !== 'boolean' && !(Array.isArray(ms) && ms.every(...))]. *)
Definition modifiersSupportedRejected_richer (ms : value) : bool :=
  negb (String.eqb (typeof ms) "undefined")
  && (negb (String.eqb (typeof ms) "boolean")
      && negb (isArray ms
               && match ms with
                  | Some (JArr l) => everyString l
                  | _ => false
                  end)).

(** * Facts about strings and messages *)

Lemma append_assoc (a b c : string) : (a +++ b) +++ c = a +++ (b +++ c).
Proof. induction a as [|x a IH]; cbn; [reflexivity|rewrite IH; reflexivity]. Qed.

Lemma append_inv_head (a x y : string) : a +++ x = a +++ y -> x = y.
Proof.
  induction a as [|c a IH]; cbn; intros H; [exact H|].
  injection H as H. apply IH, H.
Qed.

(** Two ways of cutting one string: one cut point is before the other. *)
Lemma append_eq_split (a1 t1 a2 t2 : string) :
  a1 +++ t1 = a2 +++ t2 ->
  (exists c, a2 = a1 +++ c /\ t1 = c +++ t2) \/
  (exists c, a1 = a2 +++ c /\ t2 = c +++ t1).
Proof.
  revert a2. induction a1 as [|x a1 IH]; intros a2 H.
  - left. exists a2. split; [reflexivity|exact H].
  - destruct a2 as [|y a2].
    + right. exists (String x a1). split; [reflexivity|]. symmetry. exact H.
    + cbn in H. injection H as -> H. destruct (IH _ H) as [(c & -> & ->)|(c & -> & ->)].
      * left. exists c. split; reflexivity.
      * right. exists c. split; reflexivity.
Qed.

Lemma endsWith_append (c t : string) : endsWith (c +++ t) t = true.
Proof.
  induction c as [|x c IH].
  - cbn [String.append]. destruct t; [reflexivity|].
    cbn [endsWith]. rewrite String.eqb_refl. reflexivity.
  - cbn [String.append endsWith]. rewrite IH. apply orb_true_r.
Qed.

Lemma hasSuffix_refl (t : string) : hasSuffix t t.
Proof. exists EmptyString. reflexivity. Qed.

Lemma hasSuffix_append (a m t : string) : hasSuffix m t -> hasSuffix (a +++ m) t.
Proof. intros [b ->]. exists (a +++ b). symmetry. apply append_assoc. Qed.

(** Two suffixes of one string: one ends with the other. *)
Lemma hasSuffix_clash (m t1 t2 : string) :
  hasSuffix m t1 -> hasSuffix m t2 ->
  endsWith t1 t2 || endsWith t2 t1 = true.
Proof.
  intros [a1 ->] [a2 H].
  destruct (append_eq_split _ _ _ _ H) as [(c & _ & ->)|(c & _ & ->)].
  - rewrite endsWith_append. reflexivity.
  - rewrite endsWith_append. apply orb_true_r.
Qed.

Lemma string_of_uint_digits (d : uint) :
  allChars isDigit (NilEmpty.string_of_uint d) = true.
Proof. induction d; cbn; try rewrite IHd; reflexivity. Qed.

Lemma string_of_nat_digits (n : nat) : allChars isDigit (string_of_nat n) = true.
Proof. apply string_of_uint_digits. Qed.

Lemma string_of_nat_inj (n k : nat) : string_of_nat n = string_of_nat k -> n = k.
Proof.
  unfold string_of_nat. intros H.
  apply DecimalNat.Unsigned.to_uint_inj.
  assert (E : Some (Nat.to_uint n) = Some (Nat.to_uint k)).
  { rewrite <- !NilEmpty.usu. rewrite H. reflexivity. }
  injection E as E. exact E.
Qed.

Lemma digits_then_nondigit (a1 t1 a2 t2 : string) :
  allChars isDigit a1 = true -> allChars isDigit a2 = true ->
  startsNonDigit t1 = true -> startsNonDigit t2 = true ->
  a1 +++ t1 = a2 +++ t2 -> a1 = a2 /\ t1 = t2.
Proof.
  revert a2. induction a1 as [|x a1 IH]; intros a2 D1 D2 N1 N2 H.
  - destruct a2 as [|y a2]; [split; [reflexivity|exact H]|].
    cbn in H. subst t1. cbn in N1, D2.
    apply andb_true_iff in D2 as [D2 _]. rewrite D2 in N1. discriminate.
  - destruct a2 as [|y a2].
    + cbn in H. subst t2. cbn in N2, D1.
      apply andb_true_iff in D1 as [D1 _]. rewrite D1 in N2. discriminate.
    + cbn in H. injection H as -> H. cbn in D1, D2.
      apply andb_true_iff in D1 as [_ D1]. apply andb_true_iff in D2 as [_ D2].
      destruct (IH a2 D1 D2 N1 N2 H) as [-> ->]. split; reflexivity.
Qed.

(** Messages that start with the prefix of an entry name their index. *)
Lemma drinkPrefix_inj (i k : nat) (t1 t2 : string) :
  startsNonDigit t1 = true -> startsNonDigit t2 = true ->
  drinkPrefix i +++ t1 = drinkPrefix k +++ t2 -> i = k /\ t1 = t2.
Proof.
  intros N1 N2 H. unfold drinkPrefix in H. rewrite !append_assoc in H.
  apply append_inv_head in H.
  apply digits_then_nondigit in H as [E ->];
    try apply string_of_nat_digits; try assumption.
  split; [apply string_of_nat_inj, E|reflexivity].
Qed.

Lemma length_append (a b : string) :
  String.length (a +++ b) = String.length a + String.length b.
Proof. induction a as [|x a IH]; cbn; [reflexivity|rewrite IH; reflexivity]. Qed.

Lemma append_inv_tail (a b c : string) : a +++ c = b +++ c -> a = b.
Proof.
  revert b. induction a as [|x a IH]; intros b H.
  - destruct b as [|y b]; [reflexivity|].
    apply (f_equal String.length) in H. rewrite !length_append in H.
    cbn in H. lia.
  - destruct b as [|y b].
    + apply (f_equal String.length) in H. rewrite !length_append in H.
      cbn in H. lia.
    + cbn in H. injection H as -> H. f_equal. apply IH, H.
Qed.

Lemma fromIndex_inj (i k : nat) (msg : string) :
  fromIndex i msg -> fromIndex k msg -> i = k.
Proof.
  intros (t1 & N1 & ->) (t2 & N2 & H).
  apply drinkPrefix_inj in H as [E _]; assumption.
Qed.

Lemma fromIndex_first (i : nat) (msg : string) :
  fromIndex i msg -> String.get 0 msg = Some "D"%char.
Proof. intros (t & _ & ->). reflexivity. Qed.

Lemma fromIndex_not_object i : fromIndex i (msg_not_object i).
Proof. eexists. split; [|reflexivity]. reflexivity. Qed.

Lemma fromIndex_id_required i : fromIndex i (msg_id_required i).
Proof. eexists. split; [|reflexivity]. reflexivity. Qed.

Lemma fromIndex_duplicate i id : fromIndex i (msg_duplicate i id).
Proof. eexists. split; [|reflexivity]. reflexivity. Qed.

Lemma fromIndex_format i id : fromIndex i (msg_format i id).
Proof. eexists. split; [|reflexivity]. reflexivity. Qed.

Lemma fromIndex_labelled i label text : fromIndex i (msg_labelled i label text).
Proof. eexists. split; [|reflexivity]. reflexivity. Qed.

Lemma hasSuffix_labelled i label text tail :
  hasSuffix text tail -> hasSuffix (msg_labelled i label text) tail.
Proof.
  intros H. unfold msg_labelled.
  repeat apply hasSuffix_append. exact H.
Qed.

(** * Reasoning about runs *)

Lemma bind_Returned {A B : Type} (m : M A) (k : A -> M B) st b st' :
  bind m k st = Returned (b, st') ->
  exists a s, m st = Returned (a, s) /\ k a s = Returned (b, st').
Proof.
  unfold bind. destruct (m st) as [[a s]|e]; [|discriminate].
  intros H. exists a, s. split; [reflexivity|exact H].
Qed.

Lemma liftOutcome_Returned {A : Type} (o : outcome A) st a st' :
  liftOutcome o st = Returned (a, st') -> o = Returned a /\ st' = st.
Proof.
  destruct o as [x|e]; cbn; [|discriminate].
  intros H. injection H as -> ->. split; reflexivity.
Qed.

Lemma forEach_app {A : Type} (f : A -> nat -> M unit) (l1 l2 : list A) n st :
  forEach f (l1 ++ l2) n st =
  bind (forEach f l1 n) (fun _ => forEach f l2 (n + length l1)) st.
Proof.
  revert n st. induction l1 as [|x l1 IH]; intros n st; cbn.
  - unfold bind, ret. rewrite Nat.add_0_r. reflexivity.
  - unfold bind in *. destruct (f x n st) as [[[] s]|e]; [|reflexivity].
    rewrite IH. replace (S n + length l1) with (n + S (length l1)) by lia.
    reflexivity.
Qed.

(** ** Relations every step of a run respects *)

Section Respects.

Variable R : vstate -> vstate -> Prop.
Hypothesis R_refl : forall st, R st st.
Hypothesis R_trans : forall a b c, R a b -> R b c -> R a c.

Lemma respects_ret {A : Type} (a : A) : respects R (ret a).
Proof. intros st x st' H. injection H as _ <-. apply R_refl. Qed.

Lemma respects_throw {A : Type} (e : exn) : respects R (@throw A e).
Proof. intros st x st' H. discriminate H. Qed.

Lemma respects_liftOutcome {A : Type} (o : outcome A) :
  respects R (liftOutcome o).
Proof.
  intros st x st' H. apply liftOutcome_Returned in H as [_ ->]. apply R_refl.
Qed.

Lemma respects_bind {A B : Type} (m : M A) (k : A -> M B) :
  respects R m -> (forall a, respects R (k a)) -> respects R (bind m k).
Proof.
  intros Hm Hk st b st' H.
  apply bind_Returned in H as (a & s & H1 & H2).
  eapply R_trans; [eapply Hm, H1 | eapply Hk, H2].
Qed.

Lemma respects_when (b : bool) (m : M unit) :
  (b = true -> respects R m) -> respects R (when b m).
Proof.
  destruct b; cbn; intros H; [apply H; reflexivity | apply respects_ret].
Qed.

Lemma respects_forEach {A : Type} (f : A -> nat -> M unit) (l : list A) :
  forall n, (forall x k, In x l -> respects R (f x k)) -> respects R (forEach f l n).
Proof.
  induction l as [|x l IH]; intros n Hf; cbn.
  - apply respects_ret.
  - apply respects_bind.
    + apply Hf. left. reflexivity.
    + intros _. apply IH. intros y k Hy. apply Hf. right. exact Hy.
Qed.

Lemma respects_seenIds_has (id : string) : respects R (seenIds_has id).
Proof. intros st x st' H. injection H as _ <-. apply R_refl. Qed.

End Respects.

(** Conclude [R st st'] from the run [H : m st = Returned (a, st')] by
    showing that [m] respects [R]. *)
Ltac by_respects H :=
  match type of H with
  | ?m ?st = Returned (?a, ?st') =>
      match goal with
      | |- ?Rel st st' =>
          let Hr := fresh "Hr" in
          assert (Hr : respects Rel m); [|exact (Hr st a st' H)]
      end
  end.

(** ** The rules, generically

    [R] is a preorder on states that pushing an error satisfying [Pe] and
    pushing a warning satisfying [Pw] respect.  Each rule then respects [R]
    as soon as the messages it can push, under the conditions it pushes
    them, satisfy [Pe] and [Pw]. *)

Section Rules.

Variable R : vstate -> vstate -> Prop.
Hypothesis R_refl : forall st, R st st.
Hypothesis R_trans : forall a b c, R a b -> R b c -> R a c.

Variables Pe Pw : string -> Prop.
Hypothesis R_error : forall msg, Pe msg -> respects R (reportError msg).
Hypothesis R_warning : forall msg, Pw msg -> respects R (warnings_push msg).

Variable drink : json.
Variable index : nat.

Lemma respects_reportLabelled text :
  labelled drink index Pe text -> respects R (reportLabelled drink index text).
Proof.
  intros H st a st' Hrun. unfold reportLabelled in Hrun.
  apply bind_Returned in Hrun as (l & s & H1 & H2).
  apply liftOutcome_Returned in H1 as [Hl ->].
  eapply R_error; [apply H, Hl | exact H2].
Qed.

Lemma respects_warnLabelled text :
  labelled drink index Pw text -> respects R (warnLabelled drink index text).
Proof.
  intros H st a st' Hrun. unfold warnLabelled in Hrun.
  apply bind_Returned in Hrun as (l & s & H1 & H2).
  apply liftOutcome_Returned in H1 as [Hl ->].
  eapply R_warning; [apply H, Hl | exact H2].
Qed.

Lemma respects_validateName :
  (notNonEmptyString (get drink "name") = true -> labelled drink index Pe text_name) ->
  respects R (validateName drink index).
Proof.
  intros H. apply respects_when; [exact R_refl|].
  intros Hc. apply respects_reportLabelled, H, Hc.
Qed.

Lemma respects_validateCategory :
  (negb (truthy (get drink "category"))
   || negb (String.eqb (typeof (get drink "category")) "string") = true ->
   labelled drink index Pe text_category) ->
  respects R (validateCategory drink index).
Proof.
  intros H. apply respects_when; [exact R_refl|].
  intros Hc. apply respects_reportLabelled, H, Hc.
Qed.

Lemma respects_validatePopularity :
  (popularityOutOfRange (get drink "popularity") = true ->
   labelled drink index Pe text_popularity) ->
  respects R (validatePopularity drink index).
Proof.
  intros H. apply respects_when; [exact R_refl|].
  intros Hc. apply respects_reportLabelled, H, Hc.
Qed.

Lemma respects_validateAliases :
  (truthy (get drink "aliases") = true ->
   notArrayOfStrings (get drink "aliases") = true ->
   labelled drink index Pe text_aliases) ->
  respects R (validateAliases drink index).
Proof.
  intros H. apply respects_when; [exact R_refl|]. intros Ht.
  apply respects_when; [exact R_refl|]. intros Hc.
  apply respects_reportLabelled, H; assumption.
Qed.

Lemma respects_validateModifiersSupported :
  (truthy (get drink "modifiersSupported") = true ->
   notArrayOfStrings (get drink "modifiersSupported") = true ->
   labelled drink index Pe text_modifiers) ->
  respects R (validateModifiersSupported drink index).
Proof.
  intros H. apply respects_when; [exact R_refl|]. intros Ht.
  apply respects_when; [exact R_refl|]. intros Hc.
  apply respects_reportLabelled, H; assumption.
Qed.

Lemma respects_validateImagePath :
  (negb (truthy (get drink "imagePath"))
   || negb (String.eqb (typeof (get drink "imagePath")) "string") = true ->
   labelled drink index Pe text_imagePath) ->
  (forall p, get drink "imagePath" = Some (JStr p) ->
             startsWith p "drinks/" = false ->
             labelled drink index Pe text_imagePath_prefix) ->
  (forall p, get drink "imagePath" = Some (JStr p) ->
             testPngExtension p = false ->
             labelled drink index Pw text_imagePath_png) ->
  respects R (validateImagePath drink index).
Proof.
  intros H1 H2 H3. unfold validateImagePath.
  destruct (negb (truthy (get drink "imagePath"))
            || negb (String.eqb (typeof (get drink "imagePath")) "string")) eqn:Hc.
  - apply respects_reportLabelled, H1. reflexivity.
  - destruct (get drink "imagePath") as [[ | | |p| | ]|] eqn:Hp;
      try (apply respects_ret; exact R_refl).
    apply respects_bind; [exact R_trans| |intros _].
    + apply respects_when; [exact R_refl|]. intros Hs.
      apply respects_reportLabelled. eapply H2; [reflexivity|].
      apply negb_true_iff, Hs.
    + apply respects_when; [exact R_refl|]. intros Hs.
      apply respects_warnLabelled. eapply H3; [reflexivity|].
      apply negb_true_iff, Hs.
Qed.

Lemma respects_validateVariant variants variantKey :
  ((forall p, get variants variantKey = Some (JStr p) ->
              String.eqb (trim p) "" = true) ->
   labelled drink index Pe (text_variant_string variantKey)) ->
  (forall p, get variants variantKey = Some (JStr p) ->
             String.eqb (trim p) "" = false ->
             startsWith p "drinks/_thumbs/" = false ->
             labelled drink index Pe (text_variant_prefix variantKey)) ->
  respects R (validateVariant drink variants index variantKey).
Proof.
  intros H1 H2. unfold validateVariant.
  destruct (get variants variantKey) as [[ | | |p| | ]|] eqn:Hp;
    try (apply respects_reportLabelled, H1; intros q Hq; discriminate Hq).
  destruct (String.eqb (trim p) "") eqn:Ht.
  - apply respects_reportLabelled, H1. intros q Hq.
    injection Hq as <-. exact Ht.
  - apply respects_when; [exact R_refl|]. intros Hs.
    apply respects_reportLabelled. eapply H2; [reflexivity|exact Ht|].
    apply negb_true_iff, Hs.
Qed.

Lemma respects_checkExpected variantKey v expected :
  (truthy v = true -> strictEqStr v expected = false ->
   labelled drink index Pw (text_should_be variantKey expected)) ->
  respects R (checkExpected drink index variantKey v expected).
Proof.
  intros H. apply respects_when; [exact R_refl|]. intros Hc.
  apply andb_true_iff in Hc as [Ht Hn]. apply negb_true_iff in Hn.
  apply respects_warnLabelled, H; assumption.
Qed.

Lemma respects_validateImageVariants :
  (negb (truthy (get drink "imageVariants"))
   || negb (String.eqb (typeof (get drink "imageVariants")) "object") = true ->
   labelled drink index Pe text_variants_object) ->
  (forall variants, get drink "imageVariants" = Some variants ->
     keys variants = [] -> labelled drink index Pe text_variants_empty) ->
  (forall variants, get drink "imageVariants" = Some variants ->
     negb (includes (keys variants) "sm" && includes (keys variants) "md")
     && negb (includes (keys variants) "512" && includes (keys variants) "1024")
     = true ->
     labelled drink index Pw text_variants_keys) ->
  (forall variants variantKey,
     get drink "imageVariants" = Some variants ->
     In variantKey (keys variants) ->
     (forall p, get variants variantKey = Some (JStr p) ->
                String.eqb (trim p) "" = true) ->
     labelled drink index Pe (text_variant_string variantKey)) ->
  (forall variants variantKey p,
     get drink "imageVariants" = Some variants ->
     In variantKey (keys variants) ->
     get variants variantKey = Some (JStr p) ->
     String.eqb (trim p) "" = false ->
     startsWith p "drinks/_thumbs/" = false ->
     labelled drink index Pe (text_variant_prefix variantKey)) ->
  (forall variants imagePath variantKey expected,
     get drink "imageVariants" = Some variants ->
     get drink "imagePath" = Some (JStr imagePath) ->
     In (variantKey, expected)
        [("sm", expected512 imagePath); ("md", expected1024 imagePath);
         ("512", expected512 imagePath); ("1024", expected1024 imagePath)] ->
     truthy (get variants variantKey) = true ->
     strictEqStr (get variants variantKey) expected = false ->
     labelled drink index Pw (text_should_be variantKey expected)) ->
  respects R (validateImageVariants drink index).
Proof.
  intros H1 H2 H3 H4 H5 H6. unfold validateImageVariants.
  destruct (negb (truthy (get drink "imageVariants"))
            || negb (String.eqb (typeof (get drink "imageVariants")) "object"))
    eqn:Hc.
  - apply respects_reportLabelled, H1. reflexivity.
  - destruct (get drink "imageVariants") as [variants|] eqn:Hv;
      [|apply respects_ret; exact R_refl].
    apply respects_bind; [exact R_trans| |intros _].
    { apply respects_when; [exact R_refl|]. intros Hk.
      apply respects_reportLabelled. eapply H2; [reflexivity|].
      apply Nat.eqb_eq in Hk. destruct (keys variants); [reflexivity|discriminate]. }
    apply respects_bind; [exact R_trans| |intros _].
    { apply respects_when; [exact R_refl|]. intros Hk.
      apply respects_warnLabelled. eapply H3; [reflexivity|exact Hk]. }
    apply respects_bind; [exact R_trans| |intros _].
    { apply respects_forEach; [exact R_refl|exact R_trans|].
      intros k _ Hin. apply respects_validateVariant.
      - intros Hp. eapply H4; [reflexivity|exact Hin|exact Hp].
      - intros p Hp Ht Hs. eapply H5; [reflexivity|exact Hin|exact Hp|exact Ht|exact Hs]. }
    unfold path_extname, path_basename.
    destruct (get drink "imagePath") as [[ | | |p| | ]|] eqn:Hp;
      try (intros st a st' Hrun; discriminate Hrun).
    intros st a st' Hrun.
    apply bind_Returned in Hrun as (ext & s & He & Hrun).
    injection He as <- <-.
    apply bind_Returned in Hrun as (base & s & Hb & Hrun).
    injection Hb as <- <-. revert st a st' Hrun.
    change (respects R
      (checkExpected drink index "sm" (get variants "sm") (expected512 p) ;;
       checkExpected drink index "md" (get variants "md") (expected1024 p) ;;
       checkExpected drink index "512" (get variants "512") (expected512 p) ;;
       checkExpected drink index "1024" (get variants "1024") (expected1024 p))).
    repeat (apply respects_bind; [exact R_trans| |intros _]);
      apply respects_checkExpected; intros Ht Hn;
      (eapply H6; [reflexivity|reflexivity| |exact Ht|exact Hn]); cbn; auto.
Qed.


Hypothesis R_add : forall id, respects R (seenIds_add id).

Lemma respects_validateId :
  (notNonEmptyString (get drink "id") = true -> Pe (msg_id_required index)) ->
  (forall id, get drink "id" = Some (JStr id) ->
              notNonEmptyString (get drink "id") = false ->
              Pe (msg_duplicate index id)) ->
  (forall id, get drink "id" = Some (JStr id) ->
              notNonEmptyString (get drink "id") = false ->
              testSnakeCase id = false -> Pe (msg_format index id)) ->
  respects R (validateId drink index).
Proof.
  intros H1 H2 H3. unfold validateId.
  destruct (notNonEmptyString (get drink "id")) eqn:Hc.
  - apply R_error, H1. reflexivity.
  - destruct (get drink "id") as [[ | | |id| | ]|] eqn:Hid;
      try (apply respects_ret; exact R_refl).
    apply respects_bind; [exact R_trans| |intros _].
    + apply respects_bind; [exact R_trans|apply respects_seenIds_has, R_refl|].
      intros [|]; [apply R_error, H2; reflexivity|apply R_add].
    + apply respects_when; [exact R_refl|]. intros Hs.
      apply R_error, H3; [reflexivity|reflexivity|].
      apply negb_true_iff, Hs.
Qed.

Lemma respects_fieldRules :
  (forall text, field_error drink text -> labelled drink index Pe text) ->
  (forall text, field_warning drink text -> labelled drink index Pw text) ->
  respects R (fieldRules drink index).
Proof.
  intros He Hw. unfold fieldRules.
  repeat (apply respects_bind; [exact R_trans| |intros _]).
  - apply respects_validateName. intros H. apply He. constructor; exact H.
  - apply respects_validateCategory. intros H. apply He, fe_category, H.
  - apply respects_validatePopularity. intros H. apply He, fe_popularity, H.
  - apply respects_validateAliases. intros H1 H2. apply He, fe_aliases; assumption.
  - apply respects_validateImagePath.
    + intros H. apply He, fe_imagePath, H.
    + intros p H1 H2. apply He. eapply fe_imagePath_prefix; eassumption.
    + intros p H1 H2. apply Hw. eapply fw_png; eassumption.
  - apply respects_validateImageVariants.
    + intros H. apply He, fe_variants_object, H.
    + intros v H1 H2. apply He. eapply fe_variants_empty; eassumption.
    + intros v H1 H2. apply Hw. eapply fw_keys; eassumption.
    + intros v k H1 H2 H3. apply He. eapply fe_variant_string; eassumption.
    + intros v k p H1 H2 H3 H4 H5. apply He.
      eapply fe_variant_prefix; eassumption.
    + intros v p k e H1 H2 H3 H4 H5. apply Hw.
      eapply fw_should_be; eassumption.
  - apply respects_validateModifiersSupported.
    intros H1 H2. apply He, fe_modifiers; assumption.
Qed.

Lemma validateDrink_object :
  notAnObject drink = false ->
  validateDrink drink index = (validateId drink index ;; fieldRules drink index).
Proof. intros H. unfold validateDrink. rewrite H. reflexivity. Qed.

Lemma validateDrink_not_object :
  notAnObject drink = true ->
  validateDrink drink index = reportError (msg_not_object index).
Proof. intros H. unfold validateDrink. rewrite H. reflexivity. Qed.

Lemma respects_validateDrink :
  (forall seen msg, entry_error seen drink index msg -> Pe msg) ->
  (forall msg, entry_warning drink index msg -> Pw msg) ->
  respects R (validateDrink drink index).
Proof.
  intros He Hw. destruct (notAnObject drink) eqn:Hobj.
  - rewrite validateDrink_not_object by exact Hobj.
    apply R_error. apply (He []). constructor. exact Hobj.
  - rewrite validateDrink_object by exact Hobj.
    apply respects_bind; [exact R_trans| |intros _].
    + apply respects_validateId.
      * intros H. apply (He []). apply ee_id_required; assumption.
      * intros id H1 H2. apply (He [id]). apply ee_duplicate; try assumption.
        cbn. rewrite String.eqb_refl. reflexivity.
      * intros id H1 H2 H3. apply (He []). apply ee_format; assumption.
    + apply respects_fieldRules.
      * intros text Ht label Hl. apply (He []). apply ee_field; assumption.
      * intros text Ht label Hl. apply Hw. constructor; assumption.
Qed.

End Rules.

(** ** The whole run, generically *)

Section Run.

Variable R : vstate -> vstate -> Prop.
Hypothesis R_refl : forall st, R st st.
Hypothesis R_trans : forall a b c, R a b -> R b c -> R a c.

Variables Pe Pw : string -> Prop.
Hypothesis R_error : forall msg, Pe msg -> respects R (reportError msg).
Hypothesis R_warning : forall msg, Pw msg -> respects R (warnings_push msg).
Hypothesis R_add : forall id, respects R (seenIds_add id).

Lemma respects_forEach_indexed {A : Type} (f : A -> nat -> M unit)
    (l : list A) :
  forall n,
    (forall k x, nth_error l k = Some x -> respects R (f x (n + k))) ->
    respects R (forEach f l n).
Proof.
  induction l as [|x l IH]; intros n Hf; cbn.
  - apply respects_ret, R_refl.
  - apply respects_bind; [exact R_trans| |intros _].
    + specialize (Hf 0 x eq_refl). rewrite Nat.add_0_r in Hf. exact Hf.
    + apply IH. intros k y Hy. specialize (Hf (S k) y Hy).
      replace (S n + k) with (n + S k) by lia. exact Hf.
Qed.

Lemma respects_checkVariantFile fileExists id entry :
  (forall imagePath idText,
     snd entry = JStr imagePath -> fileExists imagePath = false ->
     toString numberToString id = Returned idText ->
     Pe (msg_variant_missing imagePath (fst entry) idText)) ->
  respects R (checkVariantFile fileExists id entry).
Proof.
  intros H. destruct entry as [variant v]. unfold checkVariantFile, path_join.
  destruct v as [ | | |p| | ];
    try (intros st a st' Hrun; discriminate Hrun).
  intros st a st' Hrun.
  apply bind_Returned in Hrun as (q & s & Hq & Hrun). injection Hq as <- <-.
  revert st a st' Hrun.
  apply respects_when; [exact R_refl|]. intros Hf. apply negb_true_iff in Hf.
  intros st a st' Hrun.
  apply bind_Returned in Hrun as (t & s & Ht & Hrun).
  apply liftOutcome_Returned in Ht as [Ht ->].
  eapply R_error; [|exact Hrun]. apply H; [reflexivity|exact Hf|exact Ht].
Qed.

Lemma respects_checkImageFilesOf fileExists drink :
  (forall msg, image_error fileExists drink msg -> Pe msg) ->
  respects R (checkImageFilesOf fileExists drink).
Proof.
  intros H st a st' Hrun. unfold checkImageFilesOf in Hrun.
  apply bind_Returned in Hrun as (id & s & Hid & Hrun).
  assert (Hm : forall k, member drink k = ret (get drink k)).
  { intros k. destruct drink; try reflexivity. discriminate Hid. }
  rewrite Hm in Hid. injection Hid as <- <-.
  destruct (truthy (get drink "id")) eqn:Htid; cbn [negb] in Hrun;
    [|injection Hrun as _ <-; apply R_refl].
  apply bind_Returned in Hrun as (ip & s & Hip & Hrun).
  rewrite Hm in Hip. injection Hip as <- <-.
  destruct (truthy (get drink "imagePath")) eqn:Htip; cbn [negb] in Hrun;
    [|injection Hrun as _ <-; apply R_refl].
  destruct (get drink "id") as [id|] eqn:Hgid; [|discriminate Htid].
  apply bind_Returned in Hrun as (p & s & Hp & Hrun).
  unfold path_join in Hp.
  destruct (get drink "imagePath") as [[ | | |q| | ]|] eqn:Hgip;
    try discriminate Hp.
  injection Hp as <- <-.
  apply bind_Returned in Hrun as ([] & s1 & Hmain & Hrun).
  apply bind_Returned in Hrun as (iv & s2 & Hiv & Hrun).
  rewrite Hm in Hiv. injection Hiv as <- <-.
  apply R_trans with s1.
  - by_respects Hmain.
    apply respects_when; [exact R_refl|]. intros Hf. apply negb_true_iff in Hf.
    intros st0 a0 st1 Hrun'.
    apply bind_Returned in Hrun' as (t & s & Ht & Hrun').
    apply liftOutcome_Returned in Ht as [Ht ->].
    eapply R_error; [|exact Hrun']. apply H.
    eapply ie_main; eauto.
  - destruct (get drink "imageVariants") as [variants|] eqn:Hgiv;
      [|injection Hrun as _ <-; apply R_refl].
    by_respects Hrun.
    apply respects_when; [exact R_refl|]. intros Htv.
    apply respects_forEach; [exact R_refl|exact R_trans|].
    intros [variant v] _ Hin. apply respects_checkVariantFile.
    cbn [fst snd]. intros p t -> Hf Ht. apply H.
    eapply ie_variant; eauto. rewrite Hgip. exact Htip.
Qed.

Lemma respects_validateFlags flags :
  (forall msg, flags_error flags msg -> Pe msg) ->
  respects R (validateFlags flags).
Proof.
  intros H. unfold validateFlags.
  destruct flags as [[message|parsed]|];
    [apply R_error, H; constructor| |apply respects_ret, R_refl].
  destruct (notAnObject parsed) eqn:Hobj.
  - apply R_error, H. constructor. exact Hobj.
  - apply respects_bind; [exact R_trans| |intros _];
      (apply respects_when; [exact R_refl|]); intros Hc;
      apply andb_true_iff in Hc as [H1 H2]; apply negb_true_iff in H2;
      apply R_error, H.
    + apply fl_forceTextOnly; assumption.
    + apply fl_catalogVersion; assumption.
Qed.

Variable w : World.

Lemma respects_validateCatalogBody :
  (catalogFile w = None -> Pe "drinks.json file not found") ->
  (forall message, catalogFile w = Some (ParseError message) ->
     Pe ("Failed to parse drinks.json: " +++ message)) ->
  (forall parsed, catalogFile w = Some (Parsed parsed) ->
     isArray (Some parsed) = false ->
     Pe "drinks.json must contain an array of drink entries") ->
  (forall drinks index drink seen msg,
     catalogFile w = Some (Parsed (JArr drinks)) ->
     nth_error drinks index = Some drink ->
     entry_error seen drink index msg -> Pe msg) ->
  (forall drinks index drink msg,
     catalogFile w = Some (Parsed (JArr drinks)) ->
     nth_error drinks index = Some drink ->
     entry_warning drink index msg -> Pw msg) ->
  (forall drinks drink msg,
     catalogFile w = Some (Parsed (JArr drinks)) ->
     checkImageFiles w = true ->
     In drink drinks ->
     image_error (existsSync w) drink msg -> Pe msg) ->
  (forall drinks msg,
     catalogFile w = Some (Parsed (JArr drinks)) ->
     flags_error (flagsFile w) msg -> Pe msg) ->
  respects R (validateCatalogBody w).
Proof.
  intros H1 H2 H3 H4 H5 H6 H7. unfold validateCatalogBody.
  destruct (catalogFile w) as [[message|parsed]|] eqn:Hc.
  - apply R_error, H2. reflexivity.
  - destruct parsed as [ | | | |drinks| ];
      try (apply R_error; eapply H3; reflexivity).
    apply respects_bind; [exact R_trans| |intros _].
    { apply respects_forEach_indexed. intros k d Hk. cbn [Nat.add].
      apply respects_validateDrink with (Pe := Pe) (Pw := Pw); try assumption.
      - intros seen msg Hm. eapply H4; [reflexivity|exact Hk|exact Hm].
      - intros msg Hm. eapply H5; [reflexivity|exact Hk|exact Hm]. }
    apply respects_bind; [exact R_trans| |intros _].
    { apply respects_when; [exact R_refl|]. intros Ht.
      apply respects_forEach; [exact R_refl|exact R_trans|].
      intros d _ Hin. apply respects_checkImageFilesOf.
      intros msg Hm. eapply H6; [reflexivity|exact Ht|exact Hin|exact Hm]. }
    apply respects_validateFlags. intros msg Hm. eapply H7; [reflexivity|exact Hm].
  - apply R_error, H1. reflexivity.
Qed.

End Run.

(** * The success flag *)

Lemma reportError_run msg st :
  reportError msg st =
  Returned (tt, {| result := {| success := false;
                                errors := errors (result st) ++ [msg];
                                warnings := warnings (result st) |};
                   seenIds := seenIds st |}).
Proof. reflexivity. Qed.

Lemma keepsConsistent_error msg : respects keepsConsistent (reportError msg).
Proof.
  intros st a st' H _. rewrite reportError_run in H. injection H as _ <-.
  unfold consistent. cbn. split; [discriminate|].
  intros E. destruct (errors (result st)); discriminate E.
Qed.

Lemma keepsConsistent_warning msg :
  respects keepsConsistent (warnings_push msg).
Proof. intros st a st' H Hc. injection H as _ <-. exact Hc. Qed.

Lemma keepsConsistent_add id : respects keepsConsistent (seenIds_add id).
Proof. intros st a st' H Hc. injection H as _ <-. exact Hc. Qed.

Lemma validateCatalog_Returned w r :
  validateCatalog w = Returned r ->
  exists st, validateCatalogBody w initialState = Returned (tt, st)
             /\ r = result st.
Proof.
  unfold validateCatalog.
  destruct (validateCatalogBody w initialState) as [[[] st]|e]; [|discriminate].
  intros H. injection H as <-. exists st. split; reflexivity.
Qed.

(** C1. Whatever the catalog file, the flags file and the toggle are, the
    result [validateCatalog] returns has [success = true] exactly when its
    error list is empty; the flag is a function of the error list alone, so
    the warnings have no part in it. *)
Theorem success_iff_no_errors (w : World) (r : ValidationResult) :
  validateCatalog w = Returned r ->
  (success r = true <-> errors r = [])
  /\ success r = match errors r with [] => true | _ :: _ => false end.
Proof.
  intros H. apply validateCatalog_Returned in H as (st & Hrun & ->).
  assert (Hc : consistent (result st)).
  { assert (Hr : respects keepsConsistent (validateCatalogBody w)).
    { apply respects_validateCatalogBody
        with (Pe := fun _ => True) (Pw := fun _ => True);
        try (intros; exact I).
      - intros st0 Hc. exact Hc.
      - intros a b c Hab Hbc Hc. apply Hbc, Hab, Hc.
      - intros msg _. apply keepsConsistent_error.
      - intros msg _. apply keepsConsistent_warning.
      - apply keepsConsistent_add. }
    apply (Hr _ _ _ Hrun). split; reflexivity. }
  split; [exact Hc|].
  destruct Hc as [H1 H2]. destruct (errors (result st)) as [|e es].
  - apply H2. reflexivity.
  - destruct (success (result st)); [|reflexivity].
    discriminate (H1 eq_refl).
Qed.

(** * Every reported error has a cause *)

Lemma pushes_refl Pe st : pushes Pe st st.
Proof. exists []. split; [symmetry; apply app_nil_r|constructor]. Qed.

Lemma pushes_trans Pe a b c : pushes Pe a b -> pushes Pe b c -> pushes Pe a c.
Proof.
  intros (e1 & E1 & F1) (e2 & E2 & F2). exists (e1 ++ e2). split.
  - rewrite E2, E1. symmetry. apply app_assoc.
  - apply Forall_app. split; assumption.
Qed.

Lemma pushes_weaken (Pe Qe : string -> Prop) st st' :
  (forall m, Pe m -> Qe m) -> pushes Pe st st' -> pushes Qe st st'.
Proof.
  intros H (es & E & F). exists es. split; [exact E|].
  eapply Forall_impl; [exact H|exact F].
Qed.

Lemma pushes_error Pe msg : Pe msg -> respects (pushes Pe) (reportError msg).
Proof.
  intros Hm st a st' H. rewrite reportError_run in H. injection H as _ <-.
  exists [msg]. split; [reflexivity|]. constructor; [exact Hm|constructor].
Qed.

Lemma pushes_warning Pe msg : respects (pushes Pe) (warnings_push msg).
Proof.
  intros st a st' H. injection H as _ <-. exists []. cbn.
  split; [symmetry; apply app_nil_r|constructor].
Qed.

Lemma pushes_add Pe id : respects (pushes Pe) (seenIds_add id).
Proof.
  intros st a st' H. injection H as _ <-. exists []. cbn.
  split; [symmetry; apply app_nil_r|constructor].
Qed.

Lemma pushes_In Pe st st' m :
  pushes Pe st st' -> In m (errors (result st')) ->
  In m (errors (result st)) \/ Pe m.
Proof.
  intros (es & E & F) Hin. rewrite E in Hin. apply in_app_or in Hin as [H|H].
  - left. exact H.
  - right. rewrite Forall_forall in F. apply F, H.
Qed.

Lemma pushes_keeps Pe st st' m :
  pushes Pe st st' -> In m (errors (result st)) -> In m (errors (result st')).
Proof. intros (es & E & _) Hin. rewrite E. apply in_or_app. left. exact Hin. Qed.

Lemma fieldRules_sameSeen drink index :
  respects sameSeen (fieldRules drink index).
Proof.
  apply respects_fieldRules with (Pe := fun _ => True) (Pw := fun _ => True);
    try (unfold labelled; intros; exact I).
  - intros st. reflexivity.
  - intros a b c Hab Hbc. unfold sameSeen in *. congruence.
  - intros msg _ st a st' H. rewrite reportError_run in H.
    injection H as _ <-. reflexivity.
  - intros msg _ st a st' H. injection H as _ <-. reflexivity.
Qed.

(** The id rule never throws; its effect in closed form. *)
Lemma validateId_run drink index st :
  exists st',
    validateId drink index st = Returned (tt, st')
    /\ warnings (result st') = warnings (result st)
    /\ ((notNonEmptyString (get drink "id") = true
         /\ errors (result st') = errors (result st) ++ [msg_id_required index]
         /\ seenIds st' = seenIds st)
        \/ (exists id,
              get drink "id" = Some (JStr id)
              /\ notNonEmptyString (get drink "id") = false
              /\ errors (result st') =
                 errors (result st)
                 ++ (if includes (seenIds st) id
                     then [msg_duplicate index id] else [])
                 ++ (if testSnakeCase id then [] else [msg_format index id])
              /\ seenIds st' =
                 (if includes (seenIds st) id then seenIds st
                  else seenIds st ++ [id]))).
Proof.
  unfold validateId.
  destruct (notNonEmptyString (get drink "id")) eqn:Hc.
  - eexists. rewrite reportError_run. split; [reflexivity|].
    split; [reflexivity|]. left. repeat split; reflexivity.
  - destruct (get drink "id") as [[ | | |id| | ]|] eqn:Hid;
      try (unfold notNonEmptyString in Hc; cbn in Hc;
           rewrite ?orb_true_r in Hc; discriminate Hc).
    cbv [bind seenIds_has when seenIds_add ret reportError errors_push
         set_success negb].
    destruct (includes (seenIds st) id) eqn:Hseen;
      destruct (testSnakeCase id) eqn:Hfmt;
      cbn [result errors warnings seenIds success]; rewrite ?Hseen;
      (eexists; split; [reflexivity|]; split; [reflexivity|]);
      right; exists id;
      cbn [result errors warnings seenIds success];
      rewrite ?Hseen, ?Hfmt, <- ?app_assoc; cbn [app]; rewrite ?app_nil_r;
      repeat split; reflexivity.
Qed.

Lemma validateDrink_sound drink index st st' :
  validateDrink drink index st = Returned (tt, st') ->
  pushes (entry_error (seenIds st) drink index) st st'
  /\ seenIds st' = addSeen (seenIds st) drink.
Proof.
  intros Hrun. destruct (notAnObject drink) eqn:Hobj.
  - rewrite validateDrink_not_object in Hrun by exact Hobj. split.
    + by_respects Hrun. apply pushes_error. constructor. exact Hobj.
    + rewrite reportError_run in Hrun. injection Hrun as <-.
      unfold addSeen, validId. rewrite Hobj. reflexivity.
  - rewrite validateDrink_object in Hrun by exact Hobj.
    apply bind_Returned in Hrun as ([] & s & Hid & Hrest).
    destruct (validateId_run drink index st) as (s' & Hid' & _ & Hcases).
    rewrite Hid' in Hid. injection Hid as ->.
    assert (Hseen : seenIds st' = seenIds s)
      by exact (fieldRules_sameSeen drink index _ _ _ Hrest).
    assert (Hp : pushes (entry_error (seenIds st) drink index) s st').
    { by_respects Hrest.
      apply respects_fieldRules
        with (Pe := entry_error (seenIds st) drink index) (Pw := fun _ => True);
        try (unfold labelled; intros; exact I).
      - apply pushes_refl.
      - apply pushes_trans.
      - apply pushes_error.
      - intros msg _. apply pushes_warning.
      - intros text Ht label Hl. apply ee_field; assumption. }
    destruct Hcases as [(Hc & He & Hs)|(id & Hg & Hc & He & Hs)].
    + split.
      * eapply pushes_trans; [|exact Hp]. exists [msg_id_required index].
        split; [exact He|]. constructor; [|constructor].
        apply ee_id_required; assumption.
      * rewrite Hseen, Hs. unfold addSeen, validId. rewrite Hobj, Hc. reflexivity.
    + split.
      * eapply pushes_trans; [|exact Hp]. eexists. split; [exact He|].
        apply Forall_app. split.
        -- destruct (includes (seenIds st) id) eqn:Hin; constructor;
             [|constructor]. apply ee_duplicate; assumption.
        -- destruct (testSnakeCase id) eqn:Hf; constructor; [|constructor].
           apply ee_format; assumption.
      * rewrite Hseen, Hs. unfold addSeen, validId. rewrite Hobj, Hc, Hg.
        reflexivity.
Qed.

Lemma firstn_snoc {A : Type} (l : list A) (k : nat) (x : A) :
  nth_error l k = Some x -> firstn (S k) l = firstn k l ++ [x].
Proof.
  revert k. induction l as [|y l IH]; intros [|k] H; try discriminate H.
  - injection H as ->. reflexivity.
  - cbn. f_equal. apply IH, H.
Qed.

(** The first loop: the errors it adds are entry errors, each judged
    against the ids seen before its entry. *)
Lemma forEach_validateDrink_sound drinks :
  forall n st st',
    forEach validateDrink drinks n st = Returned (tt, st') ->
    pushes (fun msg =>
              exists k drink,
                nth_error drinks k = Some drink /\
                entry_error (fold_left addSeen (firstn k drinks) (seenIds st))
                            drink (n + k) msg) st st'
    /\ seenIds st' = fold_left addSeen drinks (seenIds st).
Proof.
  induction drinks as [|d drinks IH]; intros n st st' Hrun.
  - injection Hrun as <-. split; [apply pushes_refl|reflexivity].
  - cbn [forEach] in Hrun. apply bind_Returned in Hrun as ([] & s & Hd & Hrest).
    apply validateDrink_sound in Hd as [Hp Hs].
    apply IH in Hrest as [Hp' Hs']. split.
    + eapply pushes_trans.
      * eapply pushes_weaken; [|exact Hp]. intros m Hm. exists 0, d.
        split; [reflexivity|]. rewrite Nat.add_0_r. exact Hm.
      * eapply pushes_weaken; [|exact Hp']. intros m (k & x & Hk & Hm).
        exists (S k), x. split; [exact Hk|]. cbn [firstn fold_left].
        rewrite <- Hs. replace (n + S k) with (S n + k) by lia. exact Hm.
    + rewrite Hs'. rewrite Hs. reflexivity.
Qed.

(** Every error of a returned result was pushed for one of the reasons
    [catalog_error] lists. *)
Theorem errors_sound (w : World) (r : ValidationResult) :
  validateCatalog w = Returned r ->
  forall msg, In msg (errors r) -> catalog_error w msg.
Proof.
  intros H msg Hin. apply validateCatalog_Returned in H as (st & Hrun & ->).
  assert (Hp : pushes (catalog_error w) initialState st).
  { unfold validateCatalogBody in Hrun.
    destruct (catalogFile w) as [[message|parsed]|] eqn:Hc.
    - by_respects Hrun. apply pushes_error. constructor. exact Hc.
    - destruct parsed as [ | | | |drinks| ];
        try (by_respects Hrun; apply pushes_error;
             eapply ce_not_array; [exact Hc|reflexivity]).
      apply bind_Returned in Hrun as ([] & s1 & H1 & Hrun).
      apply bind_Returned in Hrun as ([] & s2 & H2 & H3).
      apply forEach_validateDrink_sound in H1 as [H1 _].
      apply pushes_trans with s1; [|apply pushes_trans with s2].
      + eapply pushes_weaken; [|exact H1]. intros m (k & d & Hk & Hm).
        eapply ce_entry; [exact Hc|exact Hk|exact Hm].
      + by_respects H2. apply respects_when; [apply pushes_refl|]. intros Ht.
        apply respects_forEach; [apply pushes_refl|apply pushes_trans|].
        intros d _ Hd.
        apply respects_checkImageFilesOf with (Pe := catalog_error w);
          [apply pushes_refl|apply pushes_trans|apply pushes_error|].
        intros m Hm. eapply ce_image; eassumption.
      + by_respects H3.
        apply respects_validateFlags with (Pe := catalog_error w);
          [apply pushes_refl|apply pushes_trans|apply pushes_error|].
        intros m Hm. eapply ce_flags; eassumption.
    - by_respects Hrun. apply pushes_error. constructor. exact Hc. }
  destruct (pushes_In _ _ _ _ Hp Hin) as [[]|Hm]. exact Hm.
Qed.

(** ** Reading a message back to its cause *)

Lemma entry_error_fromIndex seen drink index msg :
  entry_error seen drink index msg -> fromIndex index msg.
Proof.
  intros []; auto using fromIndex_not_object, fromIndex_id_required,
    fromIndex_duplicate, fromIndex_format, fromIndex_labelled.
Qed.

Lemma image_error_first fileExists drink msg :
  image_error fileExists drink msg -> String.get 0 msg = Some "I"%char.
Proof. intros []; reflexivity. Qed.

Lemma flags_error_first flags msg :
  flags_error flags msg ->
  String.get 0 msg = Some "F"%char \/ String.get 0 msg = Some "f"%char.
Proof. intros []; auto. Qed.

(** An error that opens with the prefix of entry [index] was pushed by the
    callback for that entry. *)
Lemma errors_of_index w drinks r index msg :
  catalogFile w = Some (Parsed (JArr drinks)) ->
  validateCatalog w = Returned r ->
  In msg (errors r) -> fromIndex index msg ->
  exists drink,
    nth_error drinks index = Some drink
    /\ entry_error (seenBefore drinks index) drink index msg.
Proof.
  intros Hc Hrun Hin Hfrom.
  pose proof (fromIndex_first _ _ Hfrom) as Hfirst.
  destruct (errors_sound w r Hrun msg Hin)
    as [E|message E|parsed E Ha|drinks' k d m E Hk Hm|drinks' d m E Ht Hd Hm
        |drinks' m E Hm];
    rewrite Hc in E; try discriminate E.
  - injection E as <-. discriminate Ha.
  - injection E as <-.
    assert (k = index)
      by (eapply fromIndex_inj; [eapply entry_error_fromIndex, Hm|exact Hfrom]).
    subst k. exists d. split; assumption.
  - apply image_error_first in Hm. rewrite Hm in Hfirst. discriminate Hfirst.
  - apply flags_error_first in Hm as [Hm|Hm];
      rewrite Hm in Hfirst; discriminate Hfirst.
Qed.

Lemma validId_intro drink id :
  notAnObject drink = false -> get drink "id" = Some (JStr id) ->
  notNonEmptyString (get drink "id") = false -> validId drink = Some id.
Proof. intros H1 H2 H3. unfold validId. rewrite H1, H3, H2. reflexivity. Qed.

Lemma validId_elim drink id :
  validId drink = Some id ->
  notAnObject drink = false /\ get drink "id" = Some (JStr id)
  /\ notNonEmptyString (get drink "id") = false.
Proof.
  unfold validId. destruct (notAnObject drink); [discriminate|].
  destruct (notNonEmptyString (get drink "id")); [discriminate|].
  destruct (get drink "id") as [[ | | |s| | ]|]; try discriminate.
  intros H. injection H as ->. repeat split; reflexivity.
Qed.

(** Strip the entry prefix from both sides of an equation between two
    messages of one entry, then compare what follows. *)
Ltac same_entry E :=
  unfold msg_not_object, msg_id_required, msg_duplicate, msg_format,
    msg_labelled in E;
  apply append_inv_head in E; cbn in E.

Lemma duplicate_cause seen drink index id :
  entry_error seen drink index (msg_duplicate index id) ->
  validId drink = Some id /\ includes seen id = true.
Proof.
  intros H. remember (msg_duplicate index id) as m eqn:E.
  destruct H as [Ho|Ho Hc|id' Ho Hg Hc Hs|id' Ho Hg Hc Hf|label text Ho Hl Ht];
    same_entry E; try discriminate E.
  injection E as E. apply append_inv_tail in E. subst id'.
  split; [apply validId_intro; assumption|exact Hs].
Qed.

Lemma format_cause seen drink index id :
  entry_error seen drink index (msg_format index id) ->
  validId drink = Some id /\ testSnakeCase id = false.
Proof.
  intros H. remember (msg_format index id) as m eqn:E.
  destruct H as [Ho|Ho Hc|id' Ho Hg Hc Hs|id' Ho Hg Hc Hf|label text Ho Hl Ht];
    same_entry E; try discriminate E.
  injection E as E. apply append_inv_tail in E. subst id'.
  split; [apply validId_intro; assumption|exact Hf].
Qed.

Lemma not_object_only seen drink index msg :
  notAnObject drink = true -> entry_error seen drink index msg ->
  msg = msg_not_object index.
Proof. intros Hn []; congruence. Qed.

Lemma hasSuffix_variant_string k :
  hasSuffix (text_variant_string k) tail_variant_string.
Proof.
  unfold text_variant_string. repeat apply hasSuffix_append.
  apply hasSuffix_refl.
Qed.

Lemma hasSuffix_variant_prefix k :
  hasSuffix (text_variant_prefix k) tail_variant_prefix.
Proof.
  unfold text_variant_prefix.
  apply hasSuffix_append, hasSuffix_append, hasSuffix_refl.
Qed.

Lemma labelled_clash i l1 t1 l2 t2 tail1 tail2 :
  hasSuffix t1 tail1 -> hasSuffix t2 tail2 ->
  msg_labelled i l1 t1 = msg_labelled i l2 t2 ->
  endsWith tail1 tail2 || endsWith tail2 tail1 = true.
Proof.
  intros H1 H2 E. apply (hasSuffix_clash (msg_labelled i l1 t1)).
  - apply hasSuffix_labelled, H1.
  - rewrite E. apply hasSuffix_labelled, H2.
Qed.

(** Refute [E : msg_labelled i l1 t1 = msg_labelled i l2 t2] when the
    endings of the two texts are incompatible. *)
Ltac text_clash E :=
  exfalso;
  first
    [ eapply labelled_clash in E;
      [|apply hasSuffix_variant_string|apply hasSuffix_refl];
      vm_compute in E; discriminate E
    | eapply labelled_clash in E;
      [|apply hasSuffix_variant_prefix|apply hasSuffix_refl];
      vm_compute in E; discriminate E
    | eapply labelled_clash in E;
      [|apply hasSuffix_refl|apply hasSuffix_refl];
      vm_compute in E; discriminate E ].

Lemma popularity_cause seen drink index label :
  entry_error seen drink index (msg_labelled index label text_popularity) ->
  popularityOutOfRange (get drink "popularity") = true.
Proof.
  intros H. remember (msg_labelled index label text_popularity) as m eqn:E.
  destruct H as [Ho|Ho Hc|id' Ho Hg Hc Hs|id' Ho Hg Hc Hf|label' text Ho Hl Ht];
    try (same_entry E; discriminate E).
  destruct Ht; try text_clash E. assumption.
Qed.

Lemma modifiers_cause seen drink index label :
  entry_error seen drink index (msg_labelled index label text_modifiers) ->
  truthy (get drink "modifiersSupported") = true
  /\ notArrayOfStrings (get drink "modifiersSupported") = true.
Proof.
  intros H. remember (msg_labelled index label text_modifiers) as m eqn:E.
  destruct H as [Ho|Ho Hc|id' Ho Hg Hc Hs|id' Ho Hg Hc Hf|label' text Ho Hl Ht];
    try (same_entry E; discriminate E).
  destruct Ht; try text_clash E. split; assumption.
Qed.

(** * Every cause is reported, when the run returns *)

Ltac grows_side :=
  first [ apply pushes_refl
        | apply pushes_trans
        | intros ? _; apply pushes_error; exact I
        | intros ? _; apply pushes_warning
        | apply pushes_add
        | unfold labelled; intros; exact I
        | intros; exact I ].

Lemma grows_validateName d i : respects grows (validateName d i).
Proof.
  apply respects_validateName with (Pe := fun _ => True); grows_side.
Qed.

Lemma grows_validateCategory d i : respects grows (validateCategory d i).
Proof.
  apply respects_validateCategory with (Pe := fun _ => True); grows_side.
Qed.

Lemma grows_validatePopularity d i : respects grows (validatePopularity d i).
Proof.
  apply respects_validatePopularity with (Pe := fun _ => True); grows_side.
Qed.

Lemma grows_validateAliases d i : respects grows (validateAliases d i).
Proof.
  apply respects_validateAliases with (Pe := fun _ => True); grows_side.
Qed.

Lemma grows_validateImagePath d i : respects grows (validateImagePath d i).
Proof.
  apply respects_validateImagePath
    with (Pe := fun _ => True) (Pw := fun _ => True); grows_side.
Qed.

Lemma grows_validateImageVariants d i :
  respects grows (validateImageVariants d i).
Proof.
  apply respects_validateImageVariants
    with (Pe := fun _ => True) (Pw := fun _ => True); grows_side.
Qed.

Lemma grows_validateModifiersSupported d i :
  respects grows (validateModifiersSupported d i).
Proof.
  apply respects_validateModifiersSupported with (Pe := fun _ => True);
    grows_side.
Qed.

Lemma grows_fieldRules d i : respects grows (fieldRules d i).
Proof.
  apply respects_fieldRules with (Pe := fun _ => True) (Pw := fun _ => True);
    grows_side.
Qed.

Lemma grows_In st st' msg :
  grows st st' -> In msg (errors (result st)) -> In msg (errors (result st')).
Proof. apply pushes_keeps. Qed.

Lemma reportLabelled_run d i text st st' :
  reportLabelled d i text st = Returned (tt, st') ->
  exists label,
    drinkLabel d = Returned label
    /\ errors (result st') = errors (result st) ++ [msg_labelled i label text].
Proof.
  intros H. unfold reportLabelled in H.
  apply bind_Returned in H as (l & s & Hl & H).
  apply liftOutcome_Returned in Hl as [Hl ->].
  rewrite reportError_run in H. injection H as <-.
  exists l. split; [exact Hl|reflexivity].
Qed.

(** The chain of states through the rules that follow the id rule. *)
Lemma fieldRules_steps d i st st' :
  fieldRules d i st = Returned (tt, st') ->
  exists s1 s2 s3 s4 s5 s6,
    validateName d i st = Returned (tt, s1)
    /\ validateCategory d i s1 = Returned (tt, s2)
    /\ validatePopularity d i s2 = Returned (tt, s3)
    /\ validateAliases d i s3 = Returned (tt, s4)
    /\ validateImagePath d i s4 = Returned (tt, s5)
    /\ validateImageVariants d i s5 = Returned (tt, s6)
    /\ validateModifiersSupported d i s6 = Returned (tt, st').
Proof.
  intros H. unfold fieldRules in H.
  apply bind_Returned in H as ([] & s1 & H1 & H).
  apply bind_Returned in H as ([] & s2 & H2 & H).
  apply bind_Returned in H as ([] & s3 & H3 & H).
  apply bind_Returned in H as ([] & s4 & H4 & H).
  apply bind_Returned in H as ([] & s5 & H5 & H).
  apply bind_Returned in H as ([] & s6 & H6 & H).
  exists s1, s2, s3, s4, s5, s6. repeat split; assumption.
Qed.

Lemma popularity_reported d i st st' :
  popularityOutOfRange (get d "popularity") = true ->
  fieldRules d i st = Returned (tt, st') ->
  exists label,
    drinkLabel d = Returned label
    /\ In (msg_labelled i label text_popularity) (errors (result st')).
Proof.
  intros Hc H.
  apply fieldRules_steps in H
    as (s1 & s2 & s3 & s4 & s5 & s6 & _ & _ & H3 & H4 & H5 & H6 & H7).
  unfold validatePopularity in H3. rewrite Hc in H3.
  apply reportLabelled_run in H3 as (l & Hl & He).
  exists l. split; [exact Hl|].
  apply (grows_In _ _ _ (grows_validateModifiersSupported _ _ _ _ _ H7)).
  apply (grows_In _ _ _ (grows_validateImageVariants _ _ _ _ _ H6)).
  apply (grows_In _ _ _ (grows_validateImagePath _ _ _ _ _ H5)).
  apply (grows_In _ _ _ (grows_validateAliases _ _ _ _ _ H4)).
  rewrite He. apply in_or_app. right. left. reflexivity.
Qed.

Lemma modifiers_reported d i st st' :
  truthy (get d "modifiersSupported") = true ->
  notArrayOfStrings (get d "modifiersSupported") = true ->
  fieldRules d i st = Returned (tt, st') ->
  exists label,
    drinkLabel d = Returned label
    /\ In (msg_labelled i label text_modifiers) (errors (result st')).
Proof.
  intros Ht Hc H.
  apply fieldRules_steps in H
    as (s1 & s2 & s3 & s4 & s5 & s6 & _ & _ & _ & _ & _ & _ & H7).
  unfold validateModifiersSupported in H7. rewrite Ht, Hc in H7.
  apply reportLabelled_run in H7 as (l & Hl & He).
  exists l. split; [exact Hl|].
  rewrite He. apply in_or_app. right. left. reflexivity.
Qed.

(** ** The run around one entry *)

Lemma includes_snoc seen id k :
  includes (seen ++ [id]) k = includes seen k || String.eqb k id.
Proof.
  unfold includes. rewrite existsb_app. cbn. rewrite orb_false_r. reflexivity.
Qed.

Lemma includes_addSeen seen d k :
  includes (addSeen seen d) k = true <->
  includes seen k = true \/ validId d = Some k.
Proof.
  unfold addSeen. destruct (validId d) as [id|].
  - destruct (includes seen id) eqn:Hin.
    + split; [auto|]. intros [H|H]; [exact H|]. injection H as <-. exact Hin.
    + rewrite includes_snoc, orb_true_iff, String.eqb_eq.
      split; (intros [H|H]; [left; exact H|right]); congruence.
  - split; [auto|]. intros [H|H]; [exact H|discriminate H].
Qed.

(** [seenIds] holds exactly the ids of the entries that passed the
    non-empty-string check. *)
Lemma includes_fold_addSeen l seen k :
  includes (fold_left addSeen l seen) k = true <->
  includes seen k = true \/ exists d, In d l /\ validId d = Some k.
Proof.
  revert seen. induction l as [|x l IH]; intros seen; cbn [fold_left].
  - split; [auto|]. intros [H|(d & [] & _)]. exact H.
  - rewrite IH, includes_addSeen. split.
    + intros [[H|H]|(d & Hd & Hv)]; [left; exact H| |].
      * right. exists x. split; [left; reflexivity|exact H].
      * right. exists d. split; [right; exact Hd|exact Hv].
    + intros [H|(d & [<-|Hd] & Hv)]; [left; left; exact H| |].
      * left. right. exact Hv.
      * right. exists d. split; assumption.
Qed.

Lemma seenBefore_app l1 d l2 :
  seenBefore (l1 ++ d :: l2) (length l1) = fold_left addSeen l1 [].
Proof.
  unfold seenBefore. rewrite firstn_app, firstn_all, Nat.sub_diag.
  cbn [firstn]. rewrite app_nil_r. reflexivity.
Qed.

Lemma includes_seenBefore drinks index k :
  includes (seenBefore drinks index) k = true <->
  exists i d, i < index /\ nth_error drinks i = Some d /\ validId d = Some k.
Proof.
  unfold seenBefore. rewrite includes_fold_addSeen. split.
  - intros [H|(d & Hd & Hv)]; [discriminate H|].
    apply In_nth_error in Hd as (i & Hi).
    assert (i < index).
    { assert (i < length (firstn index drinks))
        by (apply nth_error_Some; congruence).
      rewrite length_firstn in H. lia. }
    exists i, d. repeat split; [assumption| |exact Hv].
    rewrite nth_error_firstn in Hi.
    destruct (Nat.ltb_spec i index); [exact Hi|lia].
  - intros (i & d & Hlt & Hi & Hv). right. exists d. split; [|exact Hv].
    apply nth_error_In with i. rewrite nth_error_firstn.
    destruct (Nat.ltb_spec i index); [exact Hi|lia].
Qed.

(** A returned run, cut at one entry: the state [st1] in which the entry is
    reached, the state [st2] in which the callback leaves it, and the errors
    that follow, none of which opens with the prefix of this entry. *)
Lemma run_split w l1 d l2 r :
  catalogFile w = Some (Parsed (JArr (l1 ++ d :: l2))) ->
  validateCatalog w = Returned r ->
  exists st1 st2 after,
    forEach validateDrink l1 0 initialState = Returned (tt, st1)
    /\ seenIds st1 = fold_left addSeen l1 []
    /\ validateDrink d (length l1) st1 = Returned (tt, st2)
    /\ errors r = errors (result st2) ++ after
    /\ Forall (fun m => ~ fromIndex (length l1) m) (errors (result st1))
    /\ Forall (fun m => ~ fromIndex (length l1) m) after.
Proof.
  intros Hc H. apply validateCatalog_Returned in H as (st & Hrun & ->).
  unfold validateCatalogBody in Hrun. rewrite Hc in Hrun.
  apply bind_Returned in Hrun as ([] & s1 & H1 & Hrun).
  apply bind_Returned in Hrun as ([] & s2 & H2 & H3).
  rewrite forEach_app in H1.
  apply bind_Returned in H1 as ([] & st1 & Hl1 & H1).
  cbn [forEach Nat.add] in H1.
  apply bind_Returned in H1 as ([] & st2 & Hd & Hl2).
  pose proof (forEach_validateDrink_sound _ _ _ _ Hl1) as [(es1 & E1 & F1) Hs1].
  pose proof (forEach_validateDrink_sound _ _ _ _ Hl2) as [P2 _].
  assert (P : pushes (fun m => ~ fromIndex (length l1) m) st2 st).
  { apply pushes_trans with s1; [|apply pushes_trans with s2].
    - eapply pushes_weaken; [|exact P2]. intros m (k & x & _ & Hm) Hf.
      apply entry_error_fromIndex in Hm.
      pose proof (fromIndex_inj _ _ _ Hm Hf). lia.
    - by_respects H2. apply respects_when; [apply pushes_refl|]. intros _.
      apply respects_forEach; [apply pushes_refl|apply pushes_trans|].
      intros x _ _.
      apply respects_checkImageFilesOf
        with (Pe := fun m => String.get 0 m = Some "I"%char);
        [apply pushes_refl|apply pushes_trans| |apply image_error_first].
      intros m Hm. apply pushes_error. intros Hf.
      apply fromIndex_first in Hf. congruence.
    - by_respects H3.
      apply respects_validateFlags
        with (Pe := fun m => String.get 0 m = Some "F"%char
                             \/ String.get 0 m = Some "f"%char);
        [apply pushes_refl|apply pushes_trans| |apply flags_error_first].
      intros m Hm. apply pushes_error. intros Hf.
      apply fromIndex_first in Hf. destruct Hm; congruence. }
  destruct P as (after & E & F).
  exists st1, st2, after. repeat split; try assumption.
  cbn in E1. rewrite E1. eapply Forall_impl; [|exact F1].
  intros m (k & x & Hk & Hm) Hf. apply entry_error_fromIndex in Hm.
  pose proof (fromIndex_inj _ _ _ Hm Hf) as E'.
  assert (k < length l1) by (apply nth_error_Some; congruence).
  cbn in E'. lia.
Qed.

Lemma entry_run w drinks index d r :
  catalogFile w = Some (Parsed (JArr drinks)) ->
  nth_error drinks index = Some d ->
  validateCatalog w = Returned r ->
  exists st1 st2,
    seenIds st1 = seenBefore drinks index
    /\ validateDrink d index st1 = Returned (tt, st2)
    /\ (forall m, In m (errors (result st2)) -> In m (errors r))
    /\ (forall m, fromIndex index m ->
                  ~ In m (errors (result st1))
                  /\ (In m (errors r) -> In m (errors (result st2)))).
Proof.
  intros Hc Hn Hrun.
  destruct (nth_error_split _ _ Hn) as (l1 & l2 & -> & <-).
  destruct (run_split w l1 d l2 r Hc Hrun)
    as (st1 & st2 & after & _ & Hs & Hd & E & F1 & F2).
  exists st1, st2. rewrite seenBefore_app. repeat split; try assumption.
  - intros m Hm. rewrite E. apply in_or_app. left. exact Hm.
  - intros Hin. rewrite Forall_forall in F1. exact (F1 _ Hin H).
  - intros Hin. rewrite E in Hin. apply in_app_or in Hin as [Hin|Hin];
      [exact Hin|]. rewrite Forall_forall in F2. destruct (F2 _ Hin H).
Qed.

Lemma validateDrink_steps d index st st' :
  notAnObject d = false ->
  validateDrink d index st = Returned (tt, st') ->
  exists s, validateId d index st = Returned (tt, s)
            /\ fieldRules d index s = Returned (tt, st').
Proof.
  intros Ho H. rewrite validateDrink_object in H by exact Ho.
  apply bind_Returned in H as ([] & s & H1 & H2). exists s. split; assumption.
Qed.

(** * Duplicate ids *)

Lemma duplicate_reported d index id st st' :
  validId d = Some id -> includes (seenIds st) id = true ->
  validateDrink d index st = Returned (tt, st') ->
  In (msg_duplicate index id) (errors (result st')).
Proof.
  intros Hv Hseen H. apply validId_elim in Hv as (Ho & Hg & Hc).
  apply validateDrink_steps in H as (s & Hid & Hrest); [|exact Ho].
  destruct (validateId_run d index st) as (s' & Hid' & _ & Hcases).
  rewrite Hid' in Hid. injection Hid as ->.
  apply (grows_In _ _ _ (grows_fieldRules _ _ _ _ _ Hrest)).
  destruct Hcases as [(Hc' & _)|(id' & Hg' & _ & He & _)]; [congruence|].
  assert (id' = id) by congruence. subst id'.
  rewrite He, Hseen. apply in_or_app. right. left. reflexivity.
Qed.

(** C5, as amended. For an entry whose id passes the non-empty-string
    check, a duplicate-id error is reported for its index exactly when an
    earlier entry carries the same id (that also passed the check): every
    later occurrence is reported, the first occurrence never is, and a
    duplicate-id error at that index can only name the entry's own id. *)
Theorem duplicate_id_reported_for_later_occurrences
    (w : World) (drinks : list json) (index : nat) (d : json) (id : string)
    (r : ValidationResult) :
  catalogFile w = Some (Parsed (JArr drinks)) ->
  nth_error drinks index = Some d ->
  validId d = Some id ->
  validateCatalog w = Returned r ->
  (In (msg_duplicate index id) (errors r) <->
   exists i d', i < index /\ nth_error drinks i = Some d'
                /\ validId d' = Some id)
  /\ (forall id', In (msg_duplicate index id') (errors r) -> id' = id).
Proof.
  intros Hc Hn Hv Hrun.
  assert (Hcause : forall id', In (msg_duplicate index id') (errors r) ->
                               validId d = Some id'
                               /\ includes (seenBefore drinks index) id' = true).
  { intros id' Hin.
    destruct (errors_of_index w drinks r index _ Hc Hrun Hin
                (fromIndex_duplicate _ _)) as (d' & Hn' & He).
    assert (d' = d) by congruence. subst d'.
    exact (duplicate_cause _ _ _ _ He). }
  split; [split|].
  - intros Hin. apply includes_seenBefore, Hcause, Hin.
  - intros Hearlier. apply includes_seenBefore in Hearlier.
    destruct (entry_run w drinks index d r Hc Hn Hrun)
      as (st1 & st2 & Hs & Hd & Hkeep & _).
    apply Hkeep. eapply duplicate_reported; [exact Hv| |exact Hd].
    rewrite Hs. exact Hearlier.
  - intros id' Hin. apply Hcause in Hin as [Hv' _]. congruence.
Qed.

(** * Ids that fail the non-empty-string check *)

Lemma id_required_reported d index st st' :
  notAnObject d = false -> notNonEmptyString (get d "id") = true ->
  validateDrink d index st = Returned (tt, st') ->
  In (msg_id_required index) (errors (result st')).
Proof.
  intros Ho Hc H.
  apply validateDrink_steps in H as (s & Hid & Hrest); [|exact Ho].
  destruct (validateId_run d index st) as (s' & Hid' & _ & Hcases).
  rewrite Hid' in Hid. injection Hid as ->.
  apply (grows_In _ _ _ (grows_fieldRules _ _ _ _ _ Hrest)).
  destruct Hcases as [(_ & He & _)|(id' & _ & Hc' & _)]; [|congruence].
  rewrite He. apply in_or_app. right. left. reflexivity.
Qed.

(** C10. [seenIds] receives an id only when the id passes the
    non-empty-string check: whatever it holds when the first loop ends is
    the id of an entry that passed it.  An entry whose id is missing, not a
    string, empty or made of white space gets the error
    [id must be a non-empty string], and no duplicate-id error is ever
    reported for it, however many such entries the catalog has. *)
Theorem invalid_ids_are_never_duplicates
    (w : World) (drinks : list json) (r : ValidationResult) :
  catalogFile w = Some (Parsed (JArr drinks)) ->
  validateCatalog w = Returned r ->
  (forall st id,
     forEach validateDrink drinks 0 initialState = Returned (tt, st) ->
     In id (seenIds st) ->
     exists i d, nth_error drinks i = Some d /\ validId d = Some id)
  /\ (forall index d,
        nth_error drinks index = Some d ->
        notAnObject d = false ->
        notNonEmptyString (get d "id") = true ->
        In (msg_id_required index) (errors r)
        /\ forall id, ~ In (msg_duplicate index id) (errors r)).
Proof.
  intros Hc Hrun. split.
  - intros st id Hloop Hin.
    apply forEach_validateDrink_sound in Hloop as [_ Hs].
    assert (Hi : includes (seenIds st) id = true).
    { unfold includes. apply existsb_exists. exists id.
      split; [exact Hin|apply String.eqb_refl]. }
    rewrite Hs in Hi. apply includes_fold_addSeen in Hi as [Hi|(d & Hd & Hv)];
      [discriminate Hi|].
    apply In_nth_error in Hd as (i & Hd). exists i, d. split; assumption.
  - intros index d Hn Ho Hbad. split.
    + destruct (entry_run w drinks index d r Hc Hn Hrun)
        as (st1 & st2 & _ & Hd & Hkeep & _).
      apply Hkeep. eapply id_required_reported; eassumption.
    + intros id Hin.
      destruct (errors_of_index w drinks r index _ Hc Hrun Hin
                  (fromIndex_duplicate _ _)) as (d' & Hn' & He).
      assert (d' = d) by congruence. subst d'.
      destruct (duplicate_cause _ _ _ _ He) as [Hv _].
      apply validId_elim in Hv as (_ & _ & Hgood). congruence.
Qed.

(** * The snake_case format of ids *)

Lemma isUpperSpaceOrHyphen_not_snake c :
  isUpperSpaceOrHyphen c = true -> isSnakeChar c = false.
Proof.
  destruct c as [[] [] [] [] [] [] [] []]; intros H;
    solve [reflexivity | discriminate H].
Qed.

Lemma anyChar_not_snake s :
  anyChar isUpperSpaceOrHyphen s = true -> testSnakeCase s = false.
Proof.
  intros H. unfold testSnakeCase. apply andb_false_iff. right.
  induction s as [|c s IH]; [discriminate H|].
  cbn in H |- *. apply orb_true_iff in H as [H|H].
  - rewrite (isUpperSpaceOrHyphen_not_snake _ H). reflexivity.
  - rewrite (IH H). apply andb_false_r.
Qed.

Lemma format_reported d index id st st' :
  validId d = Some id -> testSnakeCase id = false ->
  validateDrink d index st = Returned (tt, st') ->
  In (msg_format index id) (errors (result st')).
Proof.
  intros Hv Hf H. apply validId_elim in Hv as (Ho & Hg & Hc).
  apply validateDrink_steps in H as (s & Hid & Hrest); [|exact Ho].
  destruct (validateId_run d index st) as (s' & Hid' & _ & Hcases).
  rewrite Hid' in Hid. injection Hid as ->.
  apply (grows_In _ _ _ (grows_fieldRules _ _ _ _ _ Hrest)).
  destruct Hcases as [(Hc' & _)|(id' & Hg' & _ & He & _)]; [congruence|].
  assert (id' = id) by congruence. subst id'.
  rewrite He, Hf. apply in_or_app. right. apply in_or_app. right.
  left. reflexivity.
Qed.

(** C7, as amended. For an entry whose id passes the non-empty-string
    check (a string that is not empty once trimmed), the snake_case format
    error is reported exactly when the id does not match [[a-z0-9_]+]; in
    particular it is reported when the id contains an uppercase letter, a
    space or a hyphen, it is reported for [My-Drink], and no format error is
    reported for [my_drink_1]. *)
Theorem format_error_for_ids_outside_snake_case
    (w : World) (drinks : list json) (index : nat) (d : json) (id : string)
    (r : ValidationResult) :
  catalogFile w = Some (Parsed (JArr drinks)) ->
  nth_error drinks index = Some d ->
  validId d = Some id ->
  validateCatalog w = Returned r ->
  (In (msg_format index id) (errors r) <-> testSnakeCase id = false)
  /\ (anyChar isUpperSpaceOrHyphen id = true ->
      In (msg_format index id) (errors r))
  /\ (id = "my_drink_1" ->
      forall id', ~ In (msg_format index id') (errors r))
  /\ (id = "My-Drink" -> In (msg_format index id) (errors r)).
Proof.
  intros Hc Hn Hv Hrun.
  assert (Hcause : forall id', In (msg_format index id') (errors r) ->
                               validId d = Some id' /\ testSnakeCase id' = false).
  { intros id' Hin.
    destruct (errors_of_index w drinks r index _ Hc Hrun Hin
                (fromIndex_format _ _)) as (d' & Hn' & He).
    assert (d' = d) by congruence. subst d'.
    exact (format_cause _ _ _ _ He). }
  assert (Hrep : testSnakeCase id = false -> In (msg_format index id) (errors r)).
  { intros Hf.
    destruct (entry_run w drinks index d r Hc Hn Hrun)
      as (st1 & st2 & _ & Hd & Hkeep & _).
    apply Hkeep. eapply format_reported; eassumption. }
  split; [split; [intros Hin; apply Hcause, Hin|exact Hrep]|].
  split; [intros Hany; apply Hrep, anyChar_not_snake, Hany|].
  split.
  - intros -> id' Hin. apply Hcause in Hin as [Hv' Hf].
    assert (id' = "my_drink_1") by congruence. subst id'.
    vm_compute in Hf. discriminate Hf.
  - intros ->. apply Hrep. reflexivity.
Qed.

(** * The popularity range *)

(** C8. For an entry whose popularity is the number 0 or the number 100 no
    popularity error is reported for its index; for an entry whose
    popularity is -1 or 101 the popularity error is reported.  In general
    the error is reported exactly when the number lies outside [0, 100]. *)
Theorem popularity_bounds_are_inclusive
    (w : World) (drinks : list json) (index : nat) (d : json) (x : float)
    (r : ValidationResult) :
  catalogFile w = Some (Parsed (JArr drinks)) ->
  nth_error drinks index = Some d ->
  notAnObject d = false ->
  get d "popularity" = Some (JNum x) ->
  validateCatalog w = Returned r ->
  ((exists label, In (msg_labelled index label text_popularity) (errors r))
   <-> PrimFloat.ltb x 0 || PrimFloat.ltb 100 x = true)
  /\ (x = 0%float \/ x = 100%float ->
      forall label, ~ In (msg_labelled index label text_popularity) (errors r))
  /\ (x = (-1)%float \/ x = 101%float ->
      exists label,
        drinkLabel d = Returned label
        /\ In (msg_labelled index label text_popularity) (errors r)).
Proof.
  intros Hc Hn Ho Hp Hrun.
  assert (Hcause : forall label,
             In (msg_labelled index label text_popularity) (errors r) ->
             PrimFloat.ltb x 0 || PrimFloat.ltb 100 x = true).
  { intros label Hin.
    destruct (errors_of_index w drinks r index _ Hc Hrun Hin
                (fromIndex_labelled _ _ _)) as (d' & Hn' & He).
    assert (d' = d) by congruence. subst d'.
    pose proof (popularity_cause _ _ _ _ He) as H.
    rewrite Hp in H. exact H. }
  assert (Hrep : PrimFloat.ltb x 0 || PrimFloat.ltb 100 x = true ->
                 exists label,
                   drinkLabel d = Returned label
                   /\ In (msg_labelled index label text_popularity) (errors r)).
  { intros Hout.
    destruct (entry_run w drinks index d r Hc Hn Hrun)
      as (st1 & st2 & _ & Hd & Hkeep & _).
    apply validateDrink_steps in Hd as (s & _ & Hrest); [|exact Ho].
    destruct (popularity_reported d index s st2) as (label & Hl & Hin);
      [rewrite Hp; exact Hout|exact Hrest|].
    exists label. split; [exact Hl|apply Hkeep, Hin]. }
  split; [split|split].
  - intros (label & Hin). exact (Hcause _ Hin).
  - intros Hout. destruct (Hrep Hout) as (label & _ & Hin).
    exists label. exact Hin.
  - intros [-> | ->] label Hin; apply Hcause in Hin; vm_compute in Hin;
      discriminate Hin.
  - intros [-> | ->]; apply Hrep; reflexivity.
Qed.

(** * modifiersSupported *)

(** C2, as amended. The modifiersSupported error is reported for an entry
    exactly when the field is truthy and is not an array of strings.  No
    error is recorded when the field is absent, is [false], or is an array
    of strings; the boolean [true] is rejected like any other value that is
    not an array. *)
Theorem modifiersSupported_accepts_arrays_of_strings
    (w : World) (drinks : list json) (index : nat) (d : json)
    (r : ValidationResult) :
  catalogFile w = Some (Parsed (JArr drinks)) ->
  nth_error drinks index = Some d ->
  notAnObject d = false ->
  validateCatalog w = Returned r ->
  ((exists label, In (msg_labelled index label text_modifiers) (errors r))
   <-> truthy (get d "modifiersSupported") = true
       /\ notArrayOfStrings (get d "modifiersSupported") = true)
  /\ (get d "modifiersSupported" = None
      \/ get d "modifiersSupported" = Some (JBool false)
      \/ (exists l, get d "modifiersSupported" = Some (JArr l)
                    /\ everyString l = true) ->
      forall label, ~ In (msg_labelled index label text_modifiers) (errors r))
  /\ (get d "modifiersSupported" = Some (JBool true) ->
      exists label,
        drinkLabel d = Returned label
        /\ In (msg_labelled index label text_modifiers) (errors r)).
Proof.
  intros Hc Hn Ho Hrun.
  assert (Hcause : forall label,
             In (msg_labelled index label text_modifiers) (errors r) ->
             truthy (get d "modifiersSupported") = true
             /\ notArrayOfStrings (get d "modifiersSupported") = true).
  { intros label Hin.
    destruct (errors_of_index w drinks r index _ Hc Hrun Hin
                (fromIndex_labelled _ _ _)) as (d' & Hn' & He).
    assert (d' = d) by congruence. subst d'.
    exact (modifiers_cause _ _ _ _ He). }
  assert (Hrep : truthy (get d "modifiersSupported") = true ->
                 notArrayOfStrings (get d "modifiersSupported") = true ->
                 exists label,
                   drinkLabel d = Returned label
                   /\ In (msg_labelled index label text_modifiers) (errors r)).
  { intros Ht Hbad.
    destruct (entry_run w drinks index d r Hc Hn Hrun)
      as (st1 & st2 & _ & Hd & Hkeep & _).
    apply validateDrink_steps in Hd as (s & _ & Hrest); [|exact Ho].
    destruct (modifiers_reported d index s st2 Ht Hbad Hrest)
      as (label & Hl & Hin).
    exists label. split; [exact Hl|apply Hkeep, Hin]. }
  split; [split|split].
  - intros (label & Hin). exact (Hcause _ Hin).
  - intros [Ht Hbad]. destruct (Hrep Ht Hbad) as (label & _ & Hin).
    exists label. exact Hin.
  - intros Hv label Hin. apply Hcause in Hin as [Ht Hbad].
    destruct Hv as [E|[E|(l & E & Hl)]]; rewrite E in Ht, Hbad;
      try discriminate Ht.
    cbn in Hbad. rewrite Hl in Hbad. discriminate Hbad.
  - intros E. apply Hrep; rewrite E; reflexivity.
Qed.

(** * Elements that are not objects *)

(** C4, as amended. An element that is a string, a number, a boolean or
    [null] makes the first loop push exactly the error [must be an object]
    for its index and nothing else (no rule runs on it, no warning, no id
    recorded), while the elements before and after it are validated by the
    same callback as ever.  In the result of a returned run that message is
    the only error that opens with the prefix of this index.  (An element
    that is a JSON array passes the [typeof] test and is validated like an
    object.) *)
Theorem non_object_element_gets_one_error
    (w : World) (l1 l2 : list json) (d : json) (r : ValidationResult) :
  match d with JArr _ | JObj _ => False | _ => True end ->
  (forall st,
     forEach validateDrink (l1 ++ d :: l2) 0 st =
     (forEach validateDrink l1 0 ;;
      reportError (msg_not_object (length l1)) ;;
      forEach validateDrink l2 (S (length l1))) st)
  /\ (catalogFile w = Some (Parsed (JArr (l1 ++ d :: l2))) ->
      validateCatalog w = Returned r ->
      exists before after,
        errors r = before ++ msg_not_object (length l1) :: after
        /\ Forall (fun m => ~ fromIndex (length l1) m) before
        /\ Forall (fun m => ~ fromIndex (length l1) m) after).
Proof.
  intros Hd.
  assert (Hno : notAnObject d = true) by (destruct d; try reflexivity; destruct Hd).
  split.
  - intros st. rewrite forEach_app. cbn [forEach Nat.add].
    rewrite validateDrink_not_object by exact Hno. reflexivity.
  - intros Hc Hrun.
    destruct (run_split w l1 d l2 r Hc Hrun)
      as (st1 & st2 & after & _ & _ & Hstep & E & F1 & F2).
    rewrite validateDrink_not_object in Hstep by exact Hno.
    rewrite reportError_run in Hstep. injection Hstep as <-.
    exists (errors (result st1)), after. cbn in E.
    rewrite E, <- app_assoc. repeat split; assumption.
Qed.

(** * The image file toggle *)

Lemma isFileNotFound_first msg :
  isFileNotFound msg = true -> String.get 0 msg = Some "I"%char.
Proof.
  destruct msg as [|c msg]; [discriminate|].
  destruct c as [[] [] [] [] [] [] [] []]; intros H; try reflexivity;
    cbn in H; discriminate H.
Qed.

(** C6. When [VALIDATE_IMAGE_FILES] is anything but the string [true]
    (unset included), the outcome of [validateCatalog] is the same for any
    two answers of [fs.existsSync] on image paths, the catalog file, the
    flags file and the variable being equal; and no error of the result is
    a file-not-found message. *)
Theorem toggle_off_ignores_image_files
    (catalog flags : option file_content) (toggle : option string)
    (fs1 fs2 : string -> bool) :
  toggle <> Some "true" ->
  let w1 := {| catalogFile := catalog; flagsFile := flags;
               VALIDATE_IMAGE_FILES := toggle; existsSync := fs1 |} in
  let w2 := {| catalogFile := catalog; flagsFile := flags;
               VALIDATE_IMAGE_FILES := toggle; existsSync := fs2 |} in
  validateCatalog w1 = validateCatalog w2
  /\ forall r, validateCatalog w1 = Returned r ->
               forall msg, In msg (errors r) -> isFileNotFound msg = false.
Proof.
  intros Htoggle w1 w2. subst w1 w2.
  assert (Hoff : forall fs,
             checkImageFiles {| catalogFile := catalog; flagsFile := flags;
                                VALIDATE_IMAGE_FILES := toggle;
                                existsSync := fs |} = false).
  { intros fs. unfold checkImageFiles. cbn. destruct toggle as [v|]; [|reflexivity].
    apply String.eqb_neq. congruence. }
  split.
  - unfold validateCatalog, validateCatalogBody.
    rewrite (Hoff fs1), (Hoff fs2). reflexivity.
  - intros r Hrun msg Hin.
    destruct (isFileNotFound msg) eqn:Hf; [exfalso|reflexivity].
    apply isFileNotFound_first in Hf.
    destruct (errors_sound _ r Hrun msg Hin)
      as [E|message E|parsed E Ha|drinks k d m E Hk Hm|drinks d m E Ht Hd Hm
          |drinks m E Hm]; try discriminate Hf.
    + apply entry_error_fromIndex, fromIndex_first in Hm. congruence.
    + rewrite (Hoff fs1) in Ht. discriminate Ht.
    + apply flags_error_first in Hm as [Hm|Hm]; congruence.
Qed.

(** * Thumbnail paths that do not match the image *)

Lemma sameWarnings_modifiers d i :
  respects sameWarnings (validateModifiersSupported d i).
Proof.
  apply respects_validateModifiersSupported with (Pe := fun _ => True);
    try (unfold labelled; intros; exact I).
  - intros st. reflexivity.
  - intros msg _ st a st' H. rewrite reportError_run in H.
    injection H as _ <-. reflexivity.
Qed.

(** The modifiersSupported rule neither reads nor writes the warnings. *)
Lemma modifiers_withWarnings d i ws st st'' :
  validateModifiersSupported d i (withWarnings ws st) = Returned (tt, st'') ->
  exists st', validateModifiersSupported d i st = Returned (tt, st')
              /\ st'' = withWarnings ws st'.
Proof.
  unfold validateModifiersSupported, when, reportLabelled.
  destruct (truthy (get d "modifiersSupported"));
    [|intros H; injection H as <-; exists st; split; reflexivity].
  destruct (notArrayOfStrings (get d "modifiersSupported"));
    [|intros H; injection H as <-; exists st; split; reflexivity].
  unfold bind. destruct (drinkLabel d) as [label|e]; cbn [liftOutcome];
    [|discriminate].
  unfold ret. rewrite !reportError_run. intros H. injection H as <-.
  eexists. split; reflexivity.
Qed.

Section Margarita.

Variables good bad : list (string * json).
Variable index : nat.

Hypothesis good_imagePath :
  assoc good "imagePath" = Some (JStr "drinks/margarita.png").
Hypothesis good_variants : assoc good "imageVariants" = Some goodVariants.
Hypothesis bad_variants : assoc bad "imageVariants" = Some badVariants.
Hypothesis same_fields :
  forall k, k <> "imageVariants" -> assoc bad k = assoc good k.

Lemma good_has_no_warning text : ~ field_warning (JObj good) text.
Proof.
  intros H. destruct H as [p Hp Hpng|v Hv Hk|v p k e Hv Hp Hin Ht Hn];
    cbn [get] in *.
  - rewrite good_imagePath in Hp. injection Hp as <-.
    vm_compute in Hpng. discriminate Hpng.
  - rewrite good_variants in Hv. injection Hv as <-.
    vm_compute in Hk. discriminate Hk.
  - rewrite good_variants in Hv. injection Hv as <-.
    rewrite good_imagePath in Hp. injection Hp as <-.
    cbn [In] in Hin.
    destruct Hin as [E|[E|[E|[E|[]]]]]; injection E as <- <-;
      vm_compute in Ht, Hn; discriminate.
Qed.

Lemma good_keeps_warnings :
  respects sameWarnings (validateDrink (JObj good) index).
Proof.
  apply respects_validateDrink with (Pe := fun _ => True) (Pw := fun _ => False).
  - intros st. reflexivity.
  - intros a b c Hab Hbc. unfold sameWarnings in *. congruence.
  - intros msg _ st a st' H. rewrite reportError_run in H.
    injection H as _ <-. reflexivity.
  - intros msg [].
  - intros id st a st' H. injection H as _ <-. reflexivity.
  - intros; exact I.
  - intros msg [label text _ _ Hw]. exact (good_has_no_warning _ Hw).
Qed.

Lemma bad_label : drinkLabel (JObj bad) = drinkLabel (JObj good).
Proof.
  unfold drinkLabel. cbn [get].
  rewrite (same_fields "id") by discriminate. reflexivity.
Qed.

Ltac agree :=
  unfold validateId, validateName, validateCategory, validatePopularity,
    validateAliases, validateImagePath, validateModifiersSupported,
    reportLabelled, warnLabelled;
  rewrite ?bad_label; cbn [get];
  rewrite ?(same_fields "id"), ?(same_fields "name"),
    ?(same_fields "category"), ?(same_fields "popularity"),
    ?(same_fields "aliases"), ?(same_fields "imagePath"),
    ?(same_fields "modifiersSupported") by discriminate;
  reflexivity.

Lemma bad_validateId :
  validateId (JObj bad) index = validateId (JObj good) index.
Proof. agree. Qed.

Lemma bad_validateName :
  validateName (JObj bad) index = validateName (JObj good) index.
Proof. agree. Qed.

Lemma bad_validateCategory :
  validateCategory (JObj bad) index = validateCategory (JObj good) index.
Proof. agree. Qed.

Lemma bad_validatePopularity :
  validatePopularity (JObj bad) index = validatePopularity (JObj good) index.
Proof. agree. Qed.

Lemma bad_validateAliases :
  validateAliases (JObj bad) index = validateAliases (JObj good) index.
Proof. agree. Qed.

Lemma bad_validateImagePath :
  validateImagePath (JObj bad) index = validateImagePath (JObj good) index.
Proof. agree. Qed.

Lemma bad_validateModifiersSupported :
  validateModifiersSupported (JObj bad) index
  = validateModifiersSupported (JObj good) index.
Proof. agree. Qed.

(** The variants rule does nothing on the matching paths ... *)
Lemma good_validateImageVariants st :
  validateImageVariants (JObj good) index st = Returned (tt, st).
Proof.
  unfold validateImageVariants. cbn [get].
  rewrite good_variants, good_imagePath. vm_compute. reflexivity.
Qed.

(** ... and pushes one warning, naming the expected path, on the others. *)
Lemma bad_validateImageVariants st :
  validateImageVariants (JObj bad) index st
  = warnLabelled (JObj good) index
      (text_should_be "sm" "drinks/_thumbs/margarita_512.png") st.
Proof.
  unfold validateImageVariants, validateVariant, checkExpected,
    reportLabelled, warnLabelled.
  cbn [get].
  rewrite bad_variants, (same_fields "imagePath"), good_imagePath by discriminate.
  rewrite bad_label.
  destruct (drinkLabel (JObj good)) as [label|e]; vm_compute; reflexivity.
Qed.

End Margarita.

(** ** Where warnings come from *)

Lemma pushesW_refl Pw st : pushesW Pw st st.
Proof. exists []. split; [symmetry; apply app_nil_r|constructor]. Qed.

Lemma pushesW_trans Pw a b c :
  pushesW Pw a b -> pushesW Pw b c -> pushesW Pw a c.
Proof.
  intros (e1 & E1 & F1) (e2 & E2 & F2). exists (e1 ++ e2). split.
  - rewrite E2, E1. symmetry. apply app_assoc.
  - apply Forall_app. split; assumption.
Qed.

Lemma pushesW_weaken (Pw Qw : string -> Prop) :
  (forall m, Pw m -> Qw m) ->
  forall {A : Type} (m : M A), respects (pushesW Pw) m -> respects (pushesW Qw) m.
Proof.
  intros H A m Hm st a st' Hrun. destruct (Hm st a st' Hrun) as (ws & E & F).
  exists ws. split; [exact E|]. eapply Forall_impl; [exact H|exact F].
Qed.

Lemma pushesW_error Pw msg : respects (pushesW Pw) (reportError msg).
Proof.
  intros st a st' H. rewrite reportError_run in H. injection H as _ <-.
  exists []. cbn. split; [symmetry; apply app_nil_r|constructor].
Qed.

Lemma pushesW_warning (Pw : string -> Prop) msg :
  Pw msg -> respects (pushesW Pw) (warnings_push msg).
Proof.
  intros Hm st a st' H. injection H as _ <-.
  exists [msg]. split; [reflexivity|]. constructor; [exact Hm|constructor].
Qed.

Lemma pushesW_add Pw id : respects (pushesW Pw) (seenIds_add id).
Proof.
  intros st a st' H. injection H as _ <-. exists []. cbn.
  split; [symmetry; apply app_nil_r|constructor].
Qed.

Lemma entry_warning_fromIndex d i msg : entry_warning d i msg -> fromIndex i msg.
Proof. intros []. apply fromIndex_labelled. Qed.

Lemma validateDrink_warnings d i :
  respects (pushesW (entry_warning d i)) (validateDrink d i).
Proof.
  apply respects_validateDrink
    with (Pe := fun _ => True) (Pw := entry_warning d i).
  - apply pushesW_refl.
  - apply pushesW_trans.
  - intros msg _. apply pushesW_error.
  - apply pushesW_warning.
  - apply pushesW_add.
  - intros; exact I.
  - intros msg H. exact H.
Qed.

(** The warnings of a returned run, cut at one entry as in [run_split]. *)
Lemma run_split_warnings w l1 d l2 r :
  catalogFile w = Some (Parsed (JArr (l1 ++ d :: l2))) ->
  validateCatalog w = Returned r ->
  exists st1 st2 after,
    validateDrink d (length l1) st1 = Returned (tt, st2)
    /\ warnings r = warnings (result st2) ++ after
    /\ Forall (fun m => ~ fromIndex (length l1) m) (warnings (result st1))
    /\ Forall (fun m => ~ fromIndex (length l1) m) after.
Proof.
  intros Hc H. apply validateCatalog_Returned in H as (st & Hrun & ->).
  unfold validateCatalogBody in Hrun. rewrite Hc in Hrun.
  apply bind_Returned in Hrun as ([] & s1 & H1 & Hrun).
  apply bind_Returned in Hrun as ([] & s2 & H2 & H3).
  rewrite forEach_app in H1.
  apply bind_Returned in H1 as ([] & st1 & Hl1 & H1).
  cbn [forEach Nat.add] in H1.
  apply bind_Returned in H1 as ([] & st2 & Hd & Hl2).
  assert (Hloop : forall l n k,
             (forall j, j < length l -> n + j <> k) ->
             respects (pushesW (fun m => ~ fromIndex k m))
                      (forEach validateDrink l n)).
  { intros l n k Hk. apply respects_forEach_indexed;
      [apply pushesW_refl|apply pushesW_trans|].
    intros j x Hj.
    apply (pushesW_weaken (entry_warning x (n + j)));
      [|apply validateDrink_warnings].
    intros m Hm Hf. apply entry_warning_fromIndex in Hm.
    pose proof (fromIndex_inj _ _ _ Hm Hf) as E.
    apply (Hk j); [apply nth_error_Some; congruence|exact E]. }
  assert (P1 : pushesW (fun m => ~ fromIndex (length l1) m) initialState st1).
  { by_respects Hl1. apply Hloop. intros j Hj. cbn. lia. }
  assert (P2 : pushesW (fun m => ~ fromIndex (length l1) m) st2 st).
  { apply pushesW_trans with s1; [|apply pushesW_trans with s2].
    - by_respects Hl2. apply Hloop. intros j Hj. lia.
    - by_respects H2. apply respects_when; [apply pushesW_refl|]. intros _.
      apply respects_forEach; [apply pushesW_refl|apply pushesW_trans|].
      intros x _ _.
      apply respects_checkImageFilesOf with (Pe := fun _ => True);
        [apply pushesW_refl|apply pushesW_trans| |intros; exact I].
      intros m _. apply pushesW_error.
    - by_respects H3.
      apply respects_validateFlags with (Pe := fun _ => True);
        [apply pushesW_refl|apply pushesW_trans| |intros; exact I].
      intros m _. apply pushesW_error. }
  destruct P1 as (ws1 & E1 & F1). destruct P2 as (after & E & F).
  exists st1, st2, after. repeat split; try assumption.
  cbn in E1. rewrite E1. exact F1.
Qed.

Lemma run_bind {A B : Type} (m : M A) (k : A -> M B) st a s :
  m st = Returned (a, s) -> bind m k st = k a s.
Proof. intros H. unfold bind. rewrite H. reflexivity. Qed.

(** The callback on the entry with the matching paths and on the entry with
    the other [sm] path. *)
Lemma mismatch_callback
    (good bad : list (string * json)) (index : nat) (st : vstate) :
  assoc good "imagePath" = Some (JStr "drinks/margarita.png") ->
  assoc good "imageVariants" = Some goodVariants ->
  assoc bad "imageVariants" = Some badVariants ->
  (forall k, k <> "imageVariants" -> assoc bad k = assoc good k) ->
  (forall st',
     validateDrink (JObj good) index st = Returned (tt, st') ->
     warnings (result st') = warnings (result st))
  /\ (forall st'',
        validateDrink (JObj bad) index st = Returned (tt, st'') ->
        exists label st',
          drinkLabel (JObj bad) = Returned label
          /\ validateDrink (JObj good) index st = Returned (tt, st')
          /\ st'' =
             withWarnings
               (warnings (result st)
                ++ [msg_labelled index label
                      (text_should_be "sm" "drinks/_thumbs/margarita_512.png")])
               st').
Proof.
  intros Hpath Hgood Hbad Hsame.
  assert (Hkeep : forall st',
             validateDrink (JObj good) index st = Returned (tt, st') ->
             warnings (result st') = warnings (result st)).
  { intros st' H. exact (good_keeps_warnings good index Hpath Hgood _ _ _ H). }
  split; [exact Hkeep|].
  intros st'' H.
  apply validateDrink_steps in H as (s & Hid & Hrest); [|reflexivity].
  apply fieldRules_steps in Hrest
    as (s1 & s2 & s3 & s4 & s5 & s6 & H1 & H2 & H3 & H4 & H5 & H6 & H7).
  rewrite (bad_validateId good bad index Hsame) in Hid.
  rewrite (bad_validateName good bad index Hsame) in H1.
  rewrite (bad_validateCategory good bad index Hsame) in H2.
  rewrite (bad_validatePopularity good bad index Hsame) in H3.
  rewrite (bad_validateAliases good bad index Hsame) in H4.
  rewrite (bad_validateImagePath good bad index Hsame) in H5.
  rewrite (bad_validateImageVariants good bad index Hpath Hbad Hsame) in H6.
  rewrite (bad_validateModifiersSupported good bad index Hsame) in H7.
  unfold warnLabelled in H6.
  apply bind_Returned in H6 as (label & s' & Hl & H6).
  apply liftOutcome_Returned in Hl as [Hl ->].
  injection H6 as <-.
  change (validateModifiersSupported (JObj good) index
            (withWarnings
               (warnings (result s5)
                ++ [msg_labelled index label
                      (text_should_be "sm" "drinks/_thumbs/margarita_512.png")])
               s5) = Returned (tt, st'')) in H7.
  apply modifiers_withWarnings in H7 as (st' & H7 & ->).
  assert (Hrun : validateDrink (JObj good) index st = Returned (tt, st')).
  { rewrite validateDrink_object by reflexivity.
    rewrite (run_bind _ _ _ _ _ Hid). unfold fieldRules.
    rewrite (run_bind _ _ _ _ _ H1), (run_bind _ _ _ _ _ H2),
      (run_bind _ _ _ _ _ H3), (run_bind _ _ _ _ _ H4),
      (run_bind _ _ _ _ _ H5).
    rewrite (run_bind _ _ _ _ _ (good_validateImageVariants good index
                                   Hpath Hgood s5)).
    exact H7. }
  exists label, st'. split; [|split; [exact Hrun|]].
  - rewrite (bad_label good bad Hsame). exact Hl.
  - rewrite <- (Hkeep _ Hrun).
    rewrite (sameWarnings_modifiers _ _ _ _ _ H7). reflexivity.
Qed.

(** * When the run returns *)

Lemma returns_ret {A : Type} (a : A) : returns (ret a).
Proof. intros st. exists a, st. reflexivity. Qed.

Lemma returns_bind {A B : Type} (m : M A) (k : A -> M B) :
  returns m -> (forall a, returns (k a)) -> returns (bind m k).
Proof.
  intros Hm Hk st. destruct (Hm st) as (a & s & E).
  destruct (Hk a s) as (b & s' & E'). exists b, s'.
  rewrite (run_bind _ _ _ _ _ E). exact E'.
Qed.

Lemma returns_when (b : bool) (m : M unit) :
  (b = true -> returns m) -> returns (when b m).
Proof. destruct b; cbn; intros H; [apply H; reflexivity|apply returns_ret]. Qed.

Lemma returns_forEach {A : Type} (f : A -> nat -> M unit) (l : list A) :
  forall n, (forall x k, In x l -> returns (f x k)) -> returns (forEach f l n).
Proof.
  induction l as [|x l IH]; intros n Hf; cbn.
  - apply returns_ret.
  - apply returns_bind; [apply Hf; left; reflexivity|].
    intros _. apply IH. intros y k Hy. apply Hf. right. exact Hy.
Qed.

Lemma returns_reportError msg : returns (reportError msg).
Proof. intros st. eexists _, _. apply reportError_run. Qed.

Lemma returns_warnings_push msg : returns (warnings_push msg).
Proof. intros st. eexists _, _. reflexivity. Qed.

Section Returns.

Variable d : json.
Variable index : nat.

(** The label of the entry can be printed. *)
Hypothesis label_prints : exists label, drinkLabel d = Returned label.

Lemma returns_reportLabelled text : returns (reportLabelled d index text).
Proof.
  destruct label_prints as (label & E). unfold reportLabelled. rewrite E.
  apply returns_bind; [apply returns_ret|]. intros l. apply returns_reportError.
Qed.

Lemma returns_warnLabelled text : returns (warnLabelled d index text).
Proof.
  destruct label_prints as (label & E). unfold warnLabelled. rewrite E.
  apply returns_bind; [apply returns_ret|]. intros l.
  apply returns_warnings_push.
Qed.

Lemma returns_validateId : returns (validateId d index).
Proof.
  intros st. destruct (validateId_run d index st) as (st' & E & _).
  exists tt, st'. exact E.
Qed.

Lemma returns_validateImagePath : returns (validateImagePath d index).
Proof.
  unfold validateImagePath.
  destruct (negb (truthy (get d "imagePath"))
            || negb (String.eqb (typeof (get d "imagePath")) "string"));
    [apply returns_reportLabelled|].
  destruct (get d "imagePath") as [[ | | |p| | ]|]; try apply returns_ret.
  apply returns_bind; [|intros _]; apply returns_when; intros _;
    [apply returns_reportLabelled|apply returns_warnLabelled].
Qed.

Lemma returns_validateVariant variants variantKey :
  returns (validateVariant d variants index variantKey).
Proof.
  unfold validateVariant.
  destruct (get variants variantKey) as [[ | | |p| | ]|];
    try apply returns_reportLabelled.
  destruct (String.eqb (trim p) ""); [apply returns_reportLabelled|].
  apply returns_when. intros _. apply returns_reportLabelled.
Qed.

(** The one guard the script lacks: the variants of an entry are only
    compared with the image path when that path is a string. *)
Hypothesis imagePath_guard :
  truthy (get d "imageVariants") = true ->
  typeof (get d "imageVariants") = "object" ->
  typeof (get d "imagePath") = "string".

Lemma returns_validateImageVariants : returns (validateImageVariants d index).
Proof.
  unfold validateImageVariants.
  destruct (truthy (get d "imageVariants")) eqn:Ht;
    [|apply returns_reportLabelled].
  destruct (String.eqb_spec (typeof (get d "imageVariants")) "object") as [Ho|Ho];
    [|apply returns_reportLabelled].
  cbn [negb orb].
  destruct (get d "imageVariants") as [variants|] eqn:Hv; [|apply returns_ret].
  specialize (imagePath_guard eq_refl Ho).
  destruct (get d "imagePath") as [[ | | |p| | ]|]; try discriminate imagePath_guard.
  apply returns_bind; [apply returns_when; intros _; apply returns_reportLabelled|].
  intros _.
  apply returns_bind; [apply returns_when; intros _; apply returns_warnLabelled|].
  intros _.
  apply returns_bind;
    [apply returns_forEach; intros k _ _; apply returns_validateVariant|].
  intros _.
  apply returns_bind; [apply returns_ret|]. intros ext.
  apply returns_bind; [apply returns_ret|]. intros base.
  repeat (apply returns_bind; [|intros _]);
    apply returns_when; intros _; apply returns_warnLabelled.
Qed.

Lemma returns_validateDrink : returns (validateDrink d index).
Proof.
  unfold validateDrink. destruct (notAnObject d); [apply returns_reportError|].
  apply returns_bind; [apply returns_validateId|]. intros _.
  apply returns_bind;
    [apply returns_when; intros _; apply returns_reportLabelled|]. intros _.
  apply returns_bind;
    [apply returns_when; intros _; apply returns_reportLabelled|]. intros _.
  apply returns_bind;
    [apply returns_when; intros _; apply returns_reportLabelled|]. intros _.
  apply returns_bind;
    [apply returns_when; intros _; apply returns_when; intros _;
     apply returns_reportLabelled|]. intros _.
  apply returns_bind; [apply returns_validateImagePath|]. intros _.
  apply returns_bind; [apply returns_validateImageVariants|]. intros _.
  apply returns_when; intros _; apply returns_when; intros _;
    apply returns_reportLabelled.
Qed.

End Returns.

Lemma returns_validateFlags flags : returns (validateFlags flags).
Proof.
  unfold validateFlags. destruct flags as [[message|parsed]|];
    [apply returns_reportError| |apply returns_ret].
  destruct (notAnObject parsed); [apply returns_reportError|].
  apply returns_bind; [|intros _]; apply returns_when; intros _;
    apply returns_reportError.
Qed.

(** X10. With the image file check off, [validateCatalog] returns a result
    as soon as every entry has a printable label and has a string imagePath
    whenever its imageVariants is an object.  (A non-object element needs
    neither: no label is printed for it.) *)
Theorem validateCatalog_returns (w : World) :
  checkImageFiles w = false ->
  (forall drinks d,
     catalogFile w = Some (Parsed (JArr drinks)) -> In d drinks ->
     notAnObject d = false ->
     (exists label, drinkLabel d = Returned label)
     /\ (truthy (get d "imageVariants") = true ->
         typeof (get d "imageVariants") = "object" ->
         typeof (get d "imagePath") = "string")) ->
  exists r, validateCatalog w = Returned r.
Proof.
  intros Hoff Hsafe.
  assert (H : returns (validateCatalogBody w)).
  { unfold validateCatalogBody.
    destruct (catalogFile w) as [[message|parsed]|] eqn:Hc;
      try apply returns_reportError.
    destruct parsed as [ | | | |drinks| ]; try apply returns_reportError.
    apply returns_bind.
    - apply returns_forEach. intros d k Hd.
      destruct (notAnObject d) eqn:Ho.
      + rewrite validateDrink_not_object by exact Ho. apply returns_reportError.
      + destruct (Hsafe drinks d eq_refl Hd Ho) as [Hl Hg].
        apply returns_validateDrink; assumption.
    - intros _. rewrite Hoff. apply returns_bind; [apply returns_ret|].
      intros _. apply returns_validateFlags. }
  destruct (H initialState) as ([] & st & E).
  exists (result st). unfold validateCatalog. rewrite E. reflexivity.
Qed.

(** * The rule of the richer revision *)

(** That rule accepts a boolean and an array of strings; the rule of
    [validate-catalog.ts] agrees with it on arrays and on [false], and
    differs on [true]. *)
Lemma richer_rule_accepts_booleans (b : bool) (l : list json) :
  modifiersSupportedRejected_richer (Some (JBool b)) = false
  /\ (everyString l = true ->
      modifiersSupportedRejected_richer (Some (JArr l)) = false)
  /\ truthy (Some (JBool true)) && notArrayOfStrings (Some (JBool true)) = true.
Proof.
  split; [reflexivity|]. split; [|reflexivity].
  intros H. unfold modifiersSupportedRejected_richer. cbn. rewrite H.
  reflexivity.
Qed.

(** * The messages of a run, exactly

    Each rule, when it returns, has pushed the messages its list names and
    nothing else. *)

Lemma pushed_refl st : pushed [] [] st st.
Proof. split; symmetry; apply app_nil_r. Qed.

Lemma pushed_trans e1 w1 e2 w2 a b c :
  pushed e1 w1 a b -> pushed e2 w2 b c -> pushed (e1 ++ e2) (w1 ++ w2) a c.
Proof.
  intros [E1 W1] [E2 W2]. split.
  - rewrite E2, E1. symmetry. apply app_assoc.
  - rewrite W2, W1. symmetry. apply app_assoc.
Qed.

Lemma pushed_eq e w e' w' st st' :
  e = e' -> w = w' -> pushed e w st st' -> pushed e' w' st st'.
Proof. intros -> ->. exact (fun H => H). Qed.

Lemma pushedLabelled_refl d i st : pushedLabelled d i [] [] st st.
Proof. split; [apply pushed_refl|constructor]. Qed.

Lemma pushedLabelled_trans d i t1 w1 t2 w2 a b c :
  pushedLabelled d i t1 w1 a b -> pushedLabelled d i t2 w2 b c ->
  pushedLabelled d i (t1 ++ t2) (w1 ++ w2) a c.
Proof.
  intros [P1 F1] [P2 F2]. split.
  - rewrite !map_app. eapply pushed_trans; eassumption.
  - apply Forall_app in F1 as [F1 G1]. apply Forall_app in F2 as [F2 G2].
    repeat (apply Forall_app; split); assumption.
Qed.

Lemma pushedLabelled_eq d i t w t' w' st st' :
  t = t' -> w = w' -> pushedLabelled d i t w st st' ->
  pushedLabelled d i t' w' st st'.
Proof. intros -> ->. exact (fun H => H). Qed.

Lemma labelOf_Returned d label :
  drinkLabel d = Returned label -> labelOf d = label.
Proof. intros H. unfold labelOf. rewrite H. reflexivity. Qed.

Lemma reportLabelled_pushed d i text st st' :
  reportLabelled d i text st = Returned (tt, st') ->
  pushedLabelled d i [text] [] st st'.
Proof.
  intros H. unfold reportLabelled in H.
  apply bind_Returned in H as (l & s & Hl & H).
  apply liftOutcome_Returned in Hl as [Hl ->].
  rewrite reportError_run in H. injection H as <-.
  split.
  - split; cbn; [rewrite (labelOf_Returned _ _ Hl); reflexivity|].
    symmetry. apply app_nil_r.
  - constructor; [exists l; exact Hl|constructor].
Qed.

Lemma warnLabelled_pushed d i text st st' :
  warnLabelled d i text st = Returned (tt, st') ->
  pushedLabelled d i [] [text] st st'.
Proof.
  intros H. unfold warnLabelled in H.
  apply bind_Returned in H as (l & s & Hl & H).
  apply liftOutcome_Returned in Hl as [Hl ->].
  injection H as <-.
  split.
  - split; cbn; [symmetry; apply app_nil_r|].
    rewrite (labelOf_Returned _ _ Hl). reflexivity.
  - constructor; [exists l; exact Hl|constructor].
Qed.

(** A guarded push: [when b (reportLabelled ...)] and its warning twin. *)
Lemma when_reportLabelled_pushed (b : bool) d i text st st' :
  when b (reportLabelled d i text) st = Returned (tt, st') ->
  pushedLabelled d i (if b then [text] else []) [] st st'.
Proof.
  destruct b; cbn [when]; intros H; [apply reportLabelled_pushed, H|].
  injection H as <-. apply pushedLabelled_refl.
Qed.

Lemma when_warnLabelled_pushed (b : bool) d i text st st' :
  when b (warnLabelled d i text) st = Returned (tt, st') ->
  pushedLabelled d i [] (if b then [text] else []) st st'.
Proof.
  destruct b; cbn [when]; intros H; [apply warnLabelled_pushed, H|].
  injection H as <-. apply pushedLabelled_refl.
Qed.

Lemma validateName_pushed d i st st' :
  validateName d i st = Returned (tt, st') ->
  pushedLabelled d i (nameErrors d) [] st st'.
Proof. apply when_reportLabelled_pushed. Qed.

Lemma validateCategory_pushed d i st st' :
  validateCategory d i st = Returned (tt, st') ->
  pushedLabelled d i (categoryErrors d) [] st st'.
Proof. apply when_reportLabelled_pushed. Qed.

Lemma validatePopularity_pushed d i st st' :
  validatePopularity d i st = Returned (tt, st') ->
  pushedLabelled d i (popularityErrors d) [] st st'.
Proof. apply when_reportLabelled_pushed. Qed.

Lemma nested_when (a b : bool) (m : M unit) :
  when a (when b m) = when (a && b) m.
Proof. destruct a, b; reflexivity. Qed.

Lemma validateAliases_pushed d i st st' :
  validateAliases d i st = Returned (tt, st') ->
  pushedLabelled d i (aliasesErrors d) [] st st'.
Proof.
  unfold validateAliases. cbv zeta. rewrite nested_when.
  apply when_reportLabelled_pushed.
Qed.

Lemma validateModifiersSupported_pushed d i st st' :
  validateModifiersSupported d i st = Returned (tt, st') ->
  pushedLabelled d i (modifiersErrors d) [] st st'.
Proof.
  unfold validateModifiersSupported. cbv zeta. rewrite nested_when.
  apply when_reportLabelled_pushed.
Qed.

Lemma validateImagePath_pushed d i st st' :
  validateImagePath d i st = Returned (tt, st') ->
  pushedLabelled d i (imagePathErrors d) (imagePathWarnings d) st st'.
Proof.
  unfold validateImagePath, imagePathErrors, imagePathWarnings. cbv zeta.
  destruct (negb (truthy (get d "imagePath"))
            || negb (String.eqb (typeof (get d "imagePath")) "string")).
  - apply reportLabelled_pushed.
  - destruct (get d "imagePath") as [[ | | |p| | ]|];
      try (intros H; injection H as <-; apply pushedLabelled_refl).
    intros H. apply bind_Returned in H as ([] & s & H1 & H2).
    apply when_reportLabelled_pushed in H1.
    apply when_warnLabelled_pushed in H2.
    pose proof (pushedLabelled_trans _ _ _ _ _ _ _ _ _ H1 H2) as H.
    revert H. apply pushedLabelled_eq.
    + destruct (startsWith p "drinks/"); reflexivity.
    + destruct (testPngExtension p); reflexivity.
Qed.

Lemma validateVariant_pushed d variants i k st st' :
  validateVariant d variants i k st = Returned (tt, st') ->
  pushedLabelled d i (variantErrors variants k) [] st st'.
Proof.
  unfold validateVariant, variantErrors.
  destruct (get variants k) as [[ | | |p| | ]|];
    try apply reportLabelled_pushed.
  destruct (String.eqb (trim p) ""); [apply reportLabelled_pushed|].
  intros H. apply when_reportLabelled_pushed in H. revert H.
  apply pushedLabelled_eq; [|reflexivity].
  destruct (startsWith p "drinks/_thumbs/"); reflexivity.
Qed.

Lemma forEach_validateVariant_pushed d variants i ks :
  forall n st st',
    forEach (fun k _ => validateVariant d variants i k) ks n st
    = Returned (tt, st') ->
    pushedLabelled d i (flat_map (variantErrors variants) ks) [] st st'.
Proof.
  induction ks as [|k ks IH]; intros n st st' H.
  - injection H as <-. apply pushedLabelled_refl.
  - cbn [forEach] in H. apply bind_Returned in H as ([] & s & H1 & H2).
    apply validateVariant_pushed in H1. apply IH in H2.
    exact (pushedLabelled_trans _ _ _ _ _ _ _ _ _ H1 H2).
Qed.

Lemma checkExpected_pushed d i variants k expected st st' :
  checkExpected d i k (get variants k) expected st = Returned (tt, st') ->
  pushedLabelled d i [] (expectedWarning variants k expected) st st'.
Proof. apply when_warnLabelled_pushed. Qed.

Lemma validateImageVariants_pushed d i st st' :
  validateImageVariants d i st = Returned (tt, st') ->
  pushedLabelled d i (imageVariantsErrors d) (imageVariantsWarnings d) st st'.
Proof.
  unfold validateImageVariants, imageVariantsErrors, imageVariantsWarnings.
  cbv zeta.
  destruct (negb (truthy (get d "imageVariants"))
            || negb (String.eqb (typeof (get d "imageVariants")) "object")).
  - apply reportLabelled_pushed.
  - destruct (get d "imageVariants") as [variants|];
      [|intros H; injection H as <-; apply pushedLabelled_refl].
    intros H.
    apply bind_Returned in H as ([] & s1 & H1 & H).
    apply bind_Returned in H as ([] & s2 & H2 & H).
    apply bind_Returned in H as ([] & s3 & H3 & H).
    apply bind_Returned in H as (ext & s4 & H4 & H).
    unfold path_extname in H4.
    destruct (get d "imagePath") as [[ | | |p| | ]|]; try discriminate H4.
    injection H4 as <- <-.
    apply bind_Returned in H as (base & s5 & H5 & H).
    injection H5 as <- <-.
    apply bind_Returned in H as ([] & s6 & H6 & H).
    apply bind_Returned in H as ([] & s7 & H7 & H).
    apply bind_Returned in H as ([] & s8 & H8 & H9).
    apply when_reportLabelled_pushed in H1.
    apply when_warnLabelled_pushed in H2.
    apply forEach_validateVariant_pushed in H3.
    apply checkExpected_pushed in H6, H7, H8, H9.
    pose proof (pushedLabelled_trans _ _ _ _ _ _ _ _ _ H8 H9) as P.
    pose proof (pushedLabelled_trans _ _ _ _ _ _ _ _ _ H7 P) as P7.
    pose proof (pushedLabelled_trans _ _ _ _ _ _ _ _ _ H6 P7) as P6.
    pose proof (pushedLabelled_trans _ _ _ _ _ _ _ _ _ H3 P6) as P3.
    pose proof (pushedLabelled_trans _ _ _ _ _ _ _ _ _ H2 P3) as P2.
    pose proof (pushedLabelled_trans _ _ _ _ _ _ _ _ _ H1 P2) as P1.
    revert P1. apply pushedLabelled_eq.
    + cbn [app]. rewrite app_nil_r. reflexivity.
    + reflexivity.
Qed.

Lemma fieldRules_pushed d i st st' :
  fieldRules d i st = Returned (tt, st') ->
  pushedLabelled d i (fieldErrors d) (fieldWarnings d) st st'.
Proof.
  intros H.
  apply fieldRules_steps in H
    as (s1 & s2 & s3 & s4 & s5 & s6 & H1 & H2 & H3 & H4 & H5 & H6 & H7).
  apply validateName_pushed in H1. apply validateCategory_pushed in H2.
  apply validatePopularity_pushed in H3. apply validateAliases_pushed in H4.
  apply validateImagePath_pushed in H5.
  apply validateImageVariants_pushed in H6.
  apply validateModifiersSupported_pushed in H7.
  pose proof (pushedLabelled_trans _ _ _ _ _ _ _ _ _ H6 H7) as P6.
  pose proof (pushedLabelled_trans _ _ _ _ _ _ _ _ _ H5 P6) as P5.
  pose proof (pushedLabelled_trans _ _ _ _ _ _ _ _ _ H4 P5) as P4.
  pose proof (pushedLabelled_trans _ _ _ _ _ _ _ _ _ H3 P4) as P3.
  pose proof (pushedLabelled_trans _ _ _ _ _ _ _ _ _ H2 P3) as P2.
  pose proof (pushedLabelled_trans _ _ _ _ _ _ _ _ _ H1 P2) as P1.
  revert P1. apply pushedLabelled_eq; [reflexivity|].
  unfold fieldWarnings. cbn [app]. rewrite app_nil_r. reflexivity.
Qed.

Lemma reportError_pushed msg st st' :
  reportError msg st = Returned (tt, st') -> pushed [msg] [] st st'.
Proof.
  rewrite reportError_run. intros H. injection H as <-.
  split; cbn; [reflexivity|symmetry; apply app_nil_r].
Qed.

Lemma when_reportError_pushed (b : bool) msg st st' :
  when b (reportError msg) st = Returned (tt, st') ->
  pushed (if b then [msg] else []) [] st st'.
Proof.
  destruct b; cbn [when]; [apply reportError_pushed|].
  intros H. injection H as <-. apply pushed_refl.
Qed.

(** The callback of the first loop. *)
Lemma validateDrink_pushed d i st st' :
  validateDrink d i st = Returned (tt, st') ->
  pushed (entryErrors (seenIds st) d i) (entryWarnings d i) st st'
  /\ seenIds st' = addSeen (seenIds st) d
  /\ (notAnObject d = false ->
      Forall (fun _ => printable d) (fieldErrors d ++ fieldWarnings d)).
Proof.
  intros H. pose proof (validateDrink_sound _ _ _ _ H) as [_ Hseen].
  split; [|split; [exact Hseen|]].
  - unfold entryErrors, entryWarnings. destruct (notAnObject d) eqn:Ho.
    + rewrite validateDrink_not_object in H by exact Ho.
      apply reportError_pushed, H.
    + apply validateDrink_steps in H as (s & Hid & Hrest); [|exact Ho].
      destruct (validateId_run d i st) as (s' & Hid' & Hw & Hcases).
      rewrite Hid' in Hid. injection Hid as ->.
      apply fieldRules_pushed in Hrest as [[E W] _].
      split.
      * rewrite E. unfold idErrors.
        destruct Hcases as [(Hc & He & _)|(id & Hg & Hc & He & _)];
          rewrite Hc, He; [|rewrite Hg]; rewrite <- ?app_assoc; reflexivity.
      * rewrite W, Hw. reflexivity.
  - intros Ho. apply validateDrink_steps in H as (s & _ & Hrest); [|exact Ho].
    apply fieldRules_pushed in Hrest as [_ F]. exact F.
Qed.

(** The first loop. *)
Lemma forEach_validateDrink_pushed drinks :
  forall n st st',
    forEach validateDrink drinks n st = Returned (tt, st') ->
    pushed (loopErrors (seenIds st) drinks n) (loopWarnings drinks n) st st'.
Proof.
  induction drinks as [|d drinks IH]; intros n st st' H.
  - injection H as <-. apply pushed_refl.
  - cbn [forEach] in H. apply bind_Returned in H as ([] & s & Hd & Hrest).
    apply validateDrink_pushed in Hd as (P & Hs & _).
    apply IH in Hrest. rewrite Hs in Hrest.
    exact (pushed_trans _ _ _ _ _ _ _ P Hrest).
Qed.

(** The second loop. *)
Lemma checkVariantFile_pushed fe id entry st st' :
  checkVariantFile fe id entry st = Returned (tt, st') ->
  pushed (variantFileErrors fe id entry) [] st st'.
Proof.
  destruct entry as [variant v].
  unfold checkVariantFile, variantFileErrors, path_join. cbn [fst snd].
  destruct v as [ | | |p| | ]; try (intros H; discriminate H).
  intros H. apply bind_Returned in H as (q & s & Hq & H).
  injection Hq as <- <-.
  destruct (fe p); cbn [negb when] in H.
  - injection H as <-. apply pushed_refl.
  - apply bind_Returned in H as (t & s & Ht & H).
    apply liftOutcome_Returned in Ht as [Ht ->].
    unfold idTextOf. rewrite Ht. apply reportError_pushed, H.
Qed.

Lemma forEach_checkVariantFile_pushed fe id l :
  forall n st st',
    forEach (fun entry _ => checkVariantFile fe id entry) l n st
    = Returned (tt, st') ->
    pushed (flat_map (variantFileErrors fe id) l) [] st st'.
Proof.
  induction l as [|x l IH]; intros n st st' H.
  - injection H as <-. apply pushed_refl.
  - cbn [forEach] in H. apply bind_Returned in H as ([] & s & H1 & H2).
    apply checkVariantFile_pushed in H1. apply IH in H2.
    exact (pushed_trans _ _ _ _ _ _ _ H1 H2).
Qed.

Lemma checkImageFilesOf_pushed fe d st st' :
  checkImageFilesOf fe d st = Returned (tt, st') ->
  pushed (imageFileErrors fe d) [] st st'.
Proof.
  intros Hrun. unfold checkImageFilesOf in Hrun.
  apply bind_Returned in Hrun as (id & s & Hid & Hrun).
  assert (Hm : forall k, member d k = ret (get d k)).
  { intros k. destruct d; try reflexivity. discriminate Hid. }
  rewrite Hm in Hid. injection Hid as <- <-.
  unfold imageFileErrors.
  destruct (truthy (get d "id")) eqn:Htid; cbn [negb] in Hrun.
  2:{ injection Hrun as <-.
      destruct (get d "id") as [id|]; [|apply pushed_refl].
      destruct (get d "imagePath") as [[ | | |p| | ]|]; try apply pushed_refl.
      rewrite Htid. apply pushed_refl. }
  apply bind_Returned in Hrun as (ip & s & Hip & Hrun).
  rewrite Hm in Hip. injection Hip as <- <-.
  destruct (get d "id") as [id|] eqn:Hgid; [|discriminate Htid].
  destruct (truthy (get d "imagePath")) eqn:Htip; cbn [negb] in Hrun.
  2:{ injection Hrun as <-.
      destruct (get d "imagePath") as [[ | | |p| | ]|]; try apply pushed_refl.
      rewrite Htip, andb_false_r. apply pushed_refl. }
  apply bind_Returned in Hrun as (p & s & Hp & Hrun).
  unfold path_join in Hp.
  destruct (get d "imagePath") as [[ | | |q| | ]|] eqn:Hgip;
    try discriminate Hp.
  injection Hp as <- <-.
  apply bind_Returned in Hrun as ([] & s1 & Hmain & Hrun).
  apply bind_Returned in Hrun as (iv & s2 & Hiv & Hrun).
  rewrite Hm in Hiv. injection Hiv as <- <-.
  rewrite Htid, Htip. cbn [andb].
  assert (P1 : pushed (if fe q then []
                       else [msg_image_missing q (idTextOf id)]) [] st s1).
  { destruct (fe q); cbn [negb when] in Hmain.
    - injection Hmain as <-. apply pushed_refl.
    - apply bind_Returned in Hmain as (t & s & Ht & Hmain).
      apply liftOutcome_Returned in Ht as [Ht ->].
      unfold idTextOf. rewrite Ht. apply reportError_pushed, Hmain. }
  assert (P2 : pushed
                 match get d "imageVariants" with
                 | Some variants =>
                     if truthy (Some variants)
                     then flat_map (variantFileErrors fe id) (entries variants)
                     else []
                 | None => []
                 end [] s1 st').
  { destruct (get d "imageVariants") as [variants|].
    - destruct (truthy (Some variants)); cbn [when] in Hrun.
      + apply forEach_checkVariantFile_pushed in Hrun. exact Hrun.
      + injection Hrun as <-. apply pushed_refl.
    - injection Hrun as <-. apply pushed_refl. }
  exact (pushed_trans _ _ _ _ _ _ _ P1 P2).
Qed.

Lemma forEach_checkImageFilesOf_pushed fe l :
  forall n st st',
    forEach (fun drink _ => checkImageFilesOf fe drink) l n st
    = Returned (tt, st') ->
    pushed (flat_map (imageFileErrors fe) l) [] st st'.
Proof.
  induction l as [|x l IH]; intros n st st' H.
  - injection H as <-. apply pushed_refl.
  - cbn [forEach] in H. apply bind_Returned in H as ([] & s & H1 & H2).
    apply checkImageFilesOf_pushed in H1. apply IH in H2.
    exact (pushed_trans _ _ _ _ _ _ _ H1 H2).
Qed.

(** The flags check. *)
Lemma validateFlags_pushed flags st st' :
  validateFlags flags st = Returned (tt, st') ->
  pushed (flagsErrors flags) [] st st'.
Proof.
  unfold validateFlags, flagsErrors. destruct flags as [[message|parsed]|].
  - apply reportError_pushed.
  - destruct (notAnObject parsed); [apply reportError_pushed|].
    intros H. apply bind_Returned in H as ([] & s & H1 & H2).
    apply when_reportError_pushed in H1, H2.
    exact (pushed_trans _ _ _ _ _ _ _ H1 H2).
  - intros H. injection H as <-. apply pushed_refl.
Qed.

(** The whole run on an array: the errors of the first loop, then those of
    the file check when it is on, then those of the flags check; the
    warnings of the first loop. *)
Lemma validateCatalog_pushed w drinks r :
  catalogFile w = Some (Parsed (JArr drinks)) ->
  validateCatalog w = Returned r ->
  errors r =
    loopErrors [] drinks 0
    ++ (if checkImageFiles w
        then flat_map (imageFileErrors (existsSync w)) drinks else [])
    ++ flagsErrors (flagsFile w)
  /\ warnings r = loopWarnings drinks 0.
Proof.
  intros Hc H. apply validateCatalog_Returned in H as (st & Hrun & ->).
  unfold validateCatalogBody in Hrun. rewrite Hc in Hrun.
  apply bind_Returned in Hrun as ([] & s1 & H1 & Hrun).
  apply bind_Returned in Hrun as ([] & s2 & H2 & H3).
  apply forEach_validateDrink_pushed in H1.
  apply validateFlags_pushed in H3.
  assert (P2 : pushed (if checkImageFiles w
                       then flat_map (imageFileErrors (existsSync w)) drinks
                       else []) [] s1 s2).
  { destruct (checkImageFiles w); cbn [when] in H2.
    - apply forEach_checkImageFilesOf_pushed in H2. exact H2.
    - injection H2 as <-. apply pushed_refl. }
  destruct (pushed_trans _ _ _ _ _ _ _ H1 (pushed_trans _ _ _ _ _ _ _ P2 H3))
    as [E W].
  cbn in E, W. rewrite app_nil_r in W. split; assumption.
Qed.

(** ** The messages of one entry in the result *)

(** The errors of the result that open with the prefix of an entry are the
    errors the callback pushed for it. *)
Lemma entry_errors_exact w drinks index d r m :
  catalogFile w = Some (Parsed (JArr drinks)) ->
  nth_error drinks index = Some d ->
  validateCatalog w = Returned r ->
  fromIndex index m ->
  (In m (errors r) <-> In m (entryErrors (seenBefore drinks index) d index)).
Proof.
  intros Hc Hn Hrun Hfrom.
  destruct (entry_run w drinks index d r Hc Hn Hrun)
    as (st1 & st2 & Hs & Hd & Hkeep & Hiso).
  apply validateDrink_pushed in Hd as ([E _] & _). rewrite Hs in E.
  destruct (Hiso m Hfrom) as [Hnot Hback]. split.
  - intros Hin. apply Hback in Hin. rewrite E in Hin.
    apply in_app_or in Hin as [Hin|Hin]; [destruct (Hnot Hin)|exact Hin].
  - intros Hin. apply Hkeep. rewrite E. apply in_or_app. right. exact Hin.
Qed.

Lemma entry_warnings_exact w drinks index d r m :
  catalogFile w = Some (Parsed (JArr drinks)) ->
  nth_error drinks index = Some d ->
  validateCatalog w = Returned r ->
  fromIndex index m ->
  (In m (warnings r) <-> In m (entryWarnings d index)).
Proof.
  intros Hc Hn Hrun Hfrom.
  destruct (nth_error_split _ _ Hn) as (l1 & l2 & -> & <-).
  destruct (run_split_warnings w l1 d l2 r Hc Hrun)
    as (st1 & st2 & after & Hd & E & F1 & F2).
  apply validateDrink_pushed in Hd as ([_ W] & _).
  rewrite Forall_forall in F1, F2. rewrite E, W, !in_app_iff. split.
  - intros [[H|H]|H]; [destruct (F1 _ H Hfrom)|exact H|destruct (F2 _ H Hfrom)].
  - intros H. left. right. exact H.
Qed.

(** The label of an entry was printed as soon as one of the rules that
    follow the id rule had something to say. *)
Lemma entry_label_printed w drinks index d r text :
  catalogFile w = Some (Parsed (JArr drinks)) ->
  nth_error drinks index = Some d ->
  notAnObject d = false ->
  validateCatalog w = Returned r ->
  In text (fieldErrors d ++ fieldWarnings d) ->
  printable d.
Proof.
  intros Hc Hn Ho Hrun Hin.
  destruct (entry_run w drinks index d r Hc Hn Hrun)
    as (st1 & st2 & _ & Hd & _).
  apply validateDrink_pushed in Hd as (_ & _ & F).
  specialize (F Ho). rewrite Forall_forall in F. exact (F _ Hin).
Qed.

Lemma msg_labelled_inj index label t1 t2 :
  msg_labelled index label t1 = msg_labelled index label t2 -> t1 = t2.
Proof.
  unfold msg_labelled. intros E.
  apply append_inv_head in E. cbn in E. injection E as E.
  apply append_inv_head in E. cbn in E. injection E as E. exact E.
Qed.

Lemma labelled_in_entryErrors seen d i label text :
  notAnObject d = false -> drinkLabel d = Returned label ->
  (In (msg_labelled i label text) (entryErrors seen d i)
   <-> In text (fieldErrors d)).
Proof.
  intros Ho Hl. unfold entryErrors. rewrite Ho, in_app_iff.
  rewrite (labelOf_Returned _ _ Hl). split.
  - intros [H|H].
    + unfold idErrors in H.
      destruct (notNonEmptyString (get d "id")).
      * destruct H as [E|[]]. same_entry E. discriminate E.
      * destruct (get d "id") as [[ | | |id| | ]|]; try destruct H.
        apply in_app_or in H as [H|H].
        -- destruct (includes seen id); [|destruct H].
           destruct H as [E|[]]. same_entry E. discriminate E.
        -- destruct (testSnakeCase id); [destruct H|].
           destruct H as [E|[]]. same_entry E. discriminate E.
    + apply in_map_iff in H as (t & E & Hin).
      apply msg_labelled_inj in E. subst t. exact Hin.
  - intros H. right. apply in_map, H.
Qed.

Lemma labelled_in_entryWarnings d i label text :
  notAnObject d = false -> drinkLabel d = Returned label ->
  (In (msg_labelled i label text) (entryWarnings d i)
   <-> In text (fieldWarnings d)).
Proof.
  intros Ho Hl. unfold entryWarnings. rewrite Ho.
  rewrite (labelOf_Returned _ _ Hl). split.
  - intros H. apply in_map_iff in H as (t & E & Hin).
    apply msg_labelled_inj in E. subst t. exact Hin.
  - apply in_map.
Qed.

(** A labelled error is in the result exactly when its text is one of the
    texts of the entry; likewise for a labelled warning. *)
Lemma labelled_error_iff w drinks index d r label text :
  catalogFile w = Some (Parsed (JArr drinks)) ->
  nth_error drinks index = Some d ->
  notAnObject d = false ->
  validateCatalog w = Returned r ->
  drinkLabel d = Returned label ->
  (In (msg_labelled index label text) (errors r) <-> In text (fieldErrors d)).
Proof.
  intros Hc Hn Ho Hrun Hl.
  rewrite (entry_errors_exact w drinks index d r _ Hc Hn Hrun
             (fromIndex_labelled _ _ _)).
  apply labelled_in_entryErrors; assumption.
Qed.

Lemma labelled_warning_iff w drinks index d r label text :
  catalogFile w = Some (Parsed (JArr drinks)) ->
  nth_error drinks index = Some d ->
  notAnObject d = false ->
  validateCatalog w = Returned r ->
  drinkLabel d = Returned label ->
  (In (msg_labelled index label text) (warnings r)
   <-> In text (fieldWarnings d)).
Proof.
  intros Hc Hn Ho Hrun Hl.
  rewrite (entry_warnings_exact w drinks index d r _ Hc Hn Hrun
             (fromIndex_labelled _ _ _)).
  apply labelled_in_entryWarnings; assumption.
Qed.

(** Read a message spelled out in a statement as the labelled message of
    [text]. *)
Ltac as_labelled index label text :=
  match goal with
  | |- context [?m] =>
      match m with
      | String.append "Drink at index " _ =>
          change m with (msg_labelled index label text)
      end
  end.

(** Take [H : In t l] apart, [l] being built from the lists of the rules:
    one goal per message the list can hold, with the conditions under which
    it holds it. *)
Ltac in_list H :=
  repeat
    match type of H with
    | In _ (_ ++ _) => apply in_app_or in H; destruct H as [H|H]
    | In _ (flat_map _ _) =>
        let k := fresh "k" in
        let Hk := fresh "Hk" in
        apply in_flat_map in H; destruct H as (k & Hk & H)
    | In _ [] => destruct H
    | In _ (_ :: _) => destruct H as [H|H]
    | In _ (fieldErrors _) => unfold fieldErrors in H
    | In _ (fieldWarnings _) => unfold fieldWarnings in H
    | In _ (nameErrors _) => unfold nameErrors in H
    | In _ (categoryErrors _) => unfold categoryErrors in H; cbv zeta in H
    | In _ (popularityErrors _) => unfold popularityErrors in H
    | In _ (aliasesErrors _) => unfold aliasesErrors in H; cbv zeta in H
    | In _ (imagePathErrors _) => unfold imagePathErrors in H; cbv zeta in H
    | In _ (imagePathWarnings _) =>
        unfold imagePathWarnings in H; cbv zeta in H
    | In _ (imageVariantsErrors _) =>
        unfold imageVariantsErrors in H; cbv zeta in H
    | In _ (imageVariantsWarnings _) =>
        unfold imageVariantsWarnings in H; cbv zeta in H
    | In _ (modifiersErrors _) => unfold modifiersErrors in H; cbv zeta in H
    | In _ (variantErrors _ _) => unfold variantErrors in H
    | In _ (expectedWarning _ _ _) =>
        unfold expectedWarning in H; cbv zeta in H
    | In _ (match ?x with _ => _ end) => destruct x eqn:?
    end.

(** Close a goal whose hypothesis [E] equates two different texts: the
    texts of the rules differ within their first twenty characters. *)
Ltac other_text E :=
  exfalso; apply (f_equal (String.substring 0 20)) in E; lazy in E;
  discriminate E.

Lemma notNonEmptyString_string (s : string) :
  notNonEmptyString (Some (JStr s)) = String.eqb (trim s) "".
Proof. destruct s; reflexivity. Qed.

(** X1. The name rule: for an entry that is an object, the error
    [name must be a non-empty string] is in the result exactly when the
    name is missing, falsy, not a string, or a string that trimming leaves
    empty.  In particular a name made of white space is rejected. *)
Theorem name_error_iff_not_a_non_empty_string
    (w : World) (drinks : list json) (index : nat) (d : json)
    (r : ValidationResult) (label : string) :
  catalogFile w = Some (Parsed (JArr drinks)) ->
  nth_error drinks index = Some d ->
  notAnObject d = false ->
  validateCatalog w = Returned r ->
  drinkLabel d = Returned label ->
  (In ("Drink at index " +++ string_of_nat index +++ " (" +++ label
          +++ "): name must be a non-empty string") (errors r)
   <-> notNonEmptyString (get d "name") = true)
  /\ (forall s, get d "name" = Some (JStr s) ->
        (In ("Drink at index " +++ string_of_nat index +++ " (" +++ label
          +++ "): name must be a non-empty string") (errors r)
         <-> trim s = ""))
  /\ (get d "name" = None ->
      In ("Drink at index " +++ string_of_nat index +++ " (" +++ label
          +++ "): name must be a non-empty string") (errors r)).
Proof.
  as_labelled index label text_name.
  intros Hc Hn Ho Hrun Hl.
  assert (Hiff : In (msg_labelled index label text_name) (errors r)
                 <-> notNonEmptyString (get d "name") = true).
  { rewrite (labelled_error_iff w drinks index d r label _ Hc Hn Ho Hrun Hl).
    split.
    - intros H. in_list H; try (other_text H + (subst; other_text H)).
      reflexivity.
    - intros H. unfold fieldErrors, nameErrors. rewrite H. left. reflexivity. }
  split; [exact Hiff|]. split.
  - intros s Hs. rewrite Hiff, Hs, notNonEmptyString_string.
    apply String.eqb_eq.
  - intros E. apply Hiff. rewrite E. reflexivity.
Qed.

(** X2. The category rule: the error [category must be a string] is in the
    result exactly when the category is missing, falsy or not a string.
    The rule does not trim: of the strings only the empty one is rejected,
    so a category made of white space passes where such a name does not. *)
Theorem category_error_iff_not_a_string
    (w : World) (drinks : list json) (index : nat) (d : json)
    (r : ValidationResult) (label : string) :
  catalogFile w = Some (Parsed (JArr drinks)) ->
  nth_error drinks index = Some d ->
  notAnObject d = false ->
  validateCatalog w = Returned r ->
  drinkLabel d = Returned label ->
  (In ("Drink at index " +++ string_of_nat index +++ " (" +++ label
          +++ "): category must be a string") (errors r)
   <-> negb (truthy (get d "category"))
       || negb (String.eqb (typeof (get d "category")) "string") = true)
  /\ (forall s, get d "category" = Some (JStr s) ->
        (In ("Drink at index " +++ string_of_nat index +++ " (" +++ label
          +++ "): category must be a string") (errors r) <-> s = ""))
  /\ (get d "category" = Some (JStr " ") ->
      ~ In ("Drink at index " +++ string_of_nat index +++ " (" +++ label
          +++ "): category must be a string") (errors r)).
Proof.
  as_labelled index label text_category.
  intros Hc Hn Ho Hrun Hl.
  assert (Hiff : In (msg_labelled index label text_category) (errors r)
                 <-> negb (truthy (get d "category"))
                     || negb (String.eqb (typeof (get d "category")) "string")
                     = true).
  { rewrite (labelled_error_iff w drinks index d r label _ Hc Hn Ho Hrun Hl).
    split.
    - intros H. in_list H; try (other_text H + (subst; other_text H)).
      reflexivity.
    - intros H. unfold fieldErrors, categoryErrors. cbv zeta. rewrite H.
      rewrite !in_app_iff. right. left. left. reflexivity. }
  assert (Hstr : forall s, get d "category" = Some (JStr s) ->
            (In (msg_labelled index label text_category) (errors r)
             <-> s = "")).
  { intros s Hs. rewrite Hiff, Hs. cbn. rewrite orb_false_r, negb_involutive.
    apply String.eqb_eq. }
  split; [exact Hiff|]. split; [exact Hstr|].
  intros Hs Hin. apply (Hstr _ Hs) in Hin. discriminate Hin.
Qed.

(** X3. The aliases rule: the error
    [aliases must be an array of strings if provided] is in the result
    exactly when aliases is truthy and is not an array whose elements are
    all strings.  A missing field, [null], [false], [0] and the empty string
    count as not provided; an array of strings, the empty array included, is
    accepted. *)
Theorem aliases_error_iff_truthy_and_not_strings
    (w : World) (drinks : list json) (index : nat) (d : json)
    (r : ValidationResult) (label : string) :
  catalogFile w = Some (Parsed (JArr drinks)) ->
  nth_error drinks index = Some d ->
  notAnObject d = false ->
  validateCatalog w = Returned r ->
  drinkLabel d = Returned label ->
  (In ("Drink at index " +++ string_of_nat index +++ " (" +++ label
          +++ "): aliases must be an array of strings if provided") (errors r)
   <-> truthy (get d "aliases") = true
       /\ notArrayOfStrings (get d "aliases") = true)
  /\ (truthy (get d "aliases") = false ->
      ~ In ("Drink at index " +++ string_of_nat index +++ " (" +++ label
          +++ "): aliases must be an array of strings if provided") (errors r))
  /\ (forall l, get d "aliases" = Some (JArr l) ->
        (In ("Drink at index " +++ string_of_nat index +++ " (" +++ label
          +++ "): aliases must be an array of strings if provided") (errors r)
         <-> everyString l = false)).
Proof.
  as_labelled index label text_aliases.
  intros Hc Hn Ho Hrun Hl.
  assert (Hiff : In (msg_labelled index label text_aliases) (errors r)
                 <-> truthy (get d "aliases") = true
                     /\ notArrayOfStrings (get d "aliases") = true).
  { rewrite (labelled_error_iff w drinks index d r label _ Hc Hn Ho Hrun Hl).
    rewrite <- andb_true_iff. split.
    - intros H. in_list H; try (other_text H + (subst; other_text H)).
      reflexivity.
    - intros H. unfold fieldErrors, aliasesErrors. cbv zeta. rewrite H.
      rewrite !in_app_iff. do 3 right. left. left. reflexivity. }
  split; [exact Hiff|]. split.
  - intros Hf Hin. apply Hiff in Hin as [Ht _]. congruence.
  - intros l E. rewrite Hiff, E. cbn. rewrite negb_true_iff.
    split; [intros [_ H]; exact H|intros H; split; [reflexivity|exact H]].
Qed.

(** X4. The imagePath rules: [imagePath must be a string] is in the result
    exactly when the field is missing, falsy (the empty string included) or
    not a string; for a string, [imagePath must start with "drinks/"] is in
    the result exactly when the string is not empty and does not start with
    [drinks/].  The two errors never come together. *)
Theorem imagePath_errors_iff
    (w : World) (drinks : list json) (index : nat) (d : json)
    (r : ValidationResult) (label : string) :
  catalogFile w = Some (Parsed (JArr drinks)) ->
  nth_error drinks index = Some d ->
  notAnObject d = false ->
  validateCatalog w = Returned r ->
  drinkLabel d = Returned label ->
  (In ("Drink at index " +++ string_of_nat index +++ " (" +++ label
          +++ "): imagePath must be a string") (errors r)
   <-> negb (truthy (get d "imagePath"))
       || negb (String.eqb (typeof (get d "imagePath")) "string") = true)
  /\ (forall p, get d "imagePath" = Some (JStr p) ->
        (In ("Drink at index " +++ string_of_nat index +++ " (" +++ label
          +++ "): imagePath must start with " +++ dquote +++ "drinks/"
          +++ dquote) (errors r)
         <-> p <> "" /\ startsWith p "drinks/" = false))
  /\ ~ (In ("Drink at index " +++ string_of_nat index +++ " (" +++ label
          +++ "): imagePath must be a string") (errors r)
        /\ In ("Drink at index " +++ string_of_nat index +++ " (" +++ label
          +++ "): imagePath must start with " +++ dquote +++ "drinks/"
          +++ dquote) (errors r)).
Proof.
  as_labelled index label text_imagePath.
  as_labelled index label text_imagePath_prefix.
  intros Hc Hn Ho Hrun Hl.
  pose proof (labelled_error_iff w drinks index d r label text_imagePath
                Hc Hn Ho Hrun Hl) as H1.
  pose proof (labelled_error_iff w drinks index d r label text_imagePath_prefix
                Hc Hn Ho Hrun Hl) as H2.
  assert (Hstring : In text_imagePath (fieldErrors d)
                    <-> negb (truthy (get d "imagePath"))
                        || negb (String.eqb (typeof (get d "imagePath")) "string")
                        = true).
  { split.
    - intros H. in_list H; try (other_text H + (subst; other_text H)).
      reflexivity.
    - intros H. unfold fieldErrors, imagePathErrors. cbv zeta. rewrite H.
      rewrite !in_app_iff. do 4 right. left. left. reflexivity. }
  assert (Hprefix : In text_imagePath_prefix (fieldErrors d)
                    <-> exists p, get d "imagePath" = Some (JStr p)
                                  /\ p <> "" /\ startsWith p "drinks/" = false).
  { split.
    - intros H. in_list H; try (other_text H + (subst; other_text H)).
      match goal with
      | Hg : get d "imagePath" = Some (JStr ?p) |- _ => exists p
      end.
      split; [reflexivity|]. split; [|assumption].
      intros ->. match goal with Hb : _ || _ = false |- _ => discriminate Hb end.
    - intros (p & E & Hne & Hs). unfold fieldErrors, imagePathErrors.
      cbv zeta. rewrite E, Hs.
      destruct p as [|c p]; [destruct Hne; reflexivity|].
      rewrite !in_app_iff. do 4 right. left. left. reflexivity. }
  split; [rewrite H1; exact Hstring|]. split.
  - intros p E. rewrite H2, Hprefix. split.
    + intros (q & Eq & Hq). rewrite E in Eq. injection Eq as <-. exact Hq.
    + intros Hq. exists p. split; [exact E|exact Hq].
  - intros [Ha Hb]. apply H1, Hstring in Ha. apply H2, Hprefix in Hb.
    destruct Hb as (p & E & Hne & _). rewrite E in Ha.
    destruct p as [|c p]; [destruct Hne; reflexivity|discriminate Ha].
Qed.

Lemma lowerString_append (a b : string) :
  lowerString (a +++ b) = lowerString a +++ lowerString b.
Proof. induction a as [|c a IH]; cbn; [reflexivity|rewrite IH; reflexivity]. Qed.

(** The pattern [/\.(png)$/i] accepts the extension in either case. *)
Lemma testPngExtension_suffix (stem ext : string) :
  lowerString ext = ".png" -> testPngExtension (stem +++ ext) = true.
Proof.
  intros E. unfold testPngExtension. rewrite lowerString_append, E.
  apply endsWith_append.
Qed.

(** X5. The extension of imagePath: for a string imagePath the warning
    [imagePath should be a .png file for consistency] is in the result
    exactly when the string is not empty and does not end in [.png], the
    case of the letters being ignored.  It is a warning, never an error:
    no error of the result carries this text. *)
Theorem png_warning_iff_other_extension
    (w : World) (drinks : list json) (index : nat) (d : json)
    (r : ValidationResult) (label p : string) :
  catalogFile w = Some (Parsed (JArr drinks)) ->
  nth_error drinks index = Some d ->
  notAnObject d = false ->
  validateCatalog w = Returned r ->
  drinkLabel d = Returned label ->
  get d "imagePath" = Some (JStr p) ->
  (In ("Drink at index " +++ string_of_nat index +++ " (" +++ label
          +++ "): imagePath should be a .png file for consistency") (warnings r)
   <-> p <> "" /\ testPngExtension p = false)
  /\ (forall stem ext, p = stem +++ ext -> lowerString ext = ".png" ->
        ~ In ("Drink at index " +++ string_of_nat index +++ " (" +++ label
          +++ "): imagePath should be a .png file for consistency") (warnings r))
  /\ ~ In ("Drink at index " +++ string_of_nat index +++ " (" +++ label
          +++ "): imagePath should be a .png file for consistency") (errors r).
Proof.
  as_labelled index label text_imagePath_png.
  intros Hc Hn Ho Hrun Hl Hp.
  assert (Hiff : In (msg_labelled index label text_imagePath_png) (warnings r)
                 <-> p <> "" /\ testPngExtension p = false).
  { rewrite (labelled_warning_iff w drinks index d r label _ Hc Hn Ho Hrun Hl).
    split.
    - intros H. in_list H; try (other_text H + (subst; other_text H));
        try discriminate Hp.
      injection Hp as ->. split; [|assumption].
      intros ->. match goal with Hb : _ || _ = false |- _ => discriminate Hb end.
    - intros [Hne Hpng]. unfold fieldWarnings, imagePathWarnings. cbv zeta.
      rewrite Hp, Hpng. destruct p as [|c p]; [destruct Hne; reflexivity|].
      rewrite in_app_iff. left. left. reflexivity. }
  split; [exact Hiff|]. split.
  - intros stem ext -> Hext Hin. apply Hiff in Hin as [_ Hpng].
    rewrite (testPngExtension_suffix _ _ Hext) in Hpng. discriminate Hpng.
  - rewrite (labelled_error_iff w drinks index d r label _ Hc Hn Ho Hrun Hl).
    intros H. in_list H; other_text H + (subst; other_text H).
Qed.

(** X6. The shape of imageVariants: [imageVariants must be an object] is in
    the result exactly when the field is missing, falsy or not of type
    object; when it is an object, [imageVariants must contain at least one
    variant] is in the result exactly when it has no key.  An array is an
    object for this rule, so the empty array gets the second error. *)
Theorem imageVariants_shape_errors_iff
    (w : World) (drinks : list json) (index : nat) (d : json)
    (r : ValidationResult) (label : string) :
  catalogFile w = Some (Parsed (JArr drinks)) ->
  nth_error drinks index = Some d ->
  notAnObject d = false ->
  validateCatalog w = Returned r ->
  drinkLabel d = Returned label ->
  (In ("Drink at index " +++ string_of_nat index +++ " (" +++ label
          +++ "): imageVariants must be an object") (errors r)
   <-> negb (truthy (get d "imageVariants"))
       || negb (String.eqb (typeof (get d "imageVariants")) "object") = true)
  /\ (forall variants,
        get d "imageVariants" = Some variants ->
        negb (truthy (Some variants))
        || negb (String.eqb (typeof (Some variants)) "object") = false ->
        (In ("Drink at index " +++ string_of_nat index +++ " (" +++ label
          +++ "): imageVariants must contain at least one variant") (errors r)
         <-> keys variants = []))
  /\ (get d "imageVariants" = Some (JArr []) ->
      In ("Drink at index " +++ string_of_nat index +++ " (" +++ label
          +++ "): imageVariants must contain at least one variant") (errors r)
      /\ ~ In ("Drink at index " +++ string_of_nat index +++ " (" +++ label
          +++ "): imageVariants must be an object") (errors r)).
Proof.
  as_labelled index label text_variants_object.
  as_labelled index label text_variants_empty.
  intros Hc Hn Ho Hrun Hl.
  pose proof (labelled_error_iff w drinks index d r label text_variants_object
                Hc Hn Ho Hrun Hl) as H1.
  pose proof (labelled_error_iff w drinks index d r label text_variants_empty
                Hc Hn Ho Hrun Hl) as H2.
  assert (Hobject : In text_variants_object (fieldErrors d)
                    <-> negb (truthy (get d "imageVariants"))
                        || negb (String.eqb (typeof (get d "imageVariants"))
                                            "object") = true).
  { split.
    - intros H. in_list H; try (other_text H + (subst; other_text H)).
      reflexivity.
    - intros H. unfold fieldErrors, imageVariantsErrors. cbv zeta. rewrite H.
      rewrite !in_app_iff. do 5 right. left. left. reflexivity. }
  assert (Hempty : forall variants,
            get d "imageVariants" = Some variants ->
            negb (truthy (Some variants))
            || negb (String.eqb (typeof (Some variants)) "object") = false ->
            (In text_variants_empty (fieldErrors d) <-> keys variants = [])).
  { intros variants Hv Hobj. split.
    - intros H. in_list H; try (other_text H + (subst; other_text H));
        try congruence.
      match goal with
      | Hk : (length (keys ?v) =? 0) = true |- _ =>
          apply Nat.eqb_eq in Hk; assert (v = variants) by congruence; subst v;
          destruct (keys variants); [reflexivity|discriminate Hk]
      end.
    - intros Hk. unfold fieldErrors, imageVariantsErrors. cbv zeta.
      rewrite Hv, Hobj, Hk. rewrite !in_app_iff. do 5 right. left. left. left.
      reflexivity. }
  split; [rewrite H1; exact Hobject|]. split.
  - intros variants Hv Hobj. rewrite H2. apply Hempty; assumption.
  - intros Hv. split.
    + apply H2. apply (Hempty _ Hv); reflexivity.
    + rewrite H1, Hobject, Hv. discriminate.
Qed.

Lemma text_variant_string_inj a b :
  text_variant_string a = text_variant_string b -> a = b.
Proof.
  unfold text_variant_string. intros E. apply append_inv_head in E.
  apply append_inv_tail in E. exact E.
Qed.

Lemma text_variant_prefix_inj a b :
  text_variant_prefix a = text_variant_prefix b -> a = b.
Proof.
  unfold text_variant_prefix. intros E. apply append_inv_head in E.
  apply append_inv_tail in E. exact E.
Qed.

Lemma text_variant_clash a b : text_variant_string a <> text_variant_prefix b.
Proof.
  intros E.
  pose proof (hasSuffix_clash (text_variant_string a) tail_variant_string
                tail_variant_prefix (hasSuffix_variant_string a)) as H.
  rewrite E in H. specialize (H (hasSuffix_variant_prefix b)).
  vm_compute in H. discriminate H.
Qed.

(** What the callback of [variantKeys.forEach] says about one key. *)
Lemma variant_texts_in_fieldErrors d variants k :
  get d "imageVariants" = Some variants ->
  negb (truthy (Some variants))
  || negb (String.eqb (typeof (Some variants)) "object") = false ->
  In k (keys variants) ->
  forall t, t = text_variant_string k \/ t = text_variant_prefix k ->
            (In t (fieldErrors d) <-> In t (variantErrors variants k)).
Proof.
  intros Hv Hobj Hk t Ht. split.
  - intros H. in_list H;
      try (destruct Ht; subst; other_text H);
      try congruence;
      match goal with
      | Hj : get d "imageVariants" = Some ?j |- _ =>
          assert (j = variants) by congruence; subst j
      end;
      match goal with
      | Hg : get variants ?k0 = _ |- _ =>
          assert (k0 = k);
          [ destruct Ht as [-> | ->];
            first [ apply text_variant_string_inj; congruence
                  | apply text_variant_prefix_inj; congruence
                  | exfalso; eapply text_variant_clash; eassumption
                  | exfalso; eapply text_variant_clash; symmetry; eassumption ]
          | subst k0; unfold variantErrors; rewrite Hg;
            rewrite ?String.eqb_refl;
            repeat match goal with
                   | Hc : ?c = _ |- context [if ?c then _ else _] => rewrite Hc
                   end;
            left; assumption ]
      end.
  - intros H. unfold fieldErrors, imageVariantsErrors. cbv zeta.
    rewrite Hv, Hobj, !in_app_iff. do 5 right. left. right.
    apply in_flat_map. exists k. split; assumption.
Qed.

(** X7. The values of imageVariants: for a key [k] of an imageVariants
    object, [imageVariants.k must be a non-empty string] is in the result
    exactly when the value under [k] is not a string or is a string that
    trimming leaves empty; [imageVariants.k must start with
    "drinks/_thumbs/"] is in the result exactly when the value is a string,
    not empty once trimmed, that does not start with [drinks/_thumbs/].
    A value that is not a string gets the first error only. *)
Theorem variant_value_errors_iff
    (w : World) (drinks : list json) (index : nat) (d : json)
    (r : ValidationResult) (label : string) (variants : json) (k : string) :
  catalogFile w = Some (Parsed (JArr drinks)) ->
  nth_error drinks index = Some d ->
  notAnObject d = false ->
  validateCatalog w = Returned r ->
  drinkLabel d = Returned label ->
  get d "imageVariants" = Some variants ->
  negb (truthy (Some variants))
  || negb (String.eqb (typeof (Some variants)) "object") = false ->
  In k (keys variants) ->
  (forall p, get variants k = Some (JStr p) ->
     (In ("Drink at index " +++ string_of_nat index +++ " (" +++ label
          +++ "): imageVariants." +++ k +++ " must be a non-empty string")
         (errors r)
      <-> trim p = "")
     /\ (In ("Drink at index " +++ string_of_nat index +++ " (" +++ label
             +++ "): imageVariants." +++ k +++ " must start with "
             +++ dquote +++ "drinks/_thumbs/" +++ dquote)
            (errors r)
         <-> trim p <> "" /\ startsWith p "drinks/_thumbs/" = false))
  /\ ((forall p, get variants k <> Some (JStr p)) ->
      In ("Drink at index " +++ string_of_nat index +++ " (" +++ label
          +++ "): imageVariants." +++ k +++ " must be a non-empty string")
         (errors r)
      /\ ~ In ("Drink at index " +++ string_of_nat index +++ " (" +++ label
               +++ "): imageVariants." +++ k +++ " must start with "
               +++ dquote +++ "drinks/_thumbs/" +++ dquote)
              (errors r)).
Proof.
  as_labelled index label (text_variant_string k).
  as_labelled index label (text_variant_prefix k).
  intros Hc Hn Ho Hrun Hl Hv Hobj Hk.
  pose proof (labelled_error_iff w drinks index d r label
                (text_variant_string k) Hc Hn Ho Hrun Hl) as H1.
  pose proof (labelled_error_iff w drinks index d r label
                (text_variant_prefix k) Hc Hn Ho Hrun Hl) as H2.
  rewrite (variant_texts_in_fieldErrors d variants k Hv Hobj Hk
             (text_variant_string k)) in H1 by (left; reflexivity).
  rewrite (variant_texts_in_fieldErrors d variants k Hv Hobj Hk
             (text_variant_prefix k)) in H2 by (right; reflexivity).
  unfold variantErrors in H1, H2. split.
  - intros p Hp. rewrite H1, H2, Hp.
    destruct (String.eqb_spec (trim p) "") as [Ht|Ht].
    + split; [split; [intros _; exact Ht|intros _; left; reflexivity]|].
      split.
      * intros [E|[]]. destruct (text_variant_clash _ _ E).
      * intros [Hne _]. destruct (Hne Ht).
    + destruct (startsWith p "drinks/_thumbs/").
      * split; [split; [intros []|intros E; destruct (Ht E)]|].
        split; [intros []|intros [_ E]; discriminate E].
      * split.
        -- split; [|intros E; destruct (Ht E)].
           intros [E|[]]. symmetry in E. destruct (text_variant_clash _ _ E).
        -- split; [intros _; split; [exact Ht|reflexivity]|].
           intros _. left. reflexivity.
  - intros Hnot. rewrite H1, H2.
    assert (E : match get variants k with
                | Some (JStr path) =>
                    if String.eqb (trim path) ""
                    then [text_variant_string k]
                    else if startsWith path "drinks/_thumbs/" then []
                         else [text_variant_prefix k]
                | _ => [text_variant_string k]
                end = [text_variant_string k]).
    { destruct (get variants k) as [[ | | |p| | ]|]; try reflexivity.
      destruct (Hnot p). reflexivity. }
    rewrite E. split; [left; reflexivity|].
    intros [E'|[]]. destruct (text_variant_clash _ _ E').
Qed.

(** X8. The keys of imageVariants: for an imageVariants object, the warning
    [imageVariants should include keys {sm, md} (or {512, 1024} for
    legacy)] is in the result exactly when the object has neither both of
    [sm] and [md] nor both of [512] and [1024] among its keys. *)
Theorem variant_keys_warning_iff
    (w : World) (drinks : list json) (index : nat) (d : json)
    (r : ValidationResult) (label : string) (variants : json) :
  catalogFile w = Some (Parsed (JArr drinks)) ->
  nth_error drinks index = Some d ->
  notAnObject d = false ->
  validateCatalog w = Returned r ->
  drinkLabel d = Returned label ->
  get d "imageVariants" = Some variants ->
  negb (truthy (Some variants))
  || negb (String.eqb (typeof (Some variants)) "object") = false ->
  (In ("Drink at index " +++ string_of_nat index +++ " (" +++ label
       +++ "): imageVariants should include keys {sm, md} (or {512, 1024} for legacy)")
      (warnings r)
   <-> ~ (In "sm" (keys variants) /\ In "md" (keys variants))
       /\ ~ (In "512" (keys variants) /\ In "1024" (keys variants))).
Proof.
  as_labelled index label text_variants_keys.
  intros Hc Hn Ho Hrun Hl Hv Hobj.
  rewrite (labelled_warning_iff w drinks index d r label _ Hc Hn Ho Hrun Hl).
  assert (Hinc : forall l key, includes l key = true <-> In key l).
  { intros l key. unfold includes. rewrite existsb_exists. split.
    - intros (x & Hx & E). apply String.eqb_eq in E. subst x. exact Hx.
    - intros Hx. exists key. split; [exact Hx|apply String.eqb_refl]. }
  assert (Hcond :
            negb (includes (keys variants) "sm" && includes (keys variants) "md")
            && negb (includes (keys variants) "512"
                     && includes (keys variants) "1024") = true
            <-> ~ (In "sm" (keys variants) /\ In "md" (keys variants))
                /\ ~ (In "512" (keys variants) /\ In "1024" (keys variants))).
  { rewrite andb_true_iff, !negb_true_iff, !andb_false_iff.
    rewrite <- !Hinc, <- !not_true_iff_false. split.
    - intros [[A|A] [B|B]]; split; intros [X Y]; auto.
    - intros [A B]. split.
      + destruct (includes (keys variants) "sm"); [|left; discriminate].
        right. intros E. apply A. split; [reflexivity|exact E].
      + destruct (includes (keys variants) "512"); [|left; discriminate].
        right. intros E. apply B. split; [reflexivity|exact E]. }
  rewrite <- Hcond. split.
  - intros H. in_list H; try (other_text H + (subst; other_text H));
      congruence.
  - intros H. unfold fieldWarnings, imageVariantsWarnings. cbv zeta.
    rewrite Hv, Hobj, H, !in_app_iff. right. left. left. reflexivity.
Qed.

Lemma strictEqStr_false (v : value) (s : string) :
  strictEqStr v s = false <-> v <> Some (JStr s).
Proof.
  unfold strictEqStr. destruct v as [[ | | |t| | ]|];
    try (split; [discriminate|reflexivity]).
  rewrite String.eqb_neq. split; [congruence|].
  intros H E. apply H. rewrite E. reflexivity.
Qed.

(** When the warning for the variant under [variantKey] is among the
    warnings of an entry. *)
Lemma expected_warning_iff d variants p variantKey expected :
  get d "imagePath" = Some (JStr p) ->
  get d "imageVariants" = Some variants ->
  negb (truthy (Some variants))
  || negb (String.eqb (typeof (Some variants)) "object") = false ->
  In (variantKey, expected)
     [("sm", expected512 p); ("md", expected1024 p);
      ("512", expected512 p); ("1024", expected1024 p)] ->
  (In (text_should_be variantKey expected) (fieldWarnings d)
   <-> truthy (get variants variantKey) = true
       /\ get variants variantKey <> Some (JStr expected)).
Proof.
  intros Hp Hv Hobj Hin. rewrite <- strictEqStr_false.
  rewrite <- negb_true_iff, <- andb_true_iff.
  cbn [In] in Hin.
  destruct Hin as [E|[E|[E|[E|[]]]]]; injection E as <- <-; split;
    try (intros H; in_list H; try (other_text H + (subst; other_text H));
         try congruence;
         match goal with
         | Hj : get d "imageVariants" = Some ?j |- _ =>
             assert (j = variants) by congruence; subst j
         end;
         assumption);
    intros H; unfold fieldWarnings, imageVariantsWarnings, expectedWarning;
    cbv zeta; rewrite Hv, Hobj, Hp, H, !in_app_iff; right; right.
  - left. left. reflexivity.
  - right. left. left. reflexivity.
  - do 2 right. left. left. reflexivity.
  - do 3 right. left. reflexivity.
Qed.

(** X9. The expected thumbnail paths: take an entry whose imagePath is the
    string [p] and whose imageVariants is an object, and let [base] be
    [path.basename(p, path.extname(p))].  The warning
    [sm path should be drinks/_thumbs/<base>_512.png] is in the result
    exactly when the value under [sm] is truthy and is not that path; the
    same holds for [md] with [_1024.png], for [512] with [_512.png] and for
    [1024] with [_1024.png].  A key that is absent gets no such warning. *)
Theorem expected_path_warning_iff
    (w : World) (drinks : list json) (index : nat) (d : json)
    (r : ValidationResult) (label p : string) (variants : json) :
  catalogFile w = Some (Parsed (JArr drinks)) ->
  nth_error drinks index = Some d ->
  notAnObject d = false ->
  validateCatalog w = Returned r ->
  drinkLabel d = Returned label ->
  get d "imagePath" = Some (JStr p) ->
  get d "imageVariants" = Some variants ->
  negb (truthy (Some variants))
  || negb (String.eqb (typeof (Some variants)) "object") = false ->
  (In ("Drink at index " +++ string_of_nat index +++ " (" +++ label
       +++ "): sm path should be drinks/_thumbs/"
       +++ NodePath.basename p (NodePath.extname p) +++ "_512.png")
      (warnings r)
   <-> truthy (get variants "sm") = true
       /\ get variants "sm"
          <> Some (JStr ("drinks/_thumbs/"
                         +++ NodePath.basename p (NodePath.extname p)
                         +++ "_512.png")))
  /\ (In ("Drink at index " +++ string_of_nat index +++ " (" +++ label
          +++ "): md path should be drinks/_thumbs/"
          +++ NodePath.basename p (NodePath.extname p) +++ "_1024.png")
         (warnings r)
      <-> truthy (get variants "md") = true
          /\ get variants "md"
             <> Some (JStr ("drinks/_thumbs/"
                            +++ NodePath.basename p (NodePath.extname p)
                            +++ "_1024.png")))
  /\ (In ("Drink at index " +++ string_of_nat index +++ " (" +++ label
          +++ "): 512 path should be drinks/_thumbs/"
          +++ NodePath.basename p (NodePath.extname p) +++ "_512.png")
         (warnings r)
      <-> truthy (get variants "512") = true
          /\ get variants "512"
             <> Some (JStr ("drinks/_thumbs/"
                            +++ NodePath.basename p (NodePath.extname p)
                            +++ "_512.png")))
  /\ (In ("Drink at index " +++ string_of_nat index +++ " (" +++ label
          +++ "): 1024 path should be drinks/_thumbs/"
          +++ NodePath.basename p (NodePath.extname p) +++ "_1024.png")
         (warnings r)
      <-> truthy (get variants "1024") = true
          /\ get variants "1024"
             <> Some (JStr ("drinks/_thumbs/"
                            +++ NodePath.basename p (NodePath.extname p)
                            +++ "_1024.png"))).
Proof.
  as_labelled index label (text_should_be "sm" (expected512 p)).
  as_labelled index label (text_should_be "md" (expected1024 p)).
  as_labelled index label (text_should_be "512" (expected512 p)).
  as_labelled index label (text_should_be "1024" (expected1024 p)).
  change ("drinks/_thumbs/" +++ NodePath.basename p (NodePath.extname p)
          +++ "_512.png") with (expected512 p).
  change ("drinks/_thumbs/" +++ NodePath.basename p (NodePath.extname p)
          +++ "_1024.png") with (expected1024 p).
  intros Hc Hn Ho Hrun Hl Hp Hv Hobj.
  rewrite !(labelled_warning_iff w drinks index d r label
              (text_should_be "sm" (expected512 p)) Hc Hn Ho Hrun Hl).
  rewrite !(labelled_warning_iff w drinks index d r label
              (text_should_be "md" (expected1024 p)) Hc Hn Ho Hrun Hl).
  rewrite !(labelled_warning_iff w drinks index d r label
              (text_should_be "512" (expected512 p)) Hc Hn Ho Hrun Hl).
  rewrite !(labelled_warning_iff w drinks index d r label
              (text_should_be "1024" (expected1024 p)) Hc Hn Ho Hrun Hl).
  split; [|split; [|split]];
    (apply expected_warning_iff with (p := p);
     [exact Hp|exact Hv|exact Hobj|cbn; auto]).
Qed.

(** * The mismatch of one thumbnail path, in the result *)

Lemma validateCatalog_consistent w r :
  validateCatalog w = Returned r -> consistent r.
Proof.
  intros H. apply validateCatalog_Returned in H as (st & Hrun & ->).
  assert (Hr : respects keepsConsistent (validateCatalogBody w)).
  { apply respects_validateCatalogBody
      with (Pe := fun _ => True) (Pw := fun _ => True);
      try (intros; exact I).
    - intros st0 Hc. exact Hc.
    - intros a b c Hab Hbc Hc. apply Hbc, Hab, Hc.
    - intros msg _. apply keepsConsistent_error.
    - intros msg _. apply keepsConsistent_warning.
    - apply keepsConsistent_add. }
  apply (Hr _ _ _ Hrun). split; reflexivity.
Qed.

Lemma consistent_success r1 r2 :
  consistent r1 -> consistent r2 -> errors r1 = errors r2 ->
  success r1 = success r2.
Proof.
  intros [A1 B1] [A2 B2] E. rewrite E in A1, B1.
  destruct (success r1), (success r2); try reflexivity.
  - symmetry. apply B2, A1. reflexivity.
  - apply B1, A2. reflexivity.
Qed.

Lemma loopErrors_app seen l1 l2 n :
  loopErrors seen (l1 ++ l2) n =
  loopErrors seen l1 n
  ++ loopErrors (fold_left addSeen l1 seen) l2 (n + length l1).
Proof.
  revert seen n. induction l1 as [|d l1 IH]; intros seen n.
  - cbn. rewrite Nat.add_0_r. reflexivity.
  - change (entryErrors seen d n
            ++ loopErrors (addSeen seen d) (l1 ++ l2) (S n)
            = (entryErrors seen d n ++ loopErrors (addSeen seen d) l1 (S n))
              ++ loopErrors (fold_left addSeen l1 (addSeen seen d)) l2
                   (n + S (length l1))).
    rewrite IH, <- app_assoc.
    replace (S n + length l1) with (n + S (length l1)) by lia. reflexivity.
Qed.

Lemma fold_left_addSeen_app l1 l2 seen :
  fold_left addSeen (l1 ++ l2) seen
  = fold_left addSeen l2 (fold_left addSeen l1 seen).
Proof. apply fold_left_app. Qed.

(** Which messages the file check wrote. *)
Lemma entryErrors_fromIndex seen d i : Forall (fromIndex i) (entryErrors seen d i).
Proof.
  unfold entryErrors. destruct (notAnObject d).
  - constructor; [apply fromIndex_not_object|constructor].
  - apply Forall_app. split.
    + unfold idErrors. destruct (notNonEmptyString (get d "id")).
      * constructor; [apply fromIndex_id_required|constructor].
      * destruct (get d "id") as [[ | | |id| | ]|]; try constructor.
        apply Forall_app. split.
        -- destruct (includes seen id); constructor;
             [apply fromIndex_duplicate|constructor].
        -- destruct (testSnakeCase id); constructor;
             [apply fromIndex_format|constructor].
    + apply Forall_forall. intros m Hm.
      apply in_map_iff in Hm as (t & <- & _). apply fromIndex_labelled.
Qed.

Lemma fromIndex_not_file i m : fromIndex i m -> isFileNotFound m = false.
Proof.
  intros H. apply fromIndex_first in H.
  destruct (isFileNotFound m) eqn:E; [|reflexivity].
  apply isFileNotFound_first in E. congruence.
Qed.

Lemma loopErrors_not_file l :
  forall seen n,
    Forall (fun m => isFileNotFound m = false) (loopErrors seen l n).
Proof.
  induction l as [|d l IH]; intros seen n; cbn [loopErrors]; [constructor|].
  apply Forall_app. split; [|apply IH].
  eapply Forall_impl; [|apply entryErrors_fromIndex].
  intros m. apply fromIndex_not_file.
Qed.

Lemma flagsErrors_not_file flags :
  Forall (fun m => isFileNotFound m = false) (flagsErrors flags).
Proof.
  unfold flagsErrors. destruct flags as [[message|parsed]|];
    [repeat constructor| |constructor].
  destruct (notAnObject parsed); [repeat constructor|].
  apply Forall_app. split;
    match goal with |- context [if ?c then _ else _] => destruct c end;
    repeat constructor.
Qed.

Lemma startsWith_append (a s : string) : startsWith (a +++ s) a = true.
Proof.
  unfold startsWith. induction a as [|c a IH]; cbn.
  - destruct s; reflexivity.
  - destruct (ascii_dec c c) as [_|N]; [exact IH|destruct N; reflexivity].
Qed.

Lemma imageFileErrors_file fe d :
  Forall (fun m => isFileNotFound m = true) (imageFileErrors fe d).
Proof.
  unfold imageFileErrors.
  destruct (get d "id") as [id|]; [|constructor].
  destruct (get d "imagePath") as [[ | | |p| | ]|]; try constructor.
  destruct (truthy (Some id) && truthy (Some (JStr p))); [|constructor].
  apply Forall_app. split.
  - destruct (fe p); [constructor|].
    constructor; [|constructor].
    unfold isFileNotFound, msg_image_missing.
    rewrite startsWith_append. reflexivity.
  - destruct (get d "imageVariants") as [variants|]; [|constructor].
    destruct (truthy (Some variants)); [|constructor].
    apply Forall_forall. intros m Hm.
    apply in_flat_map in Hm as ([variant v] & _ & Hm).
    unfold variantFileErrors in Hm. cbn [fst snd] in Hm.
    destruct v as [ | | |q| | ]; try destruct Hm.
    destruct (fe q); [destruct Hm|].
    destruct Hm as [<-|[]].
    unfold isFileNotFound, msg_variant_missing.
    rewrite (startsWith_append "Image variant file not found: ").
    apply orb_true_r.
Qed.

Lemma filter_keep {A : Type} (f : A -> bool) (l : list A) :
  Forall (fun x => f x = true) l -> filter f l = l.
Proof.
  induction 1 as [|x l Hx _ IH]; cbn; [reflexivity|].
  rewrite Hx, IH. reflexivity.
Qed.

Lemma filter_drop {A : Type} (f : A -> bool) (l : list A) :
  Forall (fun x => f x = false) l -> filter f l = [].
Proof.
  induction 1 as [|x l Hx _ IH]; cbn; [reflexivity|].
  rewrite Hx, IH. reflexivity.
Qed.

(** The errors of a result that the file check did not write: those of the
    first loop, then those of the flags check. *)
Lemma errors_but_file_not_found w drinks r :
  catalogFile w = Some (Parsed (JArr drinks)) ->
  validateCatalog w = Returned r ->
  filter (fun m => negb (isFileNotFound m)) (errors r)
  = loopErrors [] drinks 0 ++ flagsErrors (flagsFile w).
Proof.
  intros Hc Hrun.
  destruct (validateCatalog_pushed w drinks r Hc Hrun) as [E _].
  rewrite E, !filter_app.
  rewrite (filter_keep _ (loopErrors [] drinks 0)).
  2:{ eapply Forall_impl; [|apply loopErrors_not_file].
      intros m Hm. cbn beta. rewrite Hm. reflexivity. }
  rewrite (filter_keep _ (flagsErrors (flagsFile w))).
  2:{ eapply Forall_impl; [|apply flagsErrors_not_file].
      intros m Hm. cbn beta. rewrite Hm. reflexivity. }
  rewrite filter_drop; [reflexivity|].
  destruct (checkImageFiles w); [|constructor].
  apply Forall_forall. intros m Hm.
  apply in_flat_map in Hm as (d & _ & Hm).
  pose proof (imageFileErrors_file (existsSync w) d) as F.
  rewrite Forall_forall in F. rewrite (F _ Hm). reflexivity.
Qed.

(** The entry with the other [sm] path gets the errors of the entry with
    the matching paths, and leaves the same ids behind. *)
Lemma mismatch_same_errors
    (good bad : list (string * json)) (seen : list string) (index : nat) :
  assoc good "imageVariants" = Some goodVariants ->
  assoc bad "imageVariants" = Some badVariants ->
  (forall k, k <> "imageVariants" -> assoc bad k = assoc good k) ->
  entryErrors seen (JObj bad) index = entryErrors seen (JObj good) index
  /\ addSeen seen (JObj bad) = addSeen seen (JObj good).
Proof.
  intros Hgood Hbad Hsame.
  assert (Hvb : imageVariantsErrors (JObj bad) = []).
  { unfold imageVariantsErrors. cbn [get]. rewrite Hbad.
    vm_compute. reflexivity. }
  assert (Hvg : imageVariantsErrors (JObj good) = []).
  { unfold imageVariantsErrors. cbn [get]. rewrite Hgood.
    vm_compute. reflexivity. }
  split.
  - unfold entryErrors.
    change (notAnObject (JObj bad)) with false.
    change (notAnObject (JObj good)) with false. cbv iota.
    unfold labelOf. rewrite (bad_label good bad Hsame).
    unfold fieldErrors. rewrite Hvb, Hvg.
    unfold idErrors, nameErrors, categoryErrors, popularityErrors,
      aliasesErrors, imagePathErrors, modifiersErrors.
    cbn [get].
    rewrite !(Hsame "id"), !(Hsame "name"), !(Hsame "category"),
      !(Hsame "popularity"), !(Hsame "aliases"), !(Hsame "imagePath"),
      !(Hsame "modifiersSupported") by discriminate.
    reflexivity.
  - unfold addSeen, validId.
    change (notAnObject (JObj bad)) with false.
    change (notAnObject (JObj good)) with false. cbv iota. cbn [get].
    rewrite !(Hsame "id") by discriminate. reflexivity.
Qed.

(** The text of the warning, spelled out. *)
Lemma mismatch_warning_text (index : nat) (label : string) :
  msg_labelled index label
    (text_should_be "sm" "drinks/_thumbs/margarita_512.png")
  = "Drink at index " +++ string_of_nat index +++ " (" +++ label
    +++ "): sm path should be drinks/_thumbs/margarita_512.png".
Proof.
  unfold msg_labelled, text_should_be, drinkPrefix.
  rewrite append_assoc. reflexivity.
Qed.

(** * Thumbnail paths that do not match the image: the claim *)

(** C9. The expected path of the image [drinks/margarita.png] is
    [drinks/_thumbs/margarita_512.png]: [drinks/_thumbs/], the basename of
    the image without its extension, [_512.png].  Take an entry whose
    imagePath is [drinks/margarita.png] and whose imageVariants are
    [sm: drinks/_thumbs/margarita_512.png] and
    [md: drinks/_thumbs/margarita_1024.png], whatever its other fields and
    wherever it stands in the catalog: the result holds no warning for its
    index.  Change the [sm] path to [drinks/_thumbs/marg_512.png] and leave
    every other field alone: the result holds exactly one warning for its
    index, and that warning reads
    [Drink at index <index> (<label>): sm path should be
    drinks/_thumbs/margarita_512.png].  The mismatch costs no error: the
    callback leaves the entry in the state it reaches for the matching
    paths, this one warning apart; the errors of the two results are the
    same, the messages of the separate file check apart, and with that
    check off the error lists and the success flags are equal. *)
Theorem thumbnail_mismatch_is_one_warning
    (w : World) (l1 l2 : list json) (good bad : list (string * json))
    (r : ValidationResult) :
  assoc good "imagePath" = Some (JStr "drinks/margarita.png") ->
  assoc good "imageVariants" = Some goodVariants ->
  assoc bad "imageVariants" = Some badVariants ->
  (forall k, k <> "imageVariants" -> assoc bad k = assoc good k) ->
  "drinks/_thumbs/"
    +++ NodePath.basename "drinks/margarita.png"
          (NodePath.extname "drinks/margarita.png")
    +++ "_512.png"
  = "drinks/_thumbs/margarita_512.png"
  /\ (catalogFile w = Some (Parsed (JArr (l1 ++ JObj good :: l2))) ->
      validateCatalog w = Returned r ->
      Forall (fun m => ~ fromIndex (length l1) m) (warnings r))
  /\ (catalogFile w = Some (Parsed (JArr (l1 ++ JObj bad :: l2))) ->
      validateCatalog w = Returned r ->
      exists label before after,
        drinkLabel (JObj bad) = Returned label
        /\ warnings r =
           before
           ++ ("Drink at index " +++ string_of_nat (length l1) +++ " ("
               +++ label
               +++ "): sm path should be drinks/_thumbs/margarita_512.png")
              :: after
        /\ Forall (fun m => ~ fromIndex (length l1) m) before
        /\ Forall (fun m => ~ fromIndex (length l1) m) after)
  /\ (forall index st st'',
        validateDrink (JObj bad) index st = Returned (tt, st'') ->
        exists label st',
          validateDrink (JObj good) index st = Returned (tt, st')
          /\ success (result st'') = success (result st')
          /\ errors (result st'') = errors (result st')
          /\ seenIds st'' = seenIds st'
          /\ warnings (result st'') =
             warnings (result st')
             ++ ["Drink at index " +++ string_of_nat index +++ " ("
                 +++ label
                 +++ "): sm path should be drinks/_thumbs/margarita_512.png"])
  /\ (forall (wg : World) (rg : ValidationResult),
        catalogFile w = Some (Parsed (JArr (l1 ++ JObj bad :: l2))) ->
        validateCatalog w = Returned r ->
        catalogFile wg = Some (Parsed (JArr (l1 ++ JObj good :: l2))) ->
        flagsFile wg = flagsFile w ->
        validateCatalog wg = Returned rg ->
        filter (fun m => negb (isFileNotFound m)) (errors r)
        = filter (fun m => negb (isFileNotFound m)) (errors rg)
        /\ (checkImageFiles w = false -> checkImageFiles wg = false ->
            errors r = errors rg /\ success r = success rg)).
Proof.
  intros Hpath Hgood Hbad Hsame.
  split; [vm_compute; reflexivity|]. split; [|split; [|split]].
  - intros Hc Hrun.
    destruct (run_split_warnings w l1 _ l2 r Hc Hrun)
      as (st1 & st2 & after & Hd & E & F1 & F2).
    destruct (mismatch_callback good bad (length l1) st1
                Hpath Hgood Hbad Hsame) as [Hkeep _].
    rewrite E, (Hkeep _ Hd). apply Forall_app. split; assumption.
  - intros Hc Hrun.
    destruct (run_split_warnings w l1 _ l2 r Hc Hrun)
      as (st1 & st2 & after & Hd & E & F1 & F2).
    destruct (mismatch_callback good bad (length l1) st1
                Hpath Hgood Hbad Hsame) as [_ Hone].
    destruct (Hone _ Hd) as (label & st' & Hl & _ & ->).
    exists label, (warnings (result st1)), after.
    split; [exact Hl|]. split; [|split; assumption].
    rewrite E, <- mismatch_warning_text. cbn. rewrite <- app_assoc.
    reflexivity.
  - intros index st st'' Hd.
    destruct (mismatch_callback good bad index st Hpath Hgood Hbad Hsame)
      as [Hkeep Hone].
    destruct (Hone _ Hd) as (label & st' & _ & Hrun & ->).
    exists label, st'. split; [exact Hrun|].
    rewrite <- mismatch_warning_text. cbn.
    rewrite (Hkeep _ Hrun). repeat split; reflexivity.
  - intros wg rg Hc Hrun Hcg Hflags Hrung.
    assert (Hloop : loopErrors [] (l1 ++ JObj bad :: l2) 0
                    = loopErrors [] (l1 ++ JObj good :: l2) 0).
    { rewrite !loopErrors_app. f_equal. cbn [loopErrors].
      destruct (mismatch_same_errors good bad (fold_left addSeen l1 [])
                  (0 + length l1) Hgood Hbad Hsame) as [-> ->].
      reflexivity. }
    split.
    + rewrite (errors_but_file_not_found w _ r Hc Hrun).
      rewrite (errors_but_file_not_found wg _ rg Hcg Hrung).
      rewrite Hloop, Hflags. reflexivity.
    + intros Hoff Hoffg.
      destruct (validateCatalog_pushed w _ r Hc Hrun) as [E _].
      destruct (validateCatalog_pushed wg _ rg Hcg Hrung) as [Eg _].
      rewrite Hoff in E. rewrite Hoffg in Eg.
      assert (Heq : errors r = errors rg)
        by (rewrite E, Eg, Hloop, Hflags; reflexivity).
      split; [exact Heq|].
      apply consistent_success;
        [eapply validateCatalog_consistent; eassumption
        |eapply validateCatalog_consistent; eassumption|exact Heq].
Qed.

(** * When the run throws *)

(** The variants rule returns only when the image path is a string. *)
Lemma validateImageVariants_needs_imagePath d i st st' :
  truthy (get d "imageVariants") = true ->
  typeof (get d "imageVariants") = "object" ->
  validateImageVariants d i st = Returned (tt, st') ->
  typeof (get d "imagePath") = "string".
Proof.
  intros Ht Ho H. unfold validateImageVariants in H. cbv zeta in H.
  rewrite Ht, Ho in H. cbn [negb orb String.eqb] in H.
  change (String.eqb "object" "object") with true in H.
  cbn [negb orb] in H.
  destruct (get d "imageVariants") as [variants|]; [|discriminate Ht].
  apply bind_Returned in H as ([] & s1 & _ & H).
  apply bind_Returned in H as ([] & s2 & _ & H).
  apply bind_Returned in H as ([] & s3 & _ & H).
  apply bind_Returned in H as (ext & s4 & H4 & _).
  unfold path_extname in H4.
  destruct (get d "imagePath") as [[ | | |p| | ]|]; try discriminate H4.
  reflexivity.
Qed.

(** X11. The missing guard, in general: as soon as some entry of the
    catalog is an object whose imageVariants is an object (truthy, of type
    object) and whose imagePath is not a string, [validateCatalog] returns
    no result: an exception leaves it, whatever the other entries, the
    flags file, the toggle and the image files are. *)
Theorem unguarded_imagePath_throws
    (w : World) (drinks : list json) (d : json) :
  catalogFile w = Some (Parsed (JArr drinks)) ->
  In d drinks ->
  notAnObject d = false ->
  truthy (get d "imageVariants") = true ->
  typeof (get d "imageVariants") = "object" ->
  typeof (get d "imagePath") <> "string" ->
  (exists e, validateCatalog w = Thrown e)
  /\ forall r, validateCatalog w <> Returned r.
Proof.
  intros Hc Hin Ho Ht Hobj Hpath.
  assert (Hnot : forall r, validateCatalog w <> Returned r).
  { intros r Hrun. apply In_nth_error in Hin as (index & Hn).
    destruct (entry_run w drinks index d r Hc Hn Hrun)
      as (st1 & st2 & _ & Hd & _).
    apply validateDrink_steps in Hd as (s & _ & Hrest); [|exact Ho].
    apply fieldRules_steps in Hrest
      as (s1 & s2 & s3 & s4 & s5 & s6 & _ & _ & _ & _ & _ & H6 & _).
    apply Hpath.
    exact (validateImageVariants_needs_imagePath d index s5 s6 Ht Hobj H6). }
  split; [|exact Hnot].
  destruct (validateCatalog w) as [r|e] eqn:E.
  - destruct (Hnot r). reflexivity.
  - exists e. reflexivity.
Qed.

(** * The three early exits *)

(** X12. When [drinks.json] is missing, cannot be parsed, or does not hold
    an array, [validateCatalog] returns (it never throws) a failed result
    whose only message is the error of that case: no warning, no second
    error, and nothing about [flags.json] or the image files, which are not
    looked at.  When the file holds an array none of the three errors is
    ever in the result. *)
Theorem early_exits_report_one_error (w : World) :
  (catalogFile w = None ->
   validateCatalog w =
   Returned {| success := false;
               errors := ["drinks.json file not found"];
               warnings := [] |})
  /\ (forall message,
        catalogFile w = Some (ParseError message) ->
        validateCatalog w =
        Returned {| success := false;
                    errors := ["Failed to parse drinks.json: " +++ message];
                    warnings := [] |})
  /\ (forall parsed,
        catalogFile w = Some (Parsed parsed) ->
        isArray (Some parsed) = false ->
        validateCatalog w =
        Returned {| success := false;
                    errors :=
                      ["drinks.json must contain an array of drink entries"];
                    warnings := [] |})
  /\ (forall drinks r,
        catalogFile w = Some (Parsed (JArr drinks)) ->
        validateCatalog w = Returned r ->
        ~ In "drinks.json file not found" (errors r)
        /\ (forall message,
              ~ In ("Failed to parse drinks.json: " +++ message) (errors r))
        /\ ~ In "drinks.json must contain an array of drink entries"
                (errors r)).
Proof.
  split; [|split; [|split]].
  - intros Hc. unfold validateCatalog, validateCatalogBody. rewrite Hc.
    reflexivity.
  - intros message Hc. unfold validateCatalog, validateCatalogBody.
    rewrite Hc. reflexivity.
  - intros parsed Hc Ha. unfold validateCatalog, validateCatalogBody.
    rewrite Hc. destruct parsed; try reflexivity. discriminate Ha.
  - intros drinks r Hc Hrun.
    assert (Hnone : forall m,
               In m (errors r) ->
               String.get 0 m <> Some "d"%char
               /\ String.substring 0 20 m <> "Failed to parse drin").
    { intros m Hin.
      destruct (errors_sound w r Hrun m Hin)
        as [E|message E|parsed E Ha|drinks' k d m E Hk Hm|drinks' d m E Ht Hd Hm
            |drinks' m E Hm];
        rewrite Hc in E; try discriminate E.
      - injection E as <-. discriminate Ha.
      - apply entry_error_fromIndex in Hm. destruct Hm as (t & _ & ->).
        split; discriminate.
      - destruct Hm; split; discriminate.
      - destruct Hm; split; discriminate. }
    split; [|split].
    + intros Hin. apply Hnone in Hin as [H _]. apply H. reflexivity.
    + intros message Hin. apply Hnone in Hin as [_ H]. apply H. reflexivity.
    + intros Hin. apply Hnone in Hin as [H _]. apply H. reflexivity.
Qed.

(** * The flags check *)

Lemma loopErrors_first l :
  forall seen n,
    Forall (fun m => String.get 0 m = Some "D"%char) (loopErrors seen l n).
Proof.
  induction l as [|d l IH]; intros seen n; cbn [loopErrors]; [constructor|].
  apply Forall_app. split; [|apply IH].
  eapply Forall_impl; [|apply entryErrors_fromIndex].
  intros m. apply fromIndex_first.
Qed.

(** A message that opens with [f] or [F] is an error of the result exactly
    when the flags check wrote it. *)
Lemma flags_message_iff w drinks r m :
  catalogFile w = Some (Parsed (JArr drinks)) ->
  validateCatalog w = Returned r ->
  String.get 0 m = Some "F"%char \/ String.get 0 m = Some "f"%char ->
  (In m (errors r) <-> In m (flagsErrors (flagsFile w))).
Proof.
  intros Hc Hrun Hfirst.
  destruct (validateCatalog_pushed w drinks r Hc Hrun) as [E _].
  rewrite E, !in_app_iff. split; [|intros H; right; right; exact H].
  intros [H|[H|H]]; [exfalso|exfalso|exact H].
  - pose proof (loopErrors_first drinks [] 0) as G.
    rewrite Forall_forall in G. specialize (G _ H).
    destruct Hfirst as [X|X]; congruence.
  - assert (G : isFileNotFound m = true).
    { destruct (checkImageFiles w); [|destruct H].
      apply in_flat_map in H as (d & _ & H).
      pose proof (imageFileErrors_file (existsSync w) d) as F.
      rewrite Forall_forall in F. exact (F _ H). }
    apply isFileNotFound_first in G. destruct Hfirst as [X|X]; congruence.
Qed.

Lemma typeof_flag_iff (flags : json) (k t : string) :
  hasProperty flags k && negb (String.eqb (typeof (get flags k)) t) = true
  <-> exists v, get flags k = Some v /\ typeof (Some v) <> t.
Proof.
  unfold hasProperty. destruct (get flags k) as [v|]; cbn [andb].
  - rewrite negb_true_iff, String.eqb_neq. split.
    + intros H. exists v. split; [reflexivity|exact H].
    + intros (v' & E & H). injection E as <-. exact H.
  - split; [discriminate|]. intros (v & E & _). discriminate E.
Qed.

(** X13. The flags check, for a catalog that holds an array: the error
    [Failed to parse flags.json: <message>] is in the result exactly when
    [flags.json] exists and parsing it failed with that message;
    [flags.json must be a JSON object] exactly when the parsed value is not
    of type object or is [null] (an array passes); [flags.json:
    forceTextOnly must be a boolean] exactly when the parsed value is an
    object that has the key with a value that is not a boolean, and
    likewise [flags.json: catalogVersion must be a string].  When
    [flags.json] does not exist none of these errors is reported. *)
Theorem flags_errors_iff
    (w : World) (drinks : list json) (r : ValidationResult) :
  catalogFile w = Some (Parsed (JArr drinks)) ->
  validateCatalog w = Returned r ->
  (forall message,
     In ("Failed to parse flags.json: " +++ message) (errors r)
     <-> flagsFile w = Some (ParseError message))
  /\ (In "flags.json must be a JSON object" (errors r)
      <-> exists flags,
            flagsFile w = Some (Parsed flags) /\ notAnObject flags = true)
  /\ (In "flags.json: forceTextOnly must be a boolean" (errors r)
      <-> exists flags v,
            flagsFile w = Some (Parsed flags) /\ notAnObject flags = false
            /\ get flags "forceTextOnly" = Some v
            /\ typeof (Some v) <> "boolean")
  /\ (In "flags.json: catalogVersion must be a string" (errors r)
      <-> exists flags v,
            flagsFile w = Some (Parsed flags) /\ notAnObject flags = false
            /\ get flags "catalogVersion" = Some v
            /\ typeof (Some v) <> "string")
  /\ (flagsFile w = None ->
      forall m, In m (errors r) ->
                String.get 0 m <> Some "F"%char
                /\ String.get 0 m <> Some "f"%char).
Proof.
  intros Hc Hrun.
  pose proof (fun m => flags_message_iff w drinks r m Hc Hrun) as Hiff.
  split; [|split; [|split; [|split]]].
  - intros message. rewrite Hiff by (left; reflexivity).
    unfold flagsErrors.
    destruct (flagsFile w) as [[message'|flags]|].
    + split.
      * intros [E|[]]. apply append_inv_head in E. subst message'.
        reflexivity.
      * intros E. injection E as ->. left. reflexivity.
    + split; [|discriminate].
      destruct (notAnObject flags); [intros [E|[]]; discriminate E|].
      intros H. apply in_app_or in H as [H|H];
        match type of H with
        | In _ (if ?c then _ else _) => destruct c
        end;
        try destruct H as [E|[]]; try discriminate E; destruct H.
    + split; [intros []|discriminate].
  - rewrite Hiff by (right; reflexivity). unfold flagsErrors.
    destruct (flagsFile w) as [[message'|flags]|].
    + split; [intros [E|[]]; discriminate E|].
      intros (f & E & _). discriminate E.
    + destruct (notAnObject flags) eqn:Ho.
      * split; [intros _; exists flags; split; [reflexivity|exact Ho]|].
        intros _. left. reflexivity.
      * split.
        -- intros H. apply in_app_or in H as [H|H];
             match type of H with
             | In _ (if ?c then _ else _) => destruct c
             end;
             try destruct H as [E|[]]; try discriminate E; destruct H.
        -- intros (f & E & Hf). injection E as <-. congruence.
    + split; [intros []|]. intros (f & E & _). discriminate E.
  - rewrite Hiff by (right; reflexivity). unfold flagsErrors.
    destruct (flagsFile w) as [[message'|flags]|].
    + split; [intros [E|[]]; discriminate E|].
      intros (f & v & E & _). discriminate E.
    + destruct (notAnObject flags) eqn:Ho.
      * split; [intros [E|[]]; discriminate E|].
        intros (f & v & E & Hf & _). injection E as <-. congruence.
      * rewrite in_app_iff. split.
        -- intros [H|H].
           ++ destruct (hasProperty flags "forceTextOnly"
                        && negb (String.eqb
                                   (typeof (get flags "forceTextOnly"))
                                   "boolean")) eqn:Hcond; [|destruct H].
              apply typeof_flag_iff in Hcond as (v & Hv & Ht).
              exists flags, v. repeat split; assumption.
           ++ destruct (hasProperty flags "catalogVersion"
                        && negb (String.eqb
                                   (typeof (get flags "catalogVersion"))
                                   "string")); [|destruct H].
              destruct H as [E|[]]. discriminate E.
        -- intros (f & v & E & _ & Hv & Ht). injection E as <-.
           left.
           assert (Hcond : hasProperty flags "forceTextOnly"
                           && negb (String.eqb
                                      (typeof (get flags "forceTextOnly"))
                                      "boolean") = true)
             by (apply typeof_flag_iff; exists v; split; assumption).
           rewrite Hcond. left. reflexivity.
    + split; [intros []|]. intros (f & v & E & _). discriminate E.
  - rewrite Hiff by (right; reflexivity). unfold flagsErrors.
    destruct (flagsFile w) as [[message'|flags]|].
    + split; [intros [E|[]]; discriminate E|].
      intros (f & v & E & _). discriminate E.
    + destruct (notAnObject flags) eqn:Ho.
      * split; [intros [E|[]]; discriminate E|].
        intros (f & v & E & Hf & _). injection E as <-. congruence.
      * rewrite in_app_iff. split.
        -- intros [H|H].
           ++ destruct (hasProperty flags "forceTextOnly"
                        && negb (String.eqb
                                   (typeof (get flags "forceTextOnly"))
                                   "boolean")); [|destruct H].
              destruct H as [E|[]]. discriminate E.
           ++ destruct (hasProperty flags "catalogVersion"
                        && negb (String.eqb
                                   (typeof (get flags "catalogVersion"))
                                   "string")) eqn:Hcond; [|destruct H].
              apply typeof_flag_iff in Hcond as (v & Hv & Ht).
              exists flags, v. repeat split; assumption.
        -- intros (f & v & E & _ & Hv & Ht). injection E as <-.
           right.
           assert (Hcond : hasProperty flags "catalogVersion"
                           && negb (String.eqb
                                      (typeof (get flags "catalogVersion"))
                                      "string") = true)
             by (apply typeof_flag_iff; exists v; split; assumption).
           rewrite Hcond. left. reflexivity.
    + split; [intros []|]. intros (f & v & E & _). discriminate E.
  - intros Hnone m Hin.
    split; intros Hfirst.
    + apply (Hiff m (or_introl Hfirst)) in Hin. rewrite Hnone in Hin.
      destruct Hin.
    + apply (Hiff m (or_intror Hfirst)) in Hin. rewrite Hnone in Hin.
      destruct Hin.
Qed.

(** * The image file check *)

(** An error of the file check is an error that one entry gave rise to, the
    check being on. *)
Lemma file_message_iff w drinks r m :
  catalogFile w = Some (Parsed (JArr drinks)) ->
  validateCatalog w = Returned r ->
  isFileNotFound m = true ->
  (In m (errors r)
   <-> checkImageFiles w = true
       /\ exists d, In d drinks /\ In m (imageFileErrors (existsSync w) d)).
Proof.
  intros Hc Hrun Hm.
  destruct (validateCatalog_pushed w drinks r Hc Hrun) as [E _].
  rewrite E, !in_app_iff. split.
  - intros [H|[H|H]].
    + pose proof (loopErrors_not_file drinks [] 0) as F.
      rewrite Forall_forall in F. rewrite (F _ H) in Hm. discriminate Hm.
    + destruct (checkImageFiles w); [|destruct H].
      split; [reflexivity|]. apply in_flat_map in H. exact H.
    + pose proof (flagsErrors_not_file (flagsFile w)) as F.
      rewrite Forall_forall in F. rewrite (F _ H) in Hm. discriminate Hm.
  - intros [Hon H]. right. left. rewrite Hon. apply in_flat_map. exact H.
Qed.

(** X14. The image file check, when [VALIDATE_IMAGE_FILES] is [true]: for
    an entry with a non-empty string id and a non-empty string imagePath,
    [Image file not found: <imagePath> for drink "<id>"] is reported when
    the image does not exist, and [Image variant file not found: <path>
    (<variant>) for drink "<id>"] is reported for every variant whose file
    does not exist.  Conversely a file-not-found error is only reported for
    a file that does not exist: when the image and the variants of every
    entry that has a truthy id and a truthy imagePath exist, the result has
    no file-not-found error.  Entries without id or without imagePath are
    skipped, whatever their files. *)
Theorem image_files_are_checked_when_toggle_is_on
    (w : World) (drinks : list json) (r : ValidationResult) :
  catalogFile w = Some (Parsed (JArr drinks)) ->
  validateCatalog w = Returned r ->
  checkImageFiles w = true ->
  (forall d id p,
     In d drinks ->
     get d "id" = Some (JStr id) -> id <> "" ->
     get d "imagePath" = Some (JStr p) -> p <> "" ->
     (existsSync w p = false ->
      In ("Image file not found: " +++ p +++ " for drink " +++ dquote
          +++ id +++ dquote) (errors r))
     /\ (forall variants variant q,
           get d "imageVariants" = Some variants ->
           truthy (Some variants) = true ->
           In (variant, JStr q) (entries variants) ->
           existsSync w q = false ->
           In ("Image variant file not found: " +++ q +++ " (" +++ variant
               +++ ") for drink " +++ dquote +++ id +++ dquote) (errors r)))
  /\ ((forall d p,
         In d drinks ->
         truthy (get d "id") = true ->
         get d "imagePath" = Some (JStr p) -> p <> "" ->
         existsSync w p = true) ->
      (forall d variants variant q,
         In d drinks ->
         truthy (get d "id") = true ->
         truthy (get d "imagePath") = true ->
         get d "imageVariants" = Some variants ->
         In (variant, JStr q) (entries variants) ->
         existsSync w q = true) ->
      forall m, In m (errors r) -> isFileNotFound m = false).
Proof.
  intros Hc Hrun Hon. split.
  - intros d id p Hd Hid Hne Hp Hpne.
    assert (Ht : truthy (Some (JStr id)) && truthy (Some (JStr p)) = true).
    { destruct id; [destruct Hne; reflexivity|].
      destruct p; [destruct Hpne; reflexivity|]. reflexivity. }
    split.
    + intros Hmiss.
      apply (file_message_iff w drinks r _ Hc Hrun).
      { unfold isFileNotFound. rewrite startsWith_append. reflexivity. }
      split; [exact Hon|]. exists d. split; [exact Hd|].
      unfold imageFileErrors. rewrite Hid, Hp, Ht, Hmiss.
      apply in_or_app. left. left. reflexivity.
    + intros variants variant q Hv Htv Hin Hmiss.
      apply (file_message_iff w drinks r _ Hc Hrun).
      { unfold isFileNotFound.
        rewrite (startsWith_append "Image variant file not found: ").
        apply orb_true_r. }
      split; [exact Hon|]. exists d. split; [exact Hd|].
      unfold imageFileErrors. rewrite Hid, Hp, Ht, Hv, Htv.
      apply in_or_app. right. apply in_flat_map.
      exists (variant, JStr q). split; [exact Hin|].
      unfold variantFileErrors. cbn [fst snd]. rewrite Hmiss.
      left. reflexivity.
  - intros Hmain Hvariants m Hin.
    destruct (isFileNotFound m) eqn:Hm; [exfalso|reflexivity].
    apply (file_message_iff w drinks r _ Hc Hrun Hm) in Hin
      as (_ & d & Hd & Hin).
    specialize (Hmain d). specialize (Hvariants d).
    unfold imageFileErrors in Hin.
    destruct (get d "id") as [id|]; [|destruct Hin].
    destruct (get d "imagePath") as [[ | | |p| | ]|]; try destruct Hin.
    destruct (truthy (Some id)); [|destruct Hin].
    destruct (truthy (Some (JStr p))) eqn:Htp; [|destruct Hin].
    assert (Hpne : p <> "") by (intros ->; discriminate Htp).
    cbn [andb] in Hin. apply in_app_or in Hin as [Hin|Hin].
    + rewrite (Hmain p Hd eq_refl eq_refl Hpne) in Hin. destruct Hin.
    + destruct (get d "imageVariants") as [variants|]; [|destruct Hin].
      destruct (truthy (Some variants)); [|destruct Hin].
      apply in_flat_map in Hin as ([variant v] & Hentry & Hin).
      unfold variantFileErrors in Hin. cbn [fst snd] in Hin.
      destruct v as [ | | |q| | ]; try destruct Hin.
      rewrite (Hvariants variants variant q Hd eq_refl eq_refl eq_refl Hentry)
        in Hin.
      destruct Hin.
Qed.

(** * The two modes *)

(** X15. Strict and basic validation of the same files: whenever the run
    with [VALIDATE_IMAGE_FILES=true] returns, the run with any other value
    of the variable returns too, with the same warnings, and its errors are
    the errors of the strict run without the file-not-found messages, in
    the same order.  So every error of the basic run is an error of the
    strict run, and a catalog that passes strict validation passes basic
    validation. *)
Theorem strict_run_extends_basic_run
    (catalog flags : option file_content) (fs : string -> bool)
    (toggle : option string) (strict : ValidationResult) :
  toggle <> Some "true" ->
  validateCatalog {| catalogFile := catalog; flagsFile := flags;
                     VALIDATE_IMAGE_FILES := Some "true";
                     existsSync := fs |} = Returned strict ->
  exists basic,
    validateCatalog {| catalogFile := catalog; flagsFile := flags;
                       VALIDATE_IMAGE_FILES := toggle;
                       existsSync := fs |} = Returned basic
    /\ warnings basic = warnings strict
    /\ errors basic
       = filter (fun m => negb (isFileNotFound m)) (errors strict)
    /\ (forall m, In m (errors basic) -> In m (errors strict))
    /\ (success strict = true -> success basic = true).
Proof.
  intros Htoggle Hrun.
  set (won := {| catalogFile := catalog; flagsFile := flags;
                 VALIDATE_IMAGE_FILES := Some "true"; existsSync := fs |})
    in *.
  set (woff := {| catalogFile := catalog; flagsFile := flags;
                  VALIDATE_IMAGE_FILES := toggle; existsSync := fs |}).
  assert (Hoff : checkImageFiles woff = false).
  { unfold checkImageFiles. cbn. destruct toggle as [v|]; [|reflexivity].
    apply String.eqb_neq. congruence. }
  assert (Hsame : forall basic,
             validateCatalog woff = Returned basic ->
             warnings basic = warnings strict ->
             errors basic
             = filter (fun m => negb (isFileNotFound m)) (errors strict) ->
             exists basic',
               validateCatalog woff = Returned basic'
               /\ warnings basic' = warnings strict
               /\ errors basic'
                  = filter (fun m => negb (isFileNotFound m)) (errors strict)
               /\ (forall m, In m (errors basic') -> In m (errors strict))
               /\ (success strict = true -> success basic' = true)).
  { intros basic Hb Hw He. exists basic. split; [exact Hb|].
    split; [exact Hw|]. split; [exact He|]. split.
    - intros m Hm. rewrite He in Hm. apply filter_In in Hm as [Hm _].
      exact Hm.
    - intros Hs.
      destruct (validateCatalog_consistent _ _ Hrun) as [A _].
      destruct (validateCatalog_consistent _ _ Hb) as [_ B].
      apply B. rewrite He, (A Hs). reflexivity. }
  destruct catalog as [[message|parsed]|].
  - apply (Hsame strict); [exact Hrun|reflexivity|].
    unfold validateCatalog, validateCatalogBody in Hrun. cbn in Hrun.
    injection Hrun as <-. reflexivity.
  - destruct parsed as [ | | | |drinks| ];
      try (apply (Hsame strict); [exact Hrun|reflexivity|];
           unfold validateCatalog, validateCatalogBody in Hrun; cbn in Hrun;
           injection Hrun as <-; reflexivity).
    pose proof Hrun as Hbody.
    apply validateCatalog_Returned in Hbody as (st & Hbody & Hst).
    unfold validateCatalogBody in Hbody. cbn [catalogFile won] in Hbody.
    apply bind_Returned in Hbody as ([] & s1 & H1 & Hbody).
    apply bind_Returned in Hbody as ([] & s2 & H2 & H3).
    destruct (returns_validateFlags flags s1) as ([] & st' & Hflags).
    assert (Hb : validateCatalog woff = Returned (result st')).
    { assert (Hb : validateCatalogBody woff initialState = Returned (tt, st')).
      { unfold validateCatalogBody.
        change (catalogFile woff) with (Some (Parsed (JArr drinks))).
        cbv iota. rewrite Hoff. change (flagsFile woff) with flags.
        unfold bind. rewrite H1. unfold when, ret. exact Hflags. }
      unfold validateCatalog. rewrite Hb. reflexivity. }
    destruct (validateCatalog_pushed woff drinks _ eq_refl Hb) as [Eb Wb].
    destruct (validateCatalog_pushed won drinks _ eq_refl Hrun) as [_ Ws].
    rewrite Hoff in Eb. cbn [app] in Eb.
    apply (Hsame (result st')); [exact Hb|congruence|].
    rewrite (errors_but_file_not_found won drinks strict eq_refl Hrun).
    exact Eb.
  - apply (Hsame strict); [exact Hrun|reflexivity|].
    unfold validateCatalog, validateCatalogBody in Hrun. cbn in Hrun.
    injection Hrun as <-. reflexivity.
Qed.

End Validator.

(** * Concrete runs *)

(** The run on a sample world. *)
Abbreviation run drinks toggle :=
  (validateCatalog sampleNumberToString (worldOf drinks toggle)).

Lemma success_iff_no_errors_witness :
  exists r,
    run [margaritaMismatch; JNull] None = Returned r
    /\ ((success r = true <-> errors r = [])
        /\ success r = match errors r with [] => true | _ :: _ => false end).
Proof.
  eexists. split; [vm_compute; reflexivity|].
  apply (success_iff_no_errors sampleNumberToString
           (worldOf [margaritaMismatch; JNull] None)).
  vm_compute. reflexivity.
Defined.

(** ** modifiersSupported *)

(** A boolean [true] in modifiersSupported is reported as an error. *)
Lemma modifiersSupported_true_is_an_error :
  let d := margaritaWith "modifiersSupported" (JBool true) in
  let r := {| success := false;
              errors := ["Drink at index 0 (margarita): modifiersSupported must be an array of strings if provided"];
              warnings := [] |} in
  get d "modifiersSupported" = Some (JBool true)
  /\ run [d] None = Returned r
  /\ In (msg_labelled 0 "margarita" text_modifiers) (errors r).
Proof.
  split; [reflexivity|]. split; [vm_compute; reflexivity|].
  left. vm_compute. reflexivity.
Qed.

Lemma modifiersSupported_witness :
  let d := margaritaWith "modifiersSupported" (JBool true) in
  exists r,
    run [margarita; d] None = Returned r
    /\ ((exists label, In (msg_labelled 1 label text_modifiers) (errors r))
        <-> truthy (get d "modifiersSupported") = true
            /\ notArrayOfStrings (get d "modifiersSupported") = true)
    /\ (get d "modifiersSupported" = None
        \/ get d "modifiersSupported" = Some (JBool false)
        \/ (exists l, get d "modifiersSupported" = Some (JArr l)
                      /\ everyString l = true) ->
        forall label, ~ In (msg_labelled 1 label text_modifiers) (errors r))
    /\ (get d "modifiersSupported" = Some (JBool true) ->
        exists label,
          drinkLabel sampleNumberToString d = Returned label
          /\ In (msg_labelled 1 label text_modifiers) (errors r)).
Proof.
  intros d. eexists. split; [vm_compute; reflexivity|].
  apply (modifiersSupported_accepts_arrays_of_strings sampleNumberToString
           (worldOf [margarita; d] None) [margarita; d] 1 d);
    vm_compute; reflexivity.
Defined.

(** ** Exceptions *)

(** C3. An entry without imagePath whose imageVariants is a well-formed
    object makes [validateCatalog] throw: [path.extname] receives
    [undefined], and nothing catches the [TypeError]. *)
Theorem missing_imagePath_throws (numberToString : float -> string) :
  validateCatalog numberToString
    (worldOf
       [JObj [("id", JStr "a"); ("name", JStr "A"); ("category", JStr "c");
              ("popularity", JNum 1);
              ("imageVariants",
               JObj [("sm", JStr "drinks/_thumbs/a_512.png");
                     ("md", JStr "drinks/_thumbs/a_1024.png")])]]
       None)
  = Thrown (ERR_INVALID_ARG_TYPE "path").
Proof. vm_compute. reflexivity. Qed.

(** With the image file check on, a [null] element makes the second loop
    throw as well. *)
Lemma null_element_throws_when_files_are_checked :
  run [margarita; JNull] (Some "true")
  = Thrown (TypeError_null_property "id").
Proof. vm_compute. reflexivity. Qed.

(** ** Elements that are not objects *)

(** A JSON array passes the object test: the field rules run on it. *)
Lemma array_element_is_validated_as_an_object :
  let r := {| success := false;
              errors := ["Drink at index 0: id must be a non-empty string";
                         "Drink at index 0 (unknown id): name must be a non-empty string";
                         "Drink at index 0 (unknown id): category must be a string";
                         "Drink at index 0 (unknown id): popularity must be a number between 0 and 100";
                         "Drink at index 0 (unknown id): imagePath must be a string";
                         "Drink at index 0 (unknown id): imageVariants must be an object"];
              warnings := [] |} in
  run [JArr []] None = Returned r
  /\ ~ In (msg_not_object 0) (errors r).
Proof.
  split; [vm_compute; reflexivity|].
  vm_compute. intros H.
  repeat (destruct H as [H|H]; [discriminate H|]). exact H.
Qed.

Lemma non_object_element_witness :
  exists r,
    run [margarita; JNull; margarita] None = Returned r
    /\ (forall st,
          forEach (validateDrink sampleNumberToString)
                  ([margarita] ++ JNull :: [margarita]) 0 st =
          (forEach (validateDrink sampleNumberToString) [margarita] 0 ;;
           reportError (msg_not_object 1) ;;
           forEach (validateDrink sampleNumberToString) [margarita] 2) st)
    /\ (exists before after,
          errors r = before ++ msg_not_object 1 :: after
          /\ Forall (fun m => ~ fromIndex 1 m) before
          /\ Forall (fun m => ~ fromIndex 1 m) after).
Proof.
  eexists. split; [vm_compute; reflexivity|].
  destruct (non_object_element_gets_one_error sampleNumberToString
              (worldOf [margarita; JNull; margarita] None)
              [margarita] [margarita] JNull
              {| success := false;
                 errors := ["Drink at index 1: must be an object";
                            "Drink at index 2: duplicate id " +++ dquote
                              +++ "margarita" +++ dquote];
                 warnings := [] |} I) as [H1 H2].
  split; [exact H1|]. apply H2; vm_compute; reflexivity.
Defined.

(** ** Duplicate ids *)

(** Two entries with the same blank id: each gets the non-empty-string
    error, and no duplicate is reported. *)
Lemma blank_id_reused_is_not_a_duplicate :
  let d := margaritaWith "id" (JStr " ") in
  let r := {| success := false;
              errors := ["Drink at index 0: id must be a non-empty string";
                         "Drink at index 1: id must be a non-empty string"];
              warnings := [] |} in
  get d "id" = Some (JStr " ")
  /\ run [d; d] None = Returned r
  /\ ~ In (msg_duplicate 1 " ") (errors r).
Proof.
  split; [reflexivity|]. split; [vm_compute; reflexivity|].
  vm_compute. intros H.
  repeat (destruct H as [H|H]; [discriminate H|]). exact H.
Qed.

Lemma duplicate_id_witness :
  exists r,
    run [margarita; margarita] None = Returned r
    /\ (In (msg_duplicate 1 "margarita") (errors r) <->
        exists i d', i < 1 /\ nth_error [margarita; margarita] i = Some d'
                     /\ validId d' = Some "margarita")
    /\ (forall id', In (msg_duplicate 1 id') (errors r) -> id' = "margarita").
Proof.
  eexists. split; [vm_compute; reflexivity|].
  apply (duplicate_id_reported_for_later_occurrences sampleNumberToString
           (worldOf [margarita; margarita] None) [margarita; margarita] 1
           margarita "margarita");
    vm_compute; reflexivity.
Defined.

Lemma invalid_ids_witness :
  let drinks := [margaritaWith "id" (JStr " "); margaritaWith "id" (JNum 7);
                 margarita] in
  exists r,
    run drinks None = Returned r
    /\ (forall st id,
          forEach (validateDrink sampleNumberToString) drinks 0 initialState
          = Returned (tt, st) ->
          In id (seenIds st) ->
          exists i d, nth_error drinks i = Some d /\ validId d = Some id)
    /\ (forall index d,
          nth_error drinks index = Some d ->
          notAnObject d = false ->
          notNonEmptyString (get d "id") = true ->
          In (msg_id_required index) (errors r)
          /\ forall id, ~ In (msg_duplicate index id) (errors r)).
Proof.
  intros drinks. eexists. split; [vm_compute; reflexivity|].
  apply (invalid_ids_are_never_duplicates sampleNumberToString
           (worldOf drinks None) drinks);
    vm_compute; reflexivity.
Defined.

(** ** The snake_case format *)

(** An id made of one space contains a space, and gets the
    non-empty-string error instead of the format error. *)
Lemma blank_id_gets_no_format_error :
  let d := margaritaWith "id" (JStr " ") in
  let r := {| success := false;
              errors := ["Drink at index 0: id must be a non-empty string"];
              warnings := [] |} in
  get d "id" = Some (JStr " ")
  /\ anyChar isUpperSpaceOrHyphen " " = true
  /\ run [d] None = Returned r
  /\ ~ In (msg_format 0 " ") (errors r).
Proof.
  split; [reflexivity|]. split; [reflexivity|].
  split; [vm_compute; reflexivity|].
  vm_compute. intros H.
  repeat (destruct H as [H|H]; [discriminate H|]). exact H.
Qed.

Lemma format_error_witness :
  let d := margaritaWith "id" (JStr "My-Drink") in
  exists r,
    run [d] None = Returned r
    /\ (In (msg_format 0 "My-Drink") (errors r)
        <-> testSnakeCase "My-Drink" = false)
    /\ (anyChar isUpperSpaceOrHyphen "My-Drink" = true ->
        In (msg_format 0 "My-Drink") (errors r))
    /\ ("My-Drink" = "my_drink_1" ->
        forall id', ~ In (msg_format 0 id') (errors r))
    /\ ("My-Drink" = "My-Drink" -> In (msg_format 0 "My-Drink") (errors r)).
Proof.
  intros d. eexists. split; [vm_compute; reflexivity|].
  apply (format_error_for_ids_outside_snake_case sampleNumberToString
           (worldOf [d] None) [d] 0 d "My-Drink");
    vm_compute; reflexivity.
Defined.

(** ** The popularity range *)

Lemma popularity_witness :
  let d := margaritaWith "popularity" (JNum 101) in
  exists r,
    run [d] None = Returned r
    /\ ((exists label, In (msg_labelled 0 label text_popularity) (errors r))
        <-> PrimFloat.ltb 101 0 || PrimFloat.ltb 100 101 = true)
    /\ (101%float = 0%float \/ 101%float = 100%float ->
        forall label, ~ In (msg_labelled 0 label text_popularity) (errors r))
    /\ (101%float = (-1)%float \/ 101%float = 101%float ->
        exists label,
          drinkLabel sampleNumberToString d = Returned label
          /\ In (msg_labelled 0 label text_popularity) (errors r)).
Proof.
  intros d. eexists. split; [vm_compute; reflexivity|].
  apply (popularity_bounds_are_inclusive sampleNumberToString
           (worldOf [d] None) [d] 0 d 101);
    vm_compute; reflexivity.
Defined.

(** ** The image file toggle *)

Lemma toggle_off_witness :
  let catalog := Some (Parsed (JArr [margaritaMismatch])) in
  let w1 := {| catalogFile := catalog; flagsFile := None;
               VALIDATE_IMAGE_FILES := Some "TRUE";
               existsSync := fun _ => true |} in
  let w2 := {| catalogFile := catalog; flagsFile := None;
               VALIDATE_IMAGE_FILES := Some "TRUE";
               existsSync := fun _ => false |} in
  validateCatalog sampleNumberToString w1
  = validateCatalog sampleNumberToString w2
  /\ forall r, validateCatalog sampleNumberToString w1 = Returned r ->
               forall msg, In msg (errors r) -> isFileNotFound msg = false.
Proof.
  apply (toggle_off_ignores_image_files sampleNumberToString
           (Some (Parsed (JArr [margaritaMismatch]))) None (Some "TRUE")
           (fun _ => true) (fun _ => false)).
  discriminate.
Defined.

(** ** Thumbnail paths *)

Lemma thumbnail_mismatch_witness :
  let good := ("imageVariants", goodVariants) :: margaritaFields in
  let bad := ("imageVariants", badVariants) :: margaritaFields in
  exists r,
    run [margarita; margaritaMismatch] None = Returned r
    /\ (exists label before after,
          drinkLabel sampleNumberToString (JObj bad) = Returned label
          /\ warnings r =
             before
             ++ ("Drink at index " +++ string_of_nat 1 +++ " (" +++ label
                 +++ "): sm path should be drinks/_thumbs/margarita_512.png")
                :: after
          /\ Forall (fun m => ~ fromIndex 1 m) before
          /\ Forall (fun m => ~ fromIndex 1 m) after).
Proof.
  intros good bad. eexists. split; [vm_compute; reflexivity|].
  destruct (thumbnail_mismatch_is_one_warning sampleNumberToString
              (worldOf [margarita; margaritaMismatch] None)
              [margarita] [] good bad
              {| success := false;
                 errors := ["Drink at index 1: duplicate id " +++ dquote
                              +++ "margarita" +++ dquote];
                 warnings := ["Drink at index 1 (margarita): sm path should be drinks/_thumbs/margarita_512.png"] |})
    as (_ & _ & H & _).
  - reflexivity.
  - reflexivity.
  - reflexivity.
  - intros k Hk. unfold good, bad. cbn [assoc].
    destruct (String.eqb_spec "imageVariants" k); [congruence|reflexivity].
  - apply H; vm_compute; reflexivity.
Defined.

(** ** The field rules *)

Lemma name_error_witness :
  let d := margaritaBut "name" (JStr "  ") in
  exists r,
    run [d] None = Returned r
    /\ (In ("Drink at index " +++ string_of_nat 0 +++ " (" +++ "margarita"
            +++ "): name must be a non-empty string") (errors r)
        <-> notNonEmptyString (get d "name") = true).
Proof.
  intros d. eexists. split; [vm_compute; reflexivity|].
  refine (proj1 (name_error_iff_not_a_non_empty_string sampleNumberToString
                   (worldOf [d] None) [d] 0 d _ "margarita" _ _ _ _ _));
    vm_compute; reflexivity.
Defined.

Lemma category_error_witness :
  let d := margaritaBut "category" (JNum 3) in
  exists r,
    run [d] None = Returned r
    /\ (In ("Drink at index " +++ string_of_nat 0 +++ " (" +++ "margarita"
            +++ "): category must be a string") (errors r)
        <-> negb (truthy (get d "category"))
            || negb (String.eqb (typeof (get d "category")) "string") = true).
Proof.
  intros d. eexists. split; [vm_compute; reflexivity|].
  refine (proj1 (category_error_iff_not_a_string sampleNumberToString
                   (worldOf [d] None) [d] 0 d _ "margarita" _ _ _ _ _));
    vm_compute; reflexivity.
Defined.

Lemma aliases_error_witness :
  let d := margaritaBut "aliases" (JStr "Marg") in
  exists r,
    run [d] None = Returned r
    /\ (In ("Drink at index " +++ string_of_nat 0 +++ " (" +++ "margarita"
            +++ "): aliases must be an array of strings if provided")
           (errors r)
        <-> truthy (get d "aliases") = true
            /\ notArrayOfStrings (get d "aliases") = true).
Proof.
  intros d. eexists. split; [vm_compute; reflexivity|].
  refine (proj1 (aliases_error_iff_truthy_and_not_strings sampleNumberToString
                   (worldOf [d] None) [d] 0 d _ "margarita" _ _ _ _ _));
    vm_compute; reflexivity.
Defined.

Lemma imagePath_errors_witness :
  let d := margaritaBut "imagePath" (JStr "images/margarita.png") in
  exists r,
    run [d] None = Returned r
    /\ (forall p, get d "imagePath" = Some (JStr p) ->
          (In ("Drink at index " +++ string_of_nat 0 +++ " (" +++ "margarita"
               +++ "): imagePath must start with " +++ dquote +++ "drinks/"
               +++ dquote) (errors r)
           <-> p <> "" /\ startsWith p "drinks/" = false)).
Proof.
  intros d. eexists. split; [vm_compute; reflexivity|].
  refine (proj1 (proj2 (imagePath_errors_iff sampleNumberToString
                          (worldOf [d] None) [d] 0 d _ "margarita"
                          _ _ _ _ _)));
    vm_compute; reflexivity.
Defined.

Lemma png_warning_witness :
  let d := margaritaBut "imagePath" (JStr "drinks/margarita.jpg") in
  exists r,
    run [d] None = Returned r
    /\ (In ("Drink at index " +++ string_of_nat 0 +++ " (" +++ "margarita"
            +++ "): imagePath should be a .png file for consistency")
           (warnings r)
        <-> "drinks/margarita.jpg" <> ""
            /\ testPngExtension "drinks/margarita.jpg" = false).
Proof.
  intros d. eexists. split; [vm_compute; reflexivity|].
  refine (proj1 (png_warning_iff_other_extension sampleNumberToString
                   (worldOf [d] None) [d] 0 d _ "margarita"
                   "drinks/margarita.jpg" _ _ _ _ _ _));
    vm_compute; reflexivity.
Defined.

Lemma imageVariants_shape_witness :
  let d := margaritaBut "imageVariants" (JArr []) in
  exists r,
    run [d] None = Returned r
    /\ (get d "imageVariants" = Some (JArr []) ->
        In ("Drink at index " +++ string_of_nat 0 +++ " (" +++ "margarita"
            +++ "): imageVariants must contain at least one variant")
           (errors r)
        /\ ~ In ("Drink at index " +++ string_of_nat 0 +++ " ("
                 +++ "margarita" +++ "): imageVariants must be an object")
                (errors r)).
Proof.
  intros d. eexists. split; [vm_compute; reflexivity|].
  refine (proj2 (proj2 (imageVariants_shape_errors_iff sampleNumberToString
                          (worldOf [d] None) [d] 0 d _ "margarita"
                          _ _ _ _ _)));
    vm_compute; reflexivity.
Defined.

Lemma variant_value_witness :
  let variants := JObj [("sm", JStr "thumbs/margarita_512.png");
                        ("md", JNum 1024)] in
  let d := margaritaBut "imageVariants" variants in
  exists r,
    run [d] None = Returned r
    /\ (forall p, get variants "sm" = Some (JStr p) ->
          (In ("Drink at index " +++ string_of_nat 0 +++ " (" +++ "margarita"
               +++ "): imageVariants." +++ "sm"
               +++ " must be a non-empty string") (errors r)
           <-> trim p = "")
          /\ (In ("Drink at index " +++ string_of_nat 0 +++ " ("
                  +++ "margarita" +++ "): imageVariants." +++ "sm"
                  +++ " must start with " +++ dquote +++ "drinks/_thumbs/"
                  +++ dquote) (errors r)
              <-> trim p <> "" /\ startsWith p "drinks/_thumbs/" = false)).
Proof.
  intros variants d. eexists. split; [vm_compute; reflexivity|].
  refine (proj1 (variant_value_errors_iff sampleNumberToString
                   (worldOf [d] None) [d] 0 d _ "margarita" variants "sm"
                   _ _ _ _ _ _ _ _));
    try (vm_compute; reflexivity).
  left. reflexivity.
Defined.

Lemma variant_keys_witness :
  let variants := JObj [("sm", JStr "drinks/_thumbs/margarita_512.png")] in
  let d := margaritaBut "imageVariants" variants in
  exists r,
    run [d] None = Returned r
    /\ (In ("Drink at index " +++ string_of_nat 0 +++ " (" +++ "margarita"
            +++ "): imageVariants should include keys {sm, md} (or {512, 1024} for legacy)")
           (warnings r)
        <-> ~ (In "sm" (keys variants) /\ In "md" (keys variants))
            /\ ~ (In "512" (keys variants) /\ In "1024" (keys variants))).
Proof.
  intros variants d. eexists. split; [vm_compute; reflexivity|].
  refine (variant_keys_warning_iff sampleNumberToString
            (worldOf [d] None) [d] 0 d _ "margarita" variants
            _ _ _ _ _ _ _);
    vm_compute; reflexivity.
Defined.

Lemma expected_path_witness :
  let p := "drinks/old_fashioned.png" in
  let variants := JObj [("sm", JStr "drinks/_thumbs/old_512.png");
                        ("md", JStr "drinks/_thumbs/old_fashioned_1024.png")] in
  let d := JObj (setField "imagePath" (JStr p)
                   (("imageVariants", variants) :: margaritaFields)) in
  exists r,
    run [d] None = Returned r
    /\ (In ("Drink at index " +++ string_of_nat 0 +++ " (" +++ "margarita"
            +++ "): sm path should be drinks/_thumbs/"
            +++ NodePath.basename p (NodePath.extname p) +++ "_512.png")
           (warnings r)
        <-> truthy (get variants "sm") = true
            /\ get variants "sm"
               <> Some (JStr ("drinks/_thumbs/"
                              +++ NodePath.basename p (NodePath.extname p)
                              +++ "_512.png"))).
Proof.
  intros p variants d. eexists. split; [vm_compute; reflexivity|].
  refine (proj1 (expected_path_warning_iff sampleNumberToString
                   (worldOf [d] None) [d] 0 d _ "margarita" p variants
                   _ _ _ _ _ _ _ _));
    vm_compute; reflexivity.
Defined.

(** ** Returning and throwing *)

Lemma validateCatalog_returns_witness :
  exists r,
    validateCatalog sampleNumberToString
      (worldOf [margaritaMismatch; JNum 3; margaritaBut "imagePath" (JStr "")]
               None)
    = Returned r.
Proof.
  apply (validateCatalog_returns sampleNumberToString
           (worldOf [margaritaMismatch; JNum 3;
                     margaritaBut "imagePath" (JStr "")] None)).
  - reflexivity.
  - intros drinks d E Hin Ho. injection E as <-.
    destruct Hin as [<-|[<-|[<-|[]]]].
    + split; [eexists; vm_compute; reflexivity|].
      intros _ _. vm_compute. reflexivity.
    + discriminate Ho.
    + split; [eexists; vm_compute; reflexivity|].
      intros _ _. vm_compute. reflexivity.
Defined.

Lemma unguarded_imagePath_witness :
  let d := margaritaBut "imagePath" (JNum 7) in
  (exists e, validateCatalog sampleNumberToString
               (worldOf [margarita; d] None) = Thrown e)
  /\ forall r, validateCatalog sampleNumberToString
                 (worldOf [margarita; d] None) <> Returned r.
Proof.
  intros d.
  apply (unguarded_imagePath_throws sampleNumberToString
           (worldOf [margarita; d] None) [margarita; d] d).
  - reflexivity.
  - right. left. reflexivity.
  - reflexivity.
  - reflexivity.
  - reflexivity.
  - vm_compute. discriminate.
Defined.

(** ** The flags check, the file check and the two modes *)

Lemma flags_errors_witness :
  let w := {| catalogFile := Some (Parsed (JArr [margarita]));
              flagsFile :=
                Some (Parsed (JObj [("forceTextOnly", JStr "yes");
                                    ("catalogVersion", JStr "0.1.0");
                                    ("theme", JNum 1)]));
              VALIDATE_IMAGE_FILES := None;
              existsSync := fun _ => false |} in
  exists r,
    validateCatalog sampleNumberToString w = Returned r
    /\ (In "flags.json: forceTextOnly must be a boolean" (errors r)
        <-> exists flags v,
              flagsFile w = Some (Parsed flags) /\ notAnObject flags = false
              /\ get flags "forceTextOnly" = Some v
              /\ typeof (Some v) <> "boolean").
Proof.
  intros w. eexists. split; [vm_compute; reflexivity|].
  refine (proj1 (proj2 (proj2 (flags_errors_iff sampleNumberToString
                                 w [margarita] _ _ _))));
    vm_compute; reflexivity.
Defined.

Lemma image_files_witness :
  let w := {| catalogFile := Some (Parsed (JArr [margarita]));
              flagsFile := None;
              VALIDATE_IMAGE_FILES := Some "true";
              existsSync := fun p => String.eqb p "drinks/margarita.png" |} in
  exists r,
    validateCatalog sampleNumberToString w = Returned r
    /\ In ("Image variant file not found: "
           +++ "drinks/_thumbs/margarita_512.png" +++ " (" +++ "sm"
           +++ ") for drink " +++ dquote +++ "margarita" +++ dquote)
          (errors r).
Proof.
  intros w. eexists. split; [vm_compute; reflexivity|].
  refine (proj2 (proj1 (image_files_are_checked_when_toggle_is_on
                          sampleNumberToString w [margarita] _ _ _ _)
                   margarita "margarita" "drinks/margarita.png" _ _ _ _ _)
            goodVariants "sm" "drinks/_thumbs/margarita_512.png" _ _ _ _);
    try (vm_compute; reflexivity); try discriminate;
    left; reflexivity.
Defined.

Lemma strict_run_witness :
  exists strict,
    validateCatalog sampleNumberToString
      {| catalogFile := Some (Parsed (JArr [margaritaMismatch]));
         flagsFile := None;
         VALIDATE_IMAGE_FILES := Some "true";
         existsSync := fun _ => false |} = Returned strict
    /\ exists basic,
         validateCatalog sampleNumberToString
           {| catalogFile := Some (Parsed (JArr [margaritaMismatch]));
              flagsFile := None;
              VALIDATE_IMAGE_FILES := None;
              existsSync := fun _ => false |} = Returned basic
         /\ warnings basic = warnings strict
         /\ errors basic
            = filter (fun m => negb (isFileNotFound m)) (errors strict)
         /\ (forall m, In m (errors basic) -> In m (errors strict))
         /\ (success strict = true -> success basic = true).
Proof.
  eexists. split; [vm_compute; reflexivity|].
  apply (strict_run_extends_basic_run sampleNumberToString
           (Some (Parsed (JArr [margaritaMismatch]))) None (fun _ => false)
           None).
  - discriminate.
  - vm_compute. reflexivity.
Defined.
